(** * StarkWolf transaction bot: a shallow embedding of [src/bot.ts]

    The class [StarkWolfGame] drives a Starknet game contract: it keeps a
    registry of signing accounts, submits one transaction per game action
    and retries failed submissions through [retryTransaction].

    The embedding threads an explicit state through every method: the
    fields of the object ([this]), the state of the external ledger, and
    the trace of the observable effects (console output, timers, calls
    made to the ledger).  A rejected promise or a thrown value is the
    [Throw] outcome; [await] is sequencing.

    What [src/bot.ts] calls and does not define is a parameter of the
    embedding: the two calls into starknet.js that can throw before
    anything is sent ([StarknetJs]) and the ledger behind the provider
    ([LedgerBackend]). *)

From Stdlib Require Import ZArith List Ascii String DecimalString Bool Lia.
Import ListNotations.
Open Scope string_scope.
Open Scope list_scope.
Open Scope Z_scope.

(** ** Values *)

(** What a [catch] clause can receive.  [JsError] is an instance of
    [Error] (it always has a string [message]); [JsObject] is any other
    thrown value, with its [message] property when it has one;
    [JsUndefined] is the value of a variable that was never assigned. *)
Inductive JsValue : Type :=
| JsUndefined
| JsError (message : string)
| JsObject (message : option string).

(** An account object of starknet.js: the address it signs for and the
    key its signer was made of. *)
Record Account : Type := mkAccount {
  address : string;
  privateKey : string
}.

(** The response of [account.execute]. *)
Record Tx : Type := mkTx {
  transaction_hash : string
}.

(** The fields of the object handed to [CallData.compile]. *)
Inductive CallArg : Type :=
| ArgNumber (n : Z)
| ArgAddress (a : string)
| ArgAddresses (l : list string).

Definition Calldata : Type := list (string * CallArg).

Record Call : Type := mkCall {
  contractAddress : string;
  entrypoint : string;
  calldata : Calldata
}.

(** The decoded result of the [get_game_state] view, as raw felts. *)
Definition GameState : Type := list Z.

(** [constants.TRANSACTION_VERSION] *)
Inductive TxVersion : Type := V1 | V2 | V3.

(** ** Strings *)

(** [hay.includes(needle)] *)
Fixpoint includes (needle hay : string) : bool :=
  if String.prefix needle hay then true
  else match hay with
       | EmptyString => false
       | String _ rest => includes needle rest
       end.

(** Truthiness of a string: only the empty string is falsy. *)
Definition truthy (s : string) : bool :=
  match s with
  | EmptyString => false
  | String _ _ => true
  end.

(** [e instanceof Error] *)
Definition instanceof_Error (e : JsValue) : bool :=
  match e with
  | JsError _ => true
  | _ => false
  end.

(** [e.message], for a value that has properties. *)
Definition message_of (e : JsValue) : option string :=
  match e with
  | JsUndefined => None
  | JsError m => Some m
  | JsObject m => m
  end.

(** [e.message && e.message.includes(needle)] *)
Definition message_includes (e : JsValue) (needle : string) : bool :=
  match message_of e with
  | Some m => truthy m && includes needle m
  | None => false
  end.

(** ** The account registry: a JavaScript [Map]

    A [Map] iterates in insertion order and [set] on a key already present
    replaces the value where it stands, so the registry is an association
    list with unique keys. *)

Definition AccountMap : Type := list (string * Account).

Fixpoint map_get (k : string) (m : AccountMap) : option Account :=
  match m with
  | [] => None
  | (k', v) :: rest => if String.eqb k k' then Some v else map_get k rest
  end.

Fixpoint map_set (k : string) (v : Account) (m : AccountMap) : AccountMap :=
  match m with
  | [] => [(k, v)]
  | (k', v') :: rest =>
      if String.eqb k k' then (k', v) :: rest else (k', v') :: map_set k v rest
  end.

(** [m.values().next().value] *)
Definition map_first (m : AccountMap) : option Account :=
  match m with
  | [] => None
  | (_, v) :: _ => Some v
  end.

(** ** The object and the world around it *)

(** The mutable fields of a [StarkWolfGame]: the registry and the contract
    handle, whose signer is changed by [contract.connect]. *)
Record Game : Type := mkGame {
  contract_address : string;
  connected : option Account;
  accounts : AccountMap
}.

(** The constructor: an empty registry, a contract bound to the provider. *)
Definition new_game (contractAddr : string) : Game :=
  {| contract_address := contractAddr; connected := None; accounts := [] |}.

(** [this.accounts.set(addr, a)] *)
Definition accounts_set (addr : string) (a : Account) (g : Game) : Game :=
  {| contract_address := contract_address g;
     connected := connected g;
     accounts := map_set addr a (accounts g) |}.

Definition connect (a : Account) (g : Game) : Game :=
  {| contract_address := contract_address g;
     connected := Some a;
     accounts := accounts g |}.

(** Console messages.  The two messages of [retryTransaction] are built
    from numbers and are kept structured. *)
Inductive LogMsg : Type :=
| Text (s : string)
| AttemptFailed (attempt delayMs : Z)
| AllAttemptsFailed (maxAttempts : Z)
| ExistingGameState (gs : GameState)
| TargetProtectedNotice.

(** Observable effects, in the order they happen.  [EvAttempt] is written
    by [attempt_of] only: it marks one invocation of an operation and
    keeps the error it failed with, if any. *)
Inductive Event : Type :=
| EvLog (m : LogMsg)
| EvConsoleError (label : string) (e : JsValue)
| EvSleep (ms : Z)
| EvExecute (signer : Account) (c : Call) (version : TxVersion)
| EvWait (hash : string)
| EvQuery (gameId : Z)
| EvAttempt (failure : option JsValue).

Inductive Outcome (T : Type) : Type :=
| Return (v : T)
| Throw (e : JsValue).
Arguments Return {T} v.
Arguments Throw {T} e.

(** The two calls into starknet.js that can throw before anything is
    sent.  [Account_new address privateKey] is
    [new Account(provider, address, privateKey)]: the library decides what
    the account object holds (starknet.js keeps the address in lower case)
    and throws when it cannot make a signer of the key.
    [CallData_compile_throws fields] is what [CallData.compile({ fields })]
    throws when it throws; compiled calldata is kept as the fields it was
    compiled from. *)
Class StarknetJs : Type := {
  Account_new : string -> string -> Outcome Account;
  CallData_compile_throws : Calldata -> option JsValue
}.

(** [addAccount]: the constructor of the account runs first, so the
    registry is as it was when the constructor throws. *)
Definition addAccount `{StarknetJs} (addr key : string) (g : Game)
    : Outcome Game :=
  match Account_new addr key with
  | Return a => Return (accounts_set addr a g)
  | Throw e => Throw e
  end.

(** The library, and the ledger seen through the three calls the bot
    makes.  [L] is the state of everything outside the process: node,
    mempool, chain. *)
Class LedgerBackend (L : Type) : Type := {
  starknet_js :: StarknetJs;
  account_execute : Account -> Call -> TxVersion -> L -> Outcome Tx * L;
  provider_waitForTransaction : string -> L -> Outcome unit * L;
  contract_get_game_state : Z -> L -> Outcome GameState * L
}.

Record St (L : Type) : Type := mkSt {
  this : Game;
  ledger : L;
  trace : list Event
}.
Arguments mkSt {L} _ _ _.
Arguments this {L} _.
Arguments ledger {L} _.
Arguments trace {L} _.

(** ** The monad of asynchronous methods *)

Definition M (L T : Type) : Type := St L -> Outcome T * St L.

Definition ret {L T} (v : T) : M L T := fun st => (Return v, st).

Definition throw {L T} (e : JsValue) : M L T := fun st => (Throw e, st).

Definition bind {L A B} (c : M L A) (k : A -> M L B) : M L B :=
  fun st =>
    match c st with
    | (Return v, st') => k v st'
    | (Throw e, st') => (Throw e, st')
    end.

(** [try { c } catch (error) { handler }] *)
Definition try_catch {L T} (c : M L T) (handler : JsValue -> M L T) : M L T :=
  fun st =>
    match c st with
    | (Return v, st') => (Return v, st')
    | (Throw e, st') => handler e st'
    end.

Notation "x <- c1 ;; c2" := (bind c1 (fun x => c2))
  (at level 61, c1 at next level, right associativity).
Notation "c1 ;; c2" := (bind c1 (fun _ => c2))
  (at level 61, right associativity).

Section Effects.
Context {L : Type} `{LedgerBackend L}.

Definition record (ev : Event) (st : St L) : St L :=
  mkSt (this st) (ledger st) (trace st ++ [ev]).

Definition console_log (m : LogMsg) : M L unit :=
  fun st => (Return tt, record (EvLog m) st).

Definition console_error (label : string) (e : JsValue) : M L unit :=
  fun st => (Return tt, record (EvConsoleError label e) st).

(** [await new Promise(resolve => setTimeout(resolve, ms))] *)
Definition sleep (ms : Z) : M L unit :=
  fun st => (Return tt, record (EvSleep ms) st).

(** [this.accounts.get(addr)] *)
Definition accounts_get (addr : string) : M L (option Account) :=
  fun st => (Return (map_get addr (accounts (this st))), st).

(** [this.accounts.values().next().value] *)
Definition accounts_first : M L (option Account) :=
  fun st => (Return (map_first (accounts (this st))), st).

(** [this.contract.connect(a)] *)
Definition contract_connect (a : Account) : M L unit :=
  fun st => (Return tt, mkSt (connect a (this st)) (ledger st) (trace st)).

(** [CallData.compile({ fields })] *)
Definition CallData_compile (fields : Calldata) : M L Calldata :=
  fun st =>
    match CallData_compile_throws fields with
    | Some e => (Throw e, st)
    | None => (Return fields, st)
    end.

(** [this.contract.address] *)
Definition this_contract_address : M L string :=
  fun st => (Return (contract_address (this st)), st).

(** [await a.execute(c, undefined, { version: v })] *)
Definition execute (a : Account) (c : Call) (v : TxVersion) : M L Tx :=
  fun st =>
    let (r, l') := account_execute a c v (ledger st) in
    (r, mkSt (this st) l' (trace st ++ [EvExecute a c v])).

(** [await this.provider.waitForTransaction(hash)] *)
Definition waitForTransaction (hash : string) : M L unit :=
  fun st =>
    let (r, l') := provider_waitForTransaction hash (ledger st) in
    (r, mkSt (this st) l' (trace st ++ [EvWait hash])).

(** [await this.contract.get_game_state(gameId)] *)
Definition get_game_state (gameId : Z) : M L GameState :=
  fun st =>
    let (r, l') := contract_get_game_state gameId (ledger st) in
    (r, mkSt (this st) l' (trace st ++ [EvQuery gameId])).

(** ** [retryTransaction]

    The loop [for (attempt = 1; attempt <= maxAttempts; attempt++)].
    [fuel] bounds the iterations left; [retryTransaction] starts it at
    [Z.to_nat maxAttempts], the number of values [attempt] takes, so the
    loop condition is false whenever the fuel is spent
    ([retry_loop_fuel_exact]) and both exits throw [lastError]. *)
Fixpoint retry_loop {T} (operation : M L T) (maxAttempts delayMs : Z)
    (fuel : nat) (attempt : Z) (lastError : JsValue) : M L T :=
  match fuel with
  | O => throw lastError
  | S fuel' =>
      if attempt <=? maxAttempts then
        try_catch operation
          (fun error =>
             (if attempt <? maxAttempts then
                console_log (AttemptFailed attempt delayMs) ;;
                sleep delayMs
              else if 1 <? maxAttempts then
                console_log (AllAttemptsFailed maxAttempts)
              else ret tt) ;;
             retry_loop operation maxAttempts delayMs fuel' (attempt + 1) error)
      else throw lastError
  end.

Definition retryTransaction {T} (operation : M L T)
    (maxAttempts delayMs : Z) : M L T :=
  retry_loop operation maxAttempts delayMs (Z.to_nat maxAttempts) 1 JsUndefined.

(** Default arguments of [retryTransaction]. *)
Definition default_maxAttempts : Z := 5.
Definition default_delayMs : Z := 2000.

End Effects.

(** ** The methods of [StarkWolfGame] *)

Section Methods.
Context {L : Type} `{LedgerBackend L}.

(** The object returned by [werewolfAction] when the guard protected the
    target. *)
Definition protected_target_handled : Tx :=
  {| transaction_hash := "protected_target_handled" |}.

Definition startGame (gameId : Z) (players : list string)
    (starterAddress : string) : M L Tx :=
  try_catch
    (starterAccount <- accounts_get starterAddress ;;
     match starterAccount with
     | None => throw (JsError "Starter account not found")
     | Some starterAccount =>
         contract_connect starterAccount ;;
         try_catch
           (gameState <- get_game_state gameId ;;
            console_log (ExistingGameState gameState) ;;
            throw (JsError "Game already exists with this ID"))
           (fun _ =>
              console_log (Text "No existing game found, creating new game...")) ;;
         calldata <- CallData_compile
           [("game_id", ArgNumber gameId); ("players", ArgAddresses players)] ;;
         retryTransaction
           (console_log (Text "Using transaction version: 0x3") ;;
            addr <- this_contract_address ;;
            tx <- execute starterAccount (mkCall addr "start_game" calldata) V3 ;;
            waitForTransaction (transaction_hash tx) ;;
            ret tx)
           default_maxAttempts default_delayMs
     end)
    (fun error => console_error "Error starting game:" error ;; throw error).

Definition vote (gameId : Z) (target voterAddress : string) : M L Tx :=
  try_catch
    (voterAccount <- accounts_get voterAddress ;;
     match voterAccount with
     | None => throw (JsError "Voter account not found")
     | Some voterAccount =>
         contract_connect voterAccount ;;
         calldata <- CallData_compile
           [("game_id", ArgNumber gameId); ("target", ArgAddress target)] ;;
         retryTransaction
           (console_log (Text "Sending vote transaction...") ;;
            addr <- this_contract_address ;;
            tx <- execute voterAccount (mkCall addr "vote" calldata) V3 ;;
            console_log (Text "Transaction sent, waiting for confirmation...") ;;
            waitForTransaction (transaction_hash tx) ;;
            console_log (Text "Vote confirmed") ;;
            ret tx)
           default_maxAttempts default_delayMs
     end)
    (fun error => console_error "Error voting:" error ;; throw error).

(** The [catch] inside the closure of [werewolfAction].  Reading
    [error.message] of [undefined] throws a [TypeError]. *)
Definition night_action_catch (error : JsValue) : M L Tx :=
  match error with
  | JsUndefined =>
      throw (JsError "Cannot read properties of undefined (reading 'message')")
  | _ =>
      if message_includes error "Target protected" then
        console_log TargetProtectedNotice ;;
        ret protected_target_handled
      else throw error
  end.

(** The [catch] around the whole body of [werewolfAction]. *)
Definition werewolfAction_catch (error : JsValue) : M L Tx :=
  if instanceof_Error error && message_includes error "Target protected" then
    console_log TargetProtectedNotice ;;
    ret protected_target_handled
  else
    console_error "Error performing night action:" error ;;
    throw error.

Definition werewolfAction (gameId : Z) (target killerAddress : string)
    : M L Tx :=
  try_catch
    (killerAccount <- accounts_get killerAddress ;;
     match killerAccount with
     | None => throw (JsError "Killer account not found")
     | Some killerAccount =>
         contract_connect killerAccount ;;
         calldata <- CallData_compile
           [("game_id", ArgNumber gameId); ("target", ArgAddress target)] ;;
         retryTransaction
           (console_log (Text "Sending night action transaction...") ;;
            try_catch
              (addr <- this_contract_address ;;
               tx <- execute killerAccount (mkCall addr "night_action" calldata) V3 ;;
               console_log (Text "Transaction sent, waiting for confirmation...") ;;
               waitForTransaction (transaction_hash tx) ;;
               console_log (Text "Night action confirmed") ;;
               ret tx)
              night_action_catch)
           1 default_delayMs
     end)
    werewolfAction_catch.

Definition cupidAction (gameId : Z) (lover1 lover2 cupidAddress : string)
    : M L Tx :=
  try_catch
    (cupidAccount <- accounts_get cupidAddress ;;
     match cupidAccount with
     | None => throw (JsError "Cupid account not found")
     | Some cupidAccount =>
         contract_connect cupidAccount ;;
         calldata <- CallData_compile
           [("game_id", ArgNumber gameId); ("lover1", ArgAddress lover1);
            ("lover2", ArgAddress lover2)] ;;
         retryTransaction
           (addr <- this_contract_address ;;
            tx <- execute cupidAccount (mkCall addr "cupid_action" calldata) V3 ;;
            waitForTransaction (transaction_hash tx) ;;
            console_log (Text "Lovers paired successfully") ;;
            ret tx)
           default_maxAttempts default_delayMs
     end)
    (fun error => console_error "Error pairing lovers:" error ;; throw error).

Definition endVoting (gameId : Z) : M L Tx :=
  try_catch
    (firstAccount <- accounts_first ;;
     match firstAccount with
     | None => throw (JsError "No accounts available")
     | Some firstAccount =>
         contract_connect firstAccount ;;
         calldata <- CallData_compile [("game_id", ArgNumber gameId)] ;;
         addr <- this_contract_address ;;
         tx <- execute firstAccount (mkCall addr "end_voting" calldata) V3 ;;
         waitForTransaction (transaction_hash tx) ;;
         console_log (Text "Voting phase ended") ;;
         ret tx
     end)
    (fun error => console_error "Error ending voting phase:" error ;; throw error).

(** [callerAddress ? this.accounts.get(callerAddress)
                   : this.accounts.values().next().value]
    for an optional parameter: a missing argument and the empty string
    are both falsy. *)
Definition caller_or_first (callerAddress : option string)
    : M L (option Account) :=
  match callerAddress with
  | Some a => if truthy a then accounts_get a else accounts_first
  | None => accounts_first
  end.

Definition passNight (gameId : Z) (callerAddress : option string) : M L Tx :=
  try_catch
    (account <- caller_or_first callerAddress ;;
     match account with
     | None => throw (JsError "No account available for this operation")
     | Some account =>
         contract_connect account ;;
         calldata <- CallData_compile [("game_id", ArgNumber gameId)] ;;
         retryTransaction
           (console_log (Text "Transitioning from night to day phase...") ;;
            addr <- this_contract_address ;;
            tx <- execute account (mkCall addr "pass_night" calldata) V3 ;;
            console_log (Text "Transaction sent, waiting for confirmation...") ;;
            waitForTransaction (transaction_hash tx) ;;
            console_log (Text "Night phase ended, day phase started") ;;
            ret tx)
           default_maxAttempts default_delayMs
     end)
    (fun error =>
       console_error "Error transitioning to day phase:" error ;; throw error).

Definition passDay (gameId : Z) (callerAddress : option string) : M L Tx :=
  try_catch
    (account <- caller_or_first callerAddress ;;
     match account with
     | None => throw (JsError "No account available for this operation")
     | Some account =>
         contract_connect account ;;
         calldata <- CallData_compile [("game_id", ArgNumber gameId)] ;;
         retryTransaction
           (console_log (Text "Transitioning from day to night phase...") ;;
            addr <- this_contract_address ;;
            tx <- execute account (mkCall addr "pass_day" calldata) V3 ;;
            console_log (Text "Transaction sent, waiting for confirmation...") ;;
            waitForTransaction (transaction_hash tx) ;;
            console_log (Text "Day phase ended, night phase started") ;;
            ret tx)
           default_maxAttempts default_delayMs
     end)
    (fun error =>
       console_error "Error transitioning to night phase:" error ;; throw error).

Definition witchAction (gameId : Z) (target : string) (save poison : bool)
    (witchAddress : string) : M L Tx :=
  try_catch
    (witchAccount <- accounts_get witchAddress ;;
     match witchAccount with
     | None => throw (JsError "Witch account not found")
     | Some witchAccount =>
         contract_connect witchAccount ;;
         calldata <- CallData_compile
           [("game_id", ArgNumber gameId); ("target", ArgAddress target);
            ("save", ArgNumber (if save then 1 else 0));
            ("poison", ArgNumber (if poison then 1 else 0))] ;;
         retryTransaction
           (console_log (Text "Witch casting spell...") ;;
            addr <- this_contract_address ;;
            tx <- execute witchAccount (mkCall addr "witch_action" calldata) V3 ;;
            console_log (Text "Transaction sent, waiting for confirmation...") ;;
            waitForTransaction (transaction_hash tx) ;;
            console_log (Text "Witch spell confirmed") ;;
            ret tx)
           default_maxAttempts default_delayMs
     end)
    (fun error =>
       console_error "Error performing witch action:" error ;; throw error).

Definition hunterAction (gameId : Z) (target hunterAddress : string)
    : M L Tx :=
  try_catch
    (hunterAccount <- accounts_get hunterAddress ;;
     match hunterAccount with
     | None => throw (JsError "Hunter account not found")
     | Some hunterAccount =>
         contract_connect hunterAccount ;;
         calldata <- CallData_compile
           [("game_id", ArgNumber gameId); ("target", ArgAddress target)] ;;
         retryTransaction
           (console_log (Text "Hunter attempting revenge shot...") ;;
            addr <- this_contract_address ;;
            tx <- execute hunterAccount (mkCall addr "hunter_action" calldata) V3 ;;
            console_log (Text "Transaction sent, waiting for confirmation...") ;;
            waitForTransaction (transaction_hash tx) ;;
            console_log (Text "Hunter shot confirmed") ;;
            ret tx)
           default_maxAttempts default_delayMs
     end)
    (fun error =>
       console_error "Error performing hunter action:" error ;; throw error).

End Methods.

(** ** Observing a run *)

Section Observation.
Context {L : Type} `{LedgerBackend L}.

Definition failure_of {T} (r : Outcome T) : option JsValue :=
  match r with
  | Return _ => None
  | Throw e => Some e
  end.

(** An arbitrary operation against the ledger, made observable: every
    invocation leaves one [EvAttempt] in the trace. *)
Definition attempt_of {T} (f : L -> Outcome T * L) : M L T :=
  fun st =>
    let (r, l') := f (ledger st) in
    (r, mkSt (this st) l' (trace st ++ [EvAttempt (failure_of r)])).

(** The account that [passNight] and [passDay] act with. *)
Definition caller_account (callerAddress : option string) (g : Game)
    : option Account :=
  match callerAddress with
  | Some a => if truthy a then map_get a (accounts g) else map_first (accounts g)
  | None => map_first (accounts g)
  end.

(** A computation that leaves the fields of the object as they are. *)
Definition keeps_this {T} (c : M L T) : Prop :=
  forall st, this (snd (c st)) = this st.

(** The call submitted by [werewolfAction]. *)
Definition night_call (g : Game) (gameId : Z) (target : string) : Call :=
  mkCall (contract_address g) "night_action"
    [("game_id", ArgNumber gameId); ("target", ArgAddress target)].

End Observation.

Definition is_attempt (ev : Event) : bool :=
  match ev with EvAttempt _ => true | _ => false end.

Definition is_sleep (ev : Event) : bool :=
  match ev with EvSleep _ => true | _ => false end.

Definition is_execute (ev : Event) : bool :=
  match ev with EvExecute _ _ _ => true | _ => false end.

Definition count_attempts (tr : list Event) : nat :=
  List.length (filter is_attempt tr).

Definition count_sleeps (tr : list Event) : nat :=
  List.length (filter is_sleep tr).

Definition count_executes (tr : list Event) : nat :=
  List.length (filter is_execute tr).

(** What a run of failed attempts looks like from outside: between two
    consecutive attempts the "retrying" message and one sleep of [delayMs];
    after the last one, [closing]. *)
Fixpoint failed_attempts_trace (delayMs attempt : Z) (errs : list JsValue)
    (closing : list Event) : list Event :=
  match errs with
  | [] => []
  | [e] => EvAttempt (Some e) :: closing
  | e :: rest =>
      EvAttempt (Some e) :: EvLog (AttemptFailed attempt delayMs)
        :: EvSleep delayMs
        :: failed_attempts_trace delayMs (attempt + 1) rest closing
  end.

(** The "all attempts failed" diagnostic, skipped for a single attempt. *)
Definition closing_diagnostic (maxAttempts : Z) : list Event :=
  if 1 <? maxAttempts then [EvLog (AllAttemptsFailed maxAttempts)] else [].

(** [regs.forEach(r => game.addAccount(r.address, r.privateKey))]: the
    registrations in order, stopping at the first one that throws; the
    object keeps the accounts registered until then. *)
Fixpoint register_all `{StarknetJs} (regs : list (string * string)) (g : Game)
    : Outcome unit * Game :=
  match regs with
  | [] => (Return tt, g)
  | (a, k) :: rest =>
      match addAccount a k g with
      | Return g' => register_all rest g'
      | Throw e => (Throw e, g)
      end
  end.

(** Every account of the registry is one the library built for the
    address it is filed under. *)
Definition built_by_library `{StarknetJs} (m : AccountMap) : Prop :=
  Forall (fun kv => exists key, Account_new (fst kv) key = Return (snd kv)) m.

(** The fields compiled by [werewolfAction]. *)
Definition night_fields (gameId : Z) (target : string) : Calldata :=
  [("game_id", ArgNumber gameId); ("target", ArgAddress target)].

(** ** The error classifier of the design document *)

Inductive Classification : Type :=
| Transient
| Sentinel (reason : string)
| Fatal.

(** Modelled from the spec: the error classifier, which [src/bot.ts] does
    not have.  An ordered table of patterns is matched by substring against
    the error message, first match wins, anything unmatched is fatal. *)
Fixpoint classify_with (table : list (string * Classification))
    (message : string) : Classification :=
  match table with
  | [] => Fatal
  | (pattern, c) :: rest =>
      if includes pattern message then c else classify_with rest message
  end.

(** Modelled from the spec: the two domain sentinels and the transient
    conditions the classifier must recognise. *)
Definition domain_table : list (string * Classification) :=
  [ ("Target protected", Sentinel "target_protected");
    ("Game already exists", Sentinel "game_exists");
    ("timeout", Transient);
    ("unavailable", Transient);
    ("nonce", Transient) ].

(** Modelled from the spec: [classify] on a thrown value. *)
Definition classify (e : JsValue) : Classification :=
  match message_of e with
  | Some m => classify_with domain_table m
  | None => Fatal
  end.

(** The retry executor as the design document has it: an operation whose
    error is not transient is attempted once. *)
Definition ShortCircuitsOnNonTransient : Prop :=
  forall (L : Type) (B : LedgerBackend L) (T : Type)
         (f : L -> Outcome T * L) (maxAttempts delayMs : Z)
         (st : St L) (e : JsValue),
    1 < maxAttempts ->
    (forall l, exists l', f l = (Throw e, l')) ->
    classify e <> Transient ->
    count_attempts
      (trace (snd (retryTransaction (attempt_of f) maxAttempts delayMs st)))
    = (count_attempts (trace st) + 1)%nat.

(** ** The phase state machine of the design document *)

Inductive Phase : Type := Lobby | Night | Day | Voting | Ended.

(** A per-game phase kept by the object would be a function of its fields
    that starts at [Lobby], is untouched by registration and by votes, and
    follows the confirmed phase transitions. *)
Definition PhaseTracked : Prop :=
  exists phase_of : Game -> Z -> Phase,
    (forall addr gameId, phase_of (new_game addr) gameId = Lobby) /\
    (forall (S : StarknetJs) g a k g' gameId,
        addAccount a k g = Return g' ->
        phase_of g' gameId = phase_of g gameId) /\
    (forall (L : Type) (B : LedgerBackend L) (st st' : St L) gameId players a tx,
        phase_of (this st) gameId = Lobby ->
        startGame gameId players a st = (Return tx, st') ->
        phase_of (this st') gameId = Night) /\
    (forall (L : Type) (B : LedgerBackend L) (st st' : St L) gameId caller tx,
        phase_of (this st) gameId = Night ->
        passNight gameId caller st = (Return tx, st') ->
        phase_of (this st') gameId = Day) /\
    (forall (L : Type) (B : LedgerBackend L) (st st' : St L) gameId caller tx,
        phase_of (this st) gameId = Day ->
        passDay gameId caller st = (Return tx, st') ->
        phase_of (this st') gameId = Night) /\
    (forall (L : Type) (B : LedgerBackend L) (st st' : St L) gameId target a r,
        vote gameId target a st = (r, st') ->
        phase_of (this st') gameId = phase_of (this st) gameId).

(** ** A scripted ledger

    A ledger that answers [execute] and [waitForTransaction] from two
    scripts, confirming everything once a script is used up, and that
    knows a list of existing games.  Its library stands in for
    starknet.js on the inputs of the runs below: the account constructor
    lower-cases the letters of the address and makes a signer of a key
    that [BigInt] converts; [CallData.compile] refuses an address that is
    empty or a bare [0x], and a text that is not ASCII. *)
Module Scripted.

Definition char_between (lo hi : nat) (c : Ascii.ascii) : bool :=
  let n := Ascii.nat_of_ascii c in
  (Nat.leb lo n && Nat.leb n hi)%bool.

Definition is_digit (c : Ascii.ascii) : bool := char_between 48 57 c.

Definition is_hex_digit (c : Ascii.ascii) : bool :=
  is_digit c || char_between 97 102 c || char_between 65 70 c.

Definition is_octal_digit (c : Ascii.ascii) : bool := char_between 48 55 c.

Definition is_binary_digit (c : Ascii.ascii) : bool := char_between 48 49 c.

(** Tab, line feed, vertical tab, form feed, carriage return, space. *)
Definition is_space (c : Ascii.ascii) : bool :=
  char_between 9 13 c || char_between 32 32 c.

Fixpoint all_chars (p : Ascii.ascii -> bool) (s : string) : bool :=
  match s with
  | EmptyString => true
  | String c rest => p c && all_chars p rest
  end.

Definition digits_of (p : Ascii.ascii -> bool) (s : string) : bool :=
  truthy s && all_chars p s.

Definition is_decimal (s : string) : bool := digits_of is_digit s.

(** [0x], [0o] or [0b], in either case, and at least one digit. *)
Definition is_prefixed (lower upper : Ascii.ascii) (p : Ascii.ascii -> bool)
    (s : string) : bool :=
  match s with
  | String z (String x digits) =>
      Ascii.eqb z "0"%char && (Ascii.eqb x lower || Ascii.eqb x upper)
      && digits_of p digits
  | _ => false
  end.

Definition is_hex (s : string) : bool :=
  is_prefixed "x"%char "X"%char is_hex_digit s.

Fixpoint trim_left (s : string) : string :=
  match s with
  | String c rest => if is_space c then trim_left rest else s
  | EmptyString => EmptyString
  end.

Fixpoint trim_right (s : string) : string :=
  match s with
  | String c rest =>
      match trim_right rest with
      | EmptyString => if is_space c then EmptyString else String c EmptyString
      | rest' => String c rest'
      end
  | EmptyString => EmptyString
  end.

(** The strings that [BigInt] converts, among those written in ASCII:
    spaces around nothing, around a decimal number with or without a sign,
    or around a number in base 16, 8 or 2 with its prefix. *)
Definition is_bigint_literal (s : string) : bool :=
  let t := trim_right (trim_left s) in
  match t with
  | EmptyString => true
  | String c rest =>
      is_decimal t
      || ((Ascii.eqb c "+"%char || Ascii.eqb c "-"%char) && is_decimal rest)
      || is_hex t
      || is_prefixed "o"%char "O"%char is_octal_digit t
      || is_prefixed "b"%char "B"%char is_binary_digit t
  end.

Definition lower_char (c : Ascii.ascii) : Ascii.ascii :=
  if char_between 65 90 c
  then Ascii.ascii_of_nat (Ascii.nat_of_ascii c + 32)
  else c.

Fixpoint toLowerCase (s : string) : string :=
  match s with
  | EmptyString => EmptyString
  | String c rest => String (lower_char c) (toLowerCase rest)
  end.

Definition not_a_bigint (s : string) : JsValue :=
  JsError (String.append "Cannot convert " (String.append s " to a BigInt")).

Definition new_account (addr key : string) : Outcome Account :=
  if is_bigint_literal key
  then Return (mkAccount (toLowerCase addr) key)
  else Throw (not_a_bigint key).

(** What turning a string into a field element throws: the empty string
    and a bare [0x] are no number, and a text must be ASCII. *)
Definition address_refused (a : string) : option JsValue :=
  if negb (truthy a) then Some (not_a_bigint "0x")
  else if String.eqb a "0x" || String.eqb a "0X" then Some (not_a_bigint a)
  else if is_hex a || is_decimal a || all_chars (char_between 0 127) a
  then None
  else Some (JsError (String.append a " is not an ASCII string")).

Fixpoint first_refused (l : list string) : option JsValue :=
  match l with
  | [] => None
  | a :: rest =>
      match address_refused a with
      | Some e => Some e
      | None => first_refused rest
      end
  end.

Fixpoint compile_throws (fields : Calldata) : option JsValue :=
  match fields with
  | [] => None
  | (_, ArgNumber _) :: rest => compile_throws rest
  | (_, ArgAddress a) :: rest =>
      match address_refused a with
      | Some e => Some e
      | None => compile_throws rest
      end
  | (_, ArgAddresses l) :: rest =>
      match first_refused l with
      | Some e => Some e
      | None => compile_throws rest
      end
  end.

Definition library : StarknetJs :=
  {| Account_new := new_account;
     CallData_compile_throws := compile_throws |}.

Record Ledger : Type := mk {
  exec_script : list (Outcome Tx);
  wait_script : list (Outcome unit);
  games : list (Z * GameState)
}.

Definition confirmed_tx : Tx := {| transaction_hash := "0x7e57" |}.

Definition exec (a : Account) (c : Call) (v : TxVersion) (l : Ledger)
    : Outcome Tx * Ledger :=
  match exec_script l with
  | [] => (Return confirmed_tx, l)
  | r :: rest => (r, mk rest (wait_script l) (games l))
  end.

Definition wait (hash : string) (l : Ledger) : Outcome unit * Ledger :=
  match wait_script l with
  | [] => (Return tt, l)
  | r :: rest => (r, mk (exec_script l) rest (games l))
  end.

Fixpoint find_game (gameId : Z) (gs : list (Z * GameState)) : option GameState :=
  match gs with
  | [] => None
  | (k, s) :: rest => if Z.eqb gameId k then Some s else find_game gameId rest
  end.

Definition query (gameId : Z) (l : Ledger) : Outcome GameState * Ledger :=
  match find_game gameId (games l) with
  | Some s => (Return s, l)
  | None => (Throw (JsError "Game not found"), l)
  end.

#[global] Instance backend : LedgerBackend Ledger :=
  {| starknet_js := library;
     account_execute := exec;
     provider_waitForTransaction := wait;
     contract_get_game_state := query |}.

Definition contract : string := "0x02f5c289".
Definition alice : string := "0xa11ce".
Definition bob : string := "0xb0b".

Definition alice_account : Account := mkAccount alice "0x1".
Definition bob_account : Account := mkAccount bob "0x2".

(** A game object with [alice] then [bob] registered. *)
Definition two_players : Game :=
  snd (@register_all library [(alice, "0x1"); (bob, "0x2")] (new_game contract)).

Definition start (g : Game) (l : Ledger) : St Ledger := mkSt g l [].

Definition quiet : Ledger := mk [] [] [].

End Scripted.

(** ** More vocabulary for runs *)

Section Runs.
Context {L : Type} `{LedgerBackend L}.

(** [f], started on ledger [l], fails [k] times in a row and then returns
    [v], leaving the ledger at [l']. *)
Fixpoint recovers_after {T} (f : L -> Outcome T * L) (k : nat) (l : L)
    (v : T) (l' : L) : Prop :=
  match k with
  | O => f l = (Return v, l')
  | S k' => exists e l1, f l = (Throw e, l1) /\ recovers_after f k' l1 v l'
  end.

End Runs.

(** Every sleep among the events lasts [ms]. *)
Definition sleeps_last (ms : Z) (ev : Event) : Prop :=
  match ev with
  | EvSleep d => d = ms
  | _ => True
  end.

(** ** Specifications of computations *)

(** [g] has the registry and the contract address of [g0]; the connected
    signer is free. *)
Definition same_registry (g0 g : Game) : Prop :=
  accounts g = accounts g0 /\ contract_address g = contract_address g0.

(** What a method may leave in the trace: submissions of [call] only,
    signed by [signer], as version 3; sleeps of the default delay;
    [console.error] lines under its own [label]; and nothing that only
    the observation of a bare operation writes. *)
Definition method_event (signer : option Account) (call : Call)
    (label : string) (ev : Event) : Prop :=
  match ev with
  | EvExecute s c v => signer = Some s /\ c = call /\ v = V3
  | EvSleep ms => ms = default_delayMs
  | EvConsoleError l _ => l = label
  | EvAttempt _ => False
  | EvLog _ | EvWait _ | EvQuery _ => True
  end.

Section Specs.
Context {L : Type} `{LedgerBackend L}.

(** [c], run on an object satisfying [I], keeps [I], adds to the trace only
    events satisfying [P], and returns only values satisfying [Q]. *)
Definition spec (I : Game -> Prop) (P : Event -> Prop) {T} (c : M L T)
    (Q : T -> Prop) : Prop :=
  forall st,
    I (this st) ->
    I (this (snd (c st)))
    /\ (exists evs, trace (snd (c st)) = trace st ++ evs /\ Forall P evs)
    /\ (forall v, fst (c st) = Return v -> Q v).

(** The ledger accepted [tx] and then confirmed it, leaving [l']. *)
Definition confirmed_by_ledger (tx : Tx) (l' : L) : Prop :=
  exists a c l0 l1,
    account_execute a c V3 l0 = (Return tx, l1)
    /\ provider_waitForTransaction (transaction_hash tx) l1 = (Return tt, l').

End Specs.

Section RunVocabulary.
Context {L : Type} `{LedgerBackend L}.

(** Running [c] from [st] adds to the trace only events satisfying [P]. *)
Definition run_adds {T} (c : M L T) (st : St L) (P : Event -> Prop) : Prop :=
  exists evs, trace (snd (c st)) = trace st ++ evs /\ Forall P evs.

(** From any state, [c] calls [execute] at most [x] more times and sleeps
    at most [s] more times. *)
Definition adds_at_most (x s : nat) {T} (c : M L T) : Prop :=
  forall st,
    (count_executes (trace (snd (c st))) <= count_executes (trace st) + x)%nat
    /\ (count_sleeps (trace (snd (c st))) <= count_sleeps (trace st) + s)%nat.

End RunVocabulary.

Section Returns.
Context {L : Type} `{LedgerBackend L}.

(** [c] returns only values [v], on ledgers [l], such that [Q v l]. *)
Definition returns_only {T} (Q : T -> L -> Prop) (c : M L T) : Prop :=
  forall st v st', c st = (Return v, st') -> Q v (ledger st').

(** The [try] block of [werewolfAction], without the [catch] around it. *)
Definition werewolfAction_try (gameId : Z) (target killerAddress : string)
    : M L Tx :=
  killerAccount <- accounts_get killerAddress ;;
  match killerAccount with
  | None => throw (JsError "Killer account not found")
  | Some killerAccount =>
      contract_connect killerAccount ;;
      calldata <- CallData_compile
        [("game_id", ArgNumber gameId); ("target", ArgAddress target)] ;;
      retryTransaction
        (console_log (Text "Sending night action transaction...") ;;
         try_catch
           (addr <- this_contract_address ;;
            tx <- execute killerAccount (mkCall addr "night_action" calldata) V3 ;;
            console_log (Text "Transaction sent, waiting for confirmation...") ;;
            waitForTransaction (transaction_hash tx) ;;
            console_log (Text "Night action confirmed") ;;
            ret tx)
           night_action_catch)
        1 default_delayMs
  end.

End Returns.

(** ** The scenario driver [main] *)

(** What [main] reads from outside: the environment variables
    [PLAYER<i>_ADDRESS] and [PLAYER<i>_PRIVATE_KEY], what loading
    [./abi_actions.json] in the constructor throws when it throws, and the
    game identifier drawn by [Math.floor(Math.random() * 10000)]. *)
Record Env : Type := mkEnv {
  player_address : nat -> option string;
  player_private_key : nat -> option string;
  abi_failure : option JsValue;
  random_gameId : Z
}.

(** A number in a template literal or as an argument of [console.log]. *)
Definition string_of_index (i : nat) : string :=
  NilZero.string_of_uint (Nat.to_uint i).

Definition string_of_number (n : Z) : string :=
  NilZero.string_of_int (Z.to_int n).

(** Both variables of player [i] are set and not empty. *)
Definition player_set (env : Env) (i : nat) : bool :=
  match player_address env i, player_private_key env i with
  | Some a, Some k => truthy a && truthy k
  | _, _ => false
  end.

Definition missing_player (i : nat) : JsValue :=
  JsError (String.append "Missing environment variables for player "
             (string_of_index i)).

(** The callback of [Array.from({length: 8}, ...)], run for the indices
    [i], [i + 1], ... ([count] of them), stopping at the first throw:
    [if (!address || !privateKey) throw ...]. *)
Fixpoint read_players (env : Env) (i count : nat)
    : Outcome (list (string * string)) :=
  match count with
  | O => Return []
  | S count' =>
      match player_address env i, player_private_key env i with
      | Some a, Some k =>
          if negb (truthy a) || negb (truthy k) then Throw (missing_player i)
          else
            match read_players env (S i) count' with
            | Return rest => Return ((a, k) :: rest)
            | Throw e => Throw e
            end
      | _, _ => Throw (missing_player i)
      end
  end.

Definition SHORT_DELAY : Z := 1000.
Definition PHASE_DELAY : Z := 2000.

Definition main_contract_address : string :=
  "0x02f5c289133869e42ddf01b1c6dbf6b17d06f19ebf2105b118ac892cb3a1b8c9".

Section Driver.
Context {L : Type} `{LedgerBackend L}.

(** [new StarkWolfGame(contractAddress)]: the object exists once the ABI
    is loaded. *)
Definition construct (contractAddress : string) (abi : option JsValue)
    : M L unit :=
  fun st =>
    match abi with
    | Some e => (Throw e, st)
    | None => (Return tt, mkSt (new_game contractAddress) (ledger st) (trace st))
    end.

(** A pure computation that may throw. *)
Definition lift_outcome {T} (r : Outcome T) : M L T := fun st => (r, st).

(** [accounts.forEach(account => game.addAccount(...))] *)
Definition add_accounts (regs : list (string * string)) : M L unit :=
  fun st =>
    let (r, g) := register_all regs (this st) in
    (r, mkSt g (ledger st) (trace st)).

(** The [catch] around the call of [startGame] in [main]. *)
Definition start_catch (error : JsValue) : M L unit :=
  match error with
  | JsUndefined =>
      throw (JsError "Cannot read properties of undefined (reading 'message')")
  | _ =>
      if message_includes error "Game started" then
        console_log
          (Text "A game with this ID already exists. Continuing with existing game...")
      else throw error
  end.

(** The start of the game, tolerant of a game that has started. *)
Definition scenario_start (gameId : Z) (players : list string) : M L unit :=
  let werewolf := nth 0 players "" in
  console_log (Text "Starting game...") ;;
  try_catch
    (startGame gameId players werewolf ;;
     console_log
       (Text (String.append "Game started successfully with ID: "
                (string_of_number gameId))))
    start_catch.

(** Everything [main] does once the game is started. *)
Definition scenario_play (gameId : Z) (players : list string) : M L unit :=
  let werewolf := nth 0 players "" in
  let witch := nth 1 players "" in
  let guard := nth 2 players "" in
  let seer := nth 3 players "" in
  let hunter := nth 4 players "" in
  let cupid := nth 5 players "" in
  let villager1 := nth 6 players "" in
  let villager2 := nth 7 players "" in
  console_log (Text "First night actions...") ;;
  console_log (Text "Cupid pairing lovers...") ;;
  cupidAction gameId villager1 seer cupid ;;
  sleep SHORT_DELAY ;;
  console_log (Text "Guard protecting seer...") ;;
  werewolfAction gameId seer guard ;;
  sleep SHORT_DELAY ;;
  console_log (Text "Transitioning to day phase...") ;;
  passNight gameId None ;;
  sleep PHASE_DELAY ;;
  console_log (Text "Day voting phase...") ;;
  vote gameId hunter werewolf ;;
  sleep SHORT_DELAY ;;
  vote gameId hunter witch ;;
  sleep SHORT_DELAY ;;
  vote gameId hunter guard ;;
  sleep SHORT_DELAY ;;
  vote gameId werewolf cupid ;;
  sleep SHORT_DELAY ;;
  console_log (Text "Ending voting phase...") ;;
  endVoting gameId ;;
  sleep PHASE_DELAY ;;
  console_log (Text "Hunter's revenge shot...") ;;
  hunterAction gameId cupid hunter ;;
  sleep PHASE_DELAY ;;
  console_log (Text "Transitioning to night phase...") ;;
  passDay gameId None ;;
  sleep PHASE_DELAY ;;
  console_log (Text "Second night actions...") ;;
  console_log (Text "Guard protecting witch...") ;;
  werewolfAction gameId witch guard ;;
  sleep SHORT_DELAY ;;
  console_log (Text "Werewolf killing villager2...") ;;
  werewolfAction gameId villager2 werewolf ;;
  sleep SHORT_DELAY ;;
  console_log (Text "Witch saving villager2...") ;;
  witchAction gameId villager2 true false witch ;;
  sleep SHORT_DELAY ;;
  console_log (Text "Transitioning to day phase...") ;;
  passNight gameId None ;;
  sleep PHASE_DELAY ;;
  console_log (Text "Second day voting phase...") ;;
  vote gameId guard werewolf ;;
  sleep SHORT_DELAY ;;
  vote gameId guard witch ;;
  sleep SHORT_DELAY ;;
  vote gameId villager1 guard ;;
  sleep SHORT_DELAY ;;
  vote gameId guard villager1 ;;
  sleep SHORT_DELAY ;;
  console_log (Text "Ending voting phase...") ;;
  endVoting gameId ;;
  sleep PHASE_DELAY ;;
  console_log (Text "Transitioning to night phase...") ;;
  passDay gameId None ;;
  sleep PHASE_DELAY ;;
  console_log (Text "Third night actions...") ;;
  console_log (Text "Werewolf killing villager2...") ;;
  werewolfAction gameId villager2 werewolf ;;
  sleep SHORT_DELAY ;;
  console_log (Text "Transitioning to day phase...") ;;
  passNight gameId None ;;
  sleep PHASE_DELAY ;;
  console_log (Text "Third day voting phase...") ;;
  vote gameId witch werewolf ;;
  sleep SHORT_DELAY ;;
  vote gameId werewolf witch ;;
  sleep SHORT_DELAY ;;
  vote gameId witch villager1 ;;
  sleep SHORT_DELAY ;;
  console_log (Text "Ending voting phase...") ;;
  endVoting gameId ;;
  sleep PHASE_DELAY ;;
  console_log (Text "Transitioning to night phase...") ;;
  passDay gameId None ;;
  sleep PHASE_DELAY ;;
  console_log (Text "Fourth night actions...") ;;
  console_log (Text "Werewolf killing villager1...") ;;
  werewolfAction gameId villager1 werewolf ;;
  sleep SHORT_DELAY ;;
  console_log (Text "Transitioning to day phase...") ;;
  passNight gameId None ;;
  sleep PHASE_DELAY ;;
  console_log (Text "Game completed - werewolves win!") ;;
  console_log (Text "Only the werewolf remains alive.") ;;
  ret tt.

(** [main]: set the game up from the environment, then play the scenario;
    both [try] blocks end in a [catch] that only logs. *)
Definition main (env : Env) : M L unit :=
  try_catch
    (console_log (Text (String.append "Contract address: " main_contract_address)) ;;
     construct main_contract_address (abi_failure env) ;;
     accounts <- lift_outcome (read_players env 0 8) ;;
     add_accounts accounts ;;
     let players := map fst accounts in
     let gameId := random_gameId env in
     console_log
       (Text (String.append "Starting game with ID: " (string_of_number gameId))) ;;
     try_catch
       (scenario_start gameId players ;;
        scenario_play gameId players)
       (fun error =>
          console_error "An error occurred during game execution:" error))
    (fun error => console_error "Failed to initialize game:" error).

End Driver.

(** A line written by one of the two [catch] clauses of [main]. *)
Definition is_main_error (ev : Event) : bool :=
  match ev with
  | EvConsoleError label _ =>
      String.eqb label "An error occurred during game execution:"
      || String.eqb label "Failed to initialize game:"
  | _ => false
  end.

(** No [console.error] at all. *)
Definition no_error_line (ev : Event) : Prop :=
  match ev with
  | EvConsoleError _ _ => False
  | _ => True
  end.

Section Stops.
Context {L : Type} `{LedgerBackend L}.

(** [c] stops at its first error: when it returns it has written no
    [console.error] line; when it throws, the error it throws is in the one
    [console.error] line it wrote, a line of a method and not of [main],
    and that line is the last thing it did. *)
Definition stops_on_error {T} (c : M L T) : Prop :=
  forall st,
    exists evs,
      trace (snd (c st)) = trace st ++ evs
      /\ match fst (c st) with
         | Return _ => Forall no_error_line evs
         | Throw e =>
             exists pre label,
               evs = pre ++ [EvConsoleError label e]
               /\ is_main_error (EvConsoleError label e) = false
               /\ Forall no_error_line pre
         end.

(** Among the events [evs], at most one line of a [catch] clause of
    [main], and nothing after it. *)
Definition failure_line_last (evs : list Event) : Prop :=
  Forall (fun ev => is_main_error ev = false) evs
  \/ exists pre ev,
       evs = pre ++ [ev]
       /\ is_main_error ev = true
       /\ Forall (fun ev => is_main_error ev = false) pre.

(** [c] writes a failure line of [main] only as its last event, and only
    when it returns. *)
Definition reports {T} (c : M L T) : Prop :=
  forall st,
    exists evs,
      trace (snd (c st)) = trace st ++ evs
      /\ match fst (c st) with
         | Return _ => failure_line_last evs
         | Throw _ => Forall (fun ev => is_main_error ev = false) evs
         end.

End Stops.

Section Throws.
Context {L : Type} `{LedgerBackend L}.

(** [c] throws only errors [e] such that [Q e]. *)
Definition throws_only {T} (Q : JsValue -> Prop) (c : M L T) : Prop :=
  forall st e st', c st = (Throw e, st') -> Q e.

(** [e] is an error with which the ledger rejected a submission or the
    wait for a confirmation. *)
Definition ledger_threw (e : JsValue) : Prop :=
  (exists a c v l l', account_execute a c v l = (@Throw Tx e, l'))
  \/ (exists h l l', provider_waitForTransaction h l = (@Throw unit e, l')).

(** [e] is what [CallData.compile] threw on [fields]. *)
Definition compile_threw (fields : Calldata) (e : JsValue) : Prop :=
  CallData_compile_throws fields = Some e.

(** What a method may throw: its own account-not-found error, what
    [CallData.compile] threw on its arguments, or what the ledger threw. *)
Definition method_threw (missing : string) (fields : Calldata) (e : JsValue)
    : Prop :=
  e = JsError missing \/ compile_threw fields e \/ ledger_threw e.

End Throws.

(** ** The scenario on a ledger that accepts everything *)

(** The submissions in a trace, oldest first: the account that signs and
    the call. *)
Fixpoint submissions (tr : list Event) : list (Account * Call) :=
  match tr with
  | [] => []
  | EvExecute s c _ :: rest => (s, c) :: submissions rest
  | _ :: rest => submissions rest
  end.

(** The addresses of the eight players, as [main] reads them. *)
Definition env_players (env : Env) : list string :=
  map (fun i => match player_address env i with
                | Some a => a
                | None => ""
                end)
      (seq 0 8).

(** The eight registrations of [main]: the address and the key of each
    player. *)
Definition env_registrations (env : Env) : list (string * string) :=
  map (fun i => (match player_address env i with
                 | Some a => a
                 | None => ""
                 end,
                 match player_private_key env i with
                 | Some k => k
                 | None => ""
                 end))
      (seq 0 8).

(** The calls of the scenario of [main], in order, each with the address
    of the player it is made for.  [endVoting], [passNight] and [passDay]
    fall to the first player. *)
Definition scenario_calls (gameId : Z) (players : list string)
    : list (string * Call) :=
  let werewolf := nth 0 players "" in
  let witch := nth 1 players "" in
  let guard := nth 2 players "" in
  let seer := nth 3 players "" in
  let hunter := nth 4 players "" in
  let cupid := nth 5 players "" in
  let villager1 := nth 6 players "" in
  let villager2 := nth 7 players "" in
  let call name data :=
    mkCall main_contract_address name (("game_id", ArgNumber gameId) :: data) in
  let kill target := call "night_action" [("target", ArgAddress target)] in
  let ballot target := call "vote" [("target", ArgAddress target)] in
  [ (werewolf, call "start_game" [("players", ArgAddresses players)]);
    (cupid, call "cupid_action"
              [("lover1", ArgAddress villager1); ("lover2", ArgAddress seer)]);
    (guard, kill seer);
    (werewolf, call "pass_night" []);
    (werewolf, ballot hunter);
    (witch, ballot hunter);
    (guard, ballot hunter);
    (cupid, ballot werewolf);
    (werewolf, call "end_voting" []);
    (hunter, call "hunter_action" [("target", ArgAddress cupid)]);
    (werewolf, call "pass_day" []);
    (guard, kill witch);
    (werewolf, kill villager2);
    (witch, call "witch_action"
              [("target", ArgAddress villager2); ("save", ArgNumber 1);
               ("poison", ArgNumber 0)]);
    (werewolf, call "pass_night" []);
    (werewolf, ballot guard);
    (witch, ballot guard);
    (guard, ballot villager1);
    (villager1, ballot guard);
    (werewolf, call "end_voting" []);
    (werewolf, call "pass_day" []);
    (werewolf, kill villager2);
    (werewolf, call "pass_night" []);
    (werewolf, ballot witch);
    (witch, ballot werewolf);
    (villager1, ballot witch);
    (werewolf, call "end_voting" []);
    (werewolf, call "pass_day" []);
    (werewolf, kill villager1);
    (werewolf, call "pass_night" []) ].

Section Accepting.
Context {L : Type} `{LedgerBackend L}.

(** The ledger accepts every submission and confirms every transaction. *)
Definition always_confirms : Prop :=
  (forall a c v l, exists tx l', account_execute a c v l = (Return tx, l'))
  /\ (forall h l, exists l', provider_waitForTransaction h l = (Return tt, l')).

(** The calls [calls], each signed by the account that [g0] has for its
    address. *)
Definition signed_in (g0 : Game) (calls : list (string * Call))
    (signed : list (Account * Call)) : Prop :=
  Forall2 (fun ac sc => map_get (fst ac) (accounts g0) = Some (fst sc)
                        /\ snd sc = snd ac)
          calls signed.

(** On an object with the registry of [g0], [c] returns a value satisfying
    [Q], keeps the registry, and submits exactly [calls], each signed by
    the account registered for its address. *)
Definition submits (g0 : Game) (calls : list (string * Call)) {T} (c : M L T)
    (Q : T -> Prop) : Prop :=
  forall st,
    same_registry g0 (this st) ->
    exists v st' signed,
      c st = (Return v, st')
      /\ same_registry g0 (this st')
      /\ submissions (trace st') = submissions (trace st) ++ signed
      /\ signed_in g0 calls signed
      /\ Q v.

(** The library compiles the calldata of every call in [calls]. *)
Definition compiles_all (calls : list (string * Call)) : Prop :=
  Forall (fun ac => CallData_compile_throws (calldata (snd ac)) = None) calls.

End Accepting.

(** A ledger with no state that accepts everything and knows no game,
    with the library of the scripted runs. *)
Module Accepting.

Definition tx : Tx := {| transaction_hash := "0xacce" |}.

#[global] Instance backend : LedgerBackend unit :=
  {| starknet_js := Scripted.library;
     account_execute := fun _ _ _ l => (Return tx, l);
     provider_waitForTransaction := fun _ l => (Return tt, l);
     contract_get_game_state := fun _ l => (Throw (JsError "Game not found"), l) |}.

(** Eight players, all set. *)
Definition env : Env :=
  {| player_address := fun i => Some (String.append "0xa" (string_of_index i));
     player_private_key := fun i => Some (String.append "0x1" (string_of_index i));
     abi_failure := None;
     random_gameId := 4242 |}.

Definition start : St unit := mkSt (new_game "") tt [].

End Accepting.

(** * Properties *)

(** ** The embedding at work *)

Example includes_inside :
  includes "Target protected" "Execution failed: Target protected by guard" = true.
Proof. reflexivity. Qed.

Example includes_absent : includes "Target protected" "Target is safe" = false.
Proof. reflexivity. Qed.

Example two_players_registered :
  @register_all Scripted.library
    [(Scripted.alice, "0x1"); (Scripted.bob, "0x2")] (new_game Scripted.contract)
  = (Return tt, Scripted.two_players)
  /\ accounts Scripted.two_players
     = [(Scripted.alice, Scripted.alice_account);
        (Scripted.bob, Scripted.bob_account)].
Proof. split; reflexivity. Qed.

(** Registering an address again keeps its place in the [Map]. *)
Example map_set_keeps_position :
  @addAccount Scripted.library Scripted.alice "12" Scripted.two_players
  = Return {| contract_address := Scripted.contract;
              connected := None;
              accounts := [(Scripted.alice, mkAccount Scripted.alice "12");
                           (Scripted.bob, Scripted.bob_account)] |}.
Proof. reflexivity. Qed.

(** The account is filed under the address as given; the library holds
    it in lower case. *)
Example addAccount_files_under_the_given_address :
  @addAccount Scripted.library "0xA11CE" "0x1" (new_game Scripted.contract)
  = Return {| contract_address := Scripted.contract;
              connected := None;
              accounts := [("0xA11CE", mkAccount "0xa11ce" "0x1")] |}.
Proof. reflexivity. Qed.

(** A key that is no number: the constructor throws and nothing is
    registered. *)
Example addAccount_key_refused :
  @addAccount Scripted.library Scripted.alice "key-a" (new_game Scripted.contract)
  = Throw (JsError "Cannot convert key-a to a BigInt")
  /\ @register_all Scripted.library
       [(Scripted.alice, "0x1"); (Scripted.bob, "key-b"); ("0xca401", "0x3")]
       (new_game Scripted.contract)
     = (Throw (JsError "Cannot convert key-b to a BigInt"),
        {| contract_address := Scripted.contract;
           connected := None;
           accounts := [(Scripted.alice, Scripted.alice_account)] |}).
Proof. split; reflexivity. Qed.

(** Two failed submissions, whatever was thrown, then a confirmed one. *)
Example vote_retries_until_confirmed :
  let st := Scripted.start Scripted.two_players
              (Scripted.mk [Throw (JsError "timeout"); Throw (JsObject None)] [] []) in
  fst (vote 1 Scripted.bob Scripted.alice st) = Return Scripted.confirmed_tx
  /\ count_executes (trace (snd (vote 1 Scripted.bob Scripted.alice st))) = 3%nat
  /\ count_sleeps (trace (snd (vote 1 Scripted.bob Scripted.alice st))) = 2%nat.
Proof. vm_compute. repeat split. Qed.

(** A single attempt: no "retrying" line, no sleep, no closing line. *)
Example single_attempt_is_silent :
  retryTransaction
    (attempt_of (fun l : Scripted.Ledger => (@Throw Tx (JsError "boom"), l)))
    1 2000 (Scripted.start Scripted.two_players Scripted.quiet)
  = (Throw (JsError "boom"),
     mkSt Scripted.two_players Scripted.quiet [EvAttempt (Some (JsError "boom"))]).
Proof. reflexivity. Qed.

(** A night action rejected for another reason is thrown to the caller. *)
Example werewolfAction_other_rejection :
  let st := Scripted.start Scripted.two_players
              (Scripted.mk [Throw (JsError "Not night phase")] [] []) in
  fst (werewolfAction 7 Scripted.bob Scripted.alice st)
  = Throw (JsError "Not night phase")
  /\ count_executes (trace (snd (werewolfAction 7 Scripted.bob Scripted.alice st)))
     = 1%nat.
Proof. vm_compute. split; reflexivity. Qed.

(** ** The registry *)

Lemma map_get_set_same (k : string) (v : Account) (m : AccountMap) :
  map_get k (map_set k v m) = Some v.
Proof.
  induction m as [|[k' v'] m IH]; simpl.
  - now rewrite String.eqb_refl.
  - destruct (String.eqb k k') eqn:E; simpl; rewrite E; auto.
Qed.

Lemma first_key_set (k : string) (v : Account) (k0 : string) (v0 : Account)
    (rest : AccountMap) :
  exists v1 rest1, map_set k v ((k0, v0) :: rest) = (k0, v1) :: rest1.
Proof.
  simpl. destruct (String.eqb k k0); eauto.
Qed.

Section Registrations.
Context `{StarknetJs}.

Lemma addAccount_returns (a k : string) (g g' : Game) :
  addAccount a k g = Return g' ->
  exists acct, Account_new a k = Return acct /\ g' = accounts_set a acct g.
Proof.
  unfold addAccount. destruct (Account_new a k) as [acct|e]; intros E.
  - inversion E; subst. eauto.
  - discriminate.
Qed.

Lemma addAccount_throws (a k : string) (g : Game) (e : JsValue) :
  addAccount a k g = Throw e -> Account_new a k = Throw e.
Proof.
  unfold addAccount. destruct (Account_new a k) as [acct|e']; intros E.
  - discriminate.
  - inversion E; subst. reflexivity.
Qed.

Lemma built_by_library_set (a : string) (acct : Account) (key : string)
    (m : AccountMap) :
  Account_new a key = Return acct ->
  built_by_library m -> built_by_library (map_set a acct m).
Proof.
  intros Hnew. unfold built_by_library.
  induction m as [|[k' v'] m IH]; simpl; intros Hm.
  - constructor; [simpl; eauto|constructor].
  - inversion Hm as [|? ? Hhd Htl]; subst; simpl in *.
    destruct (String.eqb a k') eqn:E.
    + apply String.eqb_eq in E; subst. constructor; simpl; eauto.
    + constructor; auto.
Qed.

Lemma register_all_built (regs : list (string * string)) (g : Game) :
  built_by_library (accounts g) ->
  built_by_library (accounts (snd (register_all regs g))).
Proof.
  revert g. induction regs as [|[a k] regs IH]; intros g Hg; simpl; auto.
  destruct (addAccount a k g) as [g'|e] eqn:E; simpl; auto.
  destruct (addAccount_returns _ _ _ _ E) as (acct & Hnew & ->).
  apply IH. simpl. now apply (built_by_library_set a acct k).
Qed.

(** The first key of the registry stays first through any registrations. *)
Lemma register_all_first_key (regs : list (string * string)) (g : Game)
    (k0 : string) (v0 : Account) (rest : AccountMap) :
  accounts g = (k0, v0) :: rest ->
  exists v1 rest1, accounts (snd (register_all regs g)) = (k0, v1) :: rest1.
Proof.
  revert g v0 rest.
  induction regs as [|[a k] regs IH]; intros g v0 rest Hg; simpl.
  - eauto.
  - destruct (addAccount a k g) as [g'|e] eqn:E; simpl; [|eauto].
    destruct (addAccount_returns _ _ _ _ E) as (acct & _ & ->).
    destruct (first_key_set a acct k0 v0 rest) as (v1 & rest1 & E1).
    apply (IH _ v1 rest1).
    simpl. now rewrite Hg.
Qed.

End Registrations.

Lemma contract_address_connect (a : Account) (g : Game) :
  contract_address (connect a g) = contract_address g.
Proof. reflexivity. Qed.

Lemma accounts_connect (a : Account) (g : Game) :
  accounts (connect a g) = accounts g.
Proof. reflexivity. Qed.

Lemma connect_idempotent (a : Account) (g : Game) :
  connect a (connect a g) = connect a g.
Proof. reflexivity. Qed.

(** ** The retry loop *)

Section RetryFacts.
Context {L : Type} `{LedgerBackend L}.

(** When the fuel of [retry_loop] is spent, the loop condition is false:
    the fuel never cuts a run short. *)
Lemma retry_loop_fuel_exact (maxAttempts attempt : Z) :
  Z.to_nat (maxAttempts + 1 - attempt) = O ->
  (attempt <=? maxAttempts) = false.
Proof. intros E. apply Z.leb_gt. lia. Qed.

(** With that fuel, [retry_loop] satisfies the equation of the loop. *)
Lemma retry_loop_unfold {T} (op : M L T) (N d attempt : Z) (e : JsValue)
    (st : St L) :
  retry_loop op N d (Z.to_nat (N + 1 - attempt)) attempt e st =
  if attempt <=? N then
    try_catch op
      (fun error =>
         (if attempt <? N then
            console_log (AttemptFailed attempt d) ;; sleep d
          else if 1 <? N then console_log (AllAttemptsFailed N)
          else ret tt) ;;
         retry_loop op N d (Z.to_nat (N + 1 - (attempt + 1))) (attempt + 1) error)
      st
  else throw e st.
Proof.
  destruct (Z.to_nat (N + 1 - attempt)) as [|fuel] eqn:E.
  - now rewrite (retry_loop_fuel_exact N attempt E).
  - replace (Z.to_nat (N + 1 - (attempt + 1))) with fuel by lia.
    simpl. now destruct (attempt <=? N).
Qed.

Lemma last_cons_default {A} (a d : A) (l : list A) :
  last (a :: l) d = last l a.
Proof.
  revert a d. induction l as [|b l IH]; intros a d; [reflexivity|].
  change (last (a :: b :: l) d) with (last (b :: l) d).
  rewrite IH. symmetry. apply IH.
Qed.

Lemma attempt_of_eq {T} (f : L -> Outcome T * L) (st : St L)
    (r : Outcome T) (l' : L) :
  f (ledger st) = (r, l') ->
  attempt_of f st
  = (r, mkSt (this st) l' (trace st ++ [EvAttempt (failure_of r)])).
Proof. intros E. unfold attempt_of. now rewrite E. Qed.

(** An operation that fails at every invocation is attempted once per
    remaining value of [attempt]; the error thrown is the last one. *)
Lemma retry_loop_all_fail {T} (f : L -> Outcome T * L) (N d : Z)
    (Hfail : forall l, exists e l', f l = (Throw e, l')) :
  forall (fuel : nat) (attempt : Z) (e0 : JsValue) (st : St L),
    fuel = Z.to_nat (N + 1 - attempt) ->
    1 <= attempt ->
    exists errs st',
      retry_loop (attempt_of f) N d fuel attempt e0 st
        = (Throw (last errs e0), st')
      /\ List.length errs = fuel
      /\ Forall (fun x => exists l l', f l = (Throw x, l')) errs
      /\ this st' = this st
      /\ trace st' = trace st ++
           failed_attempts_trace d attempt errs (closing_diagnostic N).
Proof.
  induction fuel as [|fuel IH]; intros attempt e0 st Hfuel Hpos.
  - exists [], st. simpl. rewrite app_nil_r. auto.
  - assert (Hle : attempt <= N) by lia.
    destruct (Hfail (ledger st)) as (e & l' & Hf).
    simpl. apply Z.leb_le in Hle. rewrite Hle. apply Z.leb_le in Hle.
    unfold try_catch. rewrite (attempt_of_eq f st _ _ Hf). simpl.
    destruct (Z.ltb_spec attempt N) as [Hlt|Hge].
    + destruct (IH (attempt + 1) e
                  (record (EvSleep d) (record (EvLog (AttemptFailed attempt d))
                     (mkSt (this st) l' (trace st ++ [EvAttempt (Some e)])))))
        as (errs & st' & Hrun & Hlen & Hall & Hthis & Htr); [lia|lia|].
      exists (e :: errs), st'. rewrite last_cons_default.
      unfold bind, console_log, sleep. cbn beta iota. rewrite Hrun.
      repeat split; auto.
      * simpl. now rewrite Hlen.
      * constructor; eauto.
      * rewrite Htr. simpl. rewrite <- !app_assoc. simpl.
        destruct errs as [|e1 errs]; [simpl in Hlen; lia|]. reflexivity.
    + assert (fuel = O) by lia. subst fuel.
      exists [e]. unfold closing_diagnostic.
      destruct (1 <? N); unfold bind, console_log, ret, throw; simpl;
        eexists; repeat split; simpl; eauto.
      now rewrite <- app_assoc.
Qed.

Lemma count_attempts_app (a b : list Event) :
  count_attempts (a ++ b) = (count_attempts a + count_attempts b)%nat.
Proof. unfold count_attempts. now rewrite filter_app, length_app. Qed.

Lemma count_sleeps_app (a b : list Event) :
  count_sleeps (a ++ b) = (count_sleeps a + count_sleeps b)%nat.
Proof. unfold count_sleeps. now rewrite filter_app, length_app. Qed.

Lemma count_executes_app (a b : list Event) :
  count_executes (a ++ b) = (count_executes a + count_executes b)%nat.
Proof. unfold count_executes. now rewrite filter_app, length_app. Qed.

Lemma failed_attempts_trace_counts (N d : Z) (errs : list JsValue) :
  forall attempt,
    count_attempts (failed_attempts_trace d attempt errs (closing_diagnostic N))
      = List.length errs
    /\ count_sleeps (failed_attempts_trace d attempt errs (closing_diagnostic N))
      = Nat.pred (List.length errs).
Proof.
  induction errs as [|e errs IH]; intros attempt; [split; reflexivity|].
  destruct errs as [|e1 errs].
  - simpl. unfold closing_diagnostic. destruct (1 <? N); split; reflexivity.
  - destruct (IH (attempt + 1)) as [IHa IHs].
    change (failed_attempts_trace d attempt (e :: e1 :: errs) (closing_diagnostic N))
      with ([EvAttempt (Some e); EvLog (AttemptFailed attempt d); EvSleep d]
            ++ failed_attempts_trace d (attempt + 1) (e1 :: errs)
                 (closing_diagnostic N)).
    rewrite count_attempts_app, count_sleeps_app, IHa, IHs. split; reflexivity.
Qed.

Lemma all_equal_repeat {A} (x : A) (l : list A) :
  Forall (fun y => y = x) l -> l = repeat x (List.length l).
Proof.
  induction l as [|y l IH]; intros Hl; [reflexivity|].
  inversion Hl; subst. simpl. f_equal. now apply IH.
Qed.

Lemma retry_loop_profile {T} (f : L -> Outcome T * L) (N d : Z) :
  forall (fuel : nat) (attempt : Z) (e0 : JsValue) (st : St L),
    fuel = Z.to_nat (N + 1 - attempt) ->
    exists evs,
      trace (snd (retry_loop (attempt_of f) N d fuel attempt e0 st))
      = trace st ++ evs
      /\ (count_attempts evs <= fuel)%nat
      /\ (fuel <> O -> count_attempts evs <> O)
      /\ count_sleeps evs = Nat.pred (count_attempts evs)
      /\ Forall (sleeps_last d) evs
      /\ (forall e, fst (retry_loop (attempt_of f) N d fuel attempt e0 st) = Throw e ->
          count_attempts evs = fuel)
      /\ (fuel <> O ->
          exists l,
            f l = (fst (retry_loop (attempt_of f) N d fuel attempt e0 st),
                   ledger (snd (retry_loop (attempt_of f) N d fuel attempt e0 st))))
      /\ this (snd (retry_loop (attempt_of f) N d fuel attempt e0 st)) = this st.
Proof.
  induction fuel as [|fuel IH]; intros attempt e0 st Hfuel.
  - exists []. simpl. rewrite app_nil_r.
    repeat split; auto; congruence.
  - assert (Hle : (attempt <=? N) = true) by (apply Z.leb_le; lia).
    simpl. rewrite Hle. unfold try_catch.
    destruct (f (ledger st)) as [[v|e] l'] eqn:Hf;
      rewrite (attempt_of_eq f st _ _ Hf); cbn [failure_of].
    + exists [EvAttempt None]. cbn [fst snd trace ledger this].
      repeat split; auto; try discriminate.
      * cbn. lia.
      * repeat constructor.
      * eauto.
    + destruct (Z.ltb_spec attempt N) as [Hlt|Hge].
      * unfold bind, console_log, sleep, record. cbn beta iota.
        cbn [this ledger trace]. rewrite <- !app_assoc. cbn [app].
        match goal with
        | |- context [retry_loop _ _ _ fuel ?a ?e ?s] => set (st2 := s)
        end.
        destruct (IH (attempt + 1) e st2) as
          (evs & Htr & Hle' & Hpos & Hsl & Hall & Hthrow & Hlast & Hthis);
          [lia|].
        assert (Hfuel' : fuel <> O) by lia.
        specialize (Hpos Hfuel'). specialize (Hlast Hfuel').
        exists (EvAttempt (Some e) :: EvLog (AttemptFailed attempt d)
                  :: EvSleep d :: evs).
        rewrite Htr, Hthis.
        change (trace st2)
          with (trace st ++
                [EvAttempt (Some e); EvLog (AttemptFailed attempt d); EvSleep d]).
        rewrite <- app_assoc.
        change (count_attempts
                  (EvAttempt (Some e) :: EvLog (AttemptFailed attempt d)
                     :: EvSleep d :: evs))
          with (S (count_attempts evs)).
        change (count_sleeps
                  (EvAttempt (Some e) :: EvLog (AttemptFailed attempt d)
                     :: EvSleep d :: evs))
          with (S (count_sleeps evs)).
        repeat split; auto; try lia.
        -- repeat constructor; auto.
        -- intros e1 He1. f_equal. eapply Hthrow; eauto.
      * assert (fuel = O) by lia. subst fuel.
        exists (EvAttempt (Some e) :: closing_diagnostic N).
        unfold closing_diagnostic.
        destruct (1 <? N); unfold bind, console_log, ret, throw, record;
          cbn [fst snd trace ledger this retry_loop];
          rewrite <- ?app_assoc; cbn [app];
          (repeat split; auto; try discriminate; try (repeat constructor);
           try (cbn; lia); eauto).
Qed.

End RetryFacts.

Section RetryClaims.
Context {L : Type} `{LedgerBackend L}.

(** C4.  For every [maxAttempts = N >= 1] and every operation that fails
    at every invocation, [retryTransaction] invokes the operation exactly
    [N] times, sleeps [delayMs] between consecutive attempts ([N - 1]
    sleeps, each of [delayMs]) and then throws the error of the [N]-th
    attempt.  The executor does not look at the error, so this holds for
    transient errors as for any other. *)
Theorem retry_exhausts_attempts {T} (f : L -> Outcome T * L) (N d : Z)
    (st : St L)
    (HN : 1 <= N)
    (Hfail : forall l, exists e l', f l = (Throw e, l')) :
  exists errs st',
    retryTransaction (attempt_of f) N d st = (Throw (last errs JsUndefined), st')
    /\ Z.of_nat (List.length errs) = N
    /\ Forall (fun x => exists l l', f l = (Throw x, l')) errs
    /\ trace st' = trace st ++ failed_attempts_trace d 1 errs (closing_diagnostic N)
    /\ count_attempts (trace st') = (count_attempts (trace st) + Z.to_nat N)%nat
    /\ count_sleeps (trace st') = (count_sleeps (trace st) + Z.to_nat (N - 1))%nat.
Proof.
  destruct (retry_loop_all_fail f N d Hfail (Z.to_nat N) 1 JsUndefined st)
    as (errs & st' & Hrun & Hlen & Hall & _ & Htr); [f_equal; lia|lia|].
  exists errs, st'. unfold retryTransaction. rewrite Hrun, Htr.
  destruct (failed_attempts_trace_counts N d errs 1) as [Ha Hs].
  rewrite count_attempts_app, count_sleeps_app, Ha, Hs, Hlen.
  repeat split; auto; lia.
Qed.

(** C2, as the code has it.  [retryTransaction] never classifies.  For
    every [maxAttempts = N > 1] and every operation that fails with the
    same error [e] at every invocation, whatever [e] is, the operation is
    invoked [N] times; after each of the first [N - 1] failures the
    "retrying" line is logged and the executor sleeps [delayMs]; after the
    last one the "all attempts failed" line is logged and [e] is thrown.
    For any operation, what the executor hands back, value or error, is
    what an invocation of the operation produced, never an outcome of its
    own making; and it makes fewer than [N] invocations only when one of
    them returned. *)
Theorem retry_retries_every_error {T} (f : L -> Outcome T * L) (N d : Z)
    (st : St L) (e : JsValue)
    (HN : 1 < N)
    (Hfail : forall l, exists l', f l = (Throw e, l')) :
  (exists st',
      retryTransaction (attempt_of f) N d st = (Throw e, st')
      /\ trace st'
         = trace st ++
           failed_attempts_trace d 1 (repeat e (Z.to_nat N))
             [EvLog (AllAttemptsFailed N)]
      /\ count_attempts (trace st') = (count_attempts (trace st) + Z.to_nat N)%nat
      /\ count_sleeps (trace st')
         = (count_sleeps (trace st) + Z.to_nat (N - 1))%nat)
  /\ (forall (g : L -> Outcome T * L) (s : St L),
        (exists l,
            g l = (fst (retryTransaction (attempt_of g) N d s),
                   ledger (snd (retryTransaction (attempt_of g) N d s))))
        /\ ((count_attempts (trace (snd (retryTransaction (attempt_of g) N d s)))
             < count_attempts (trace s) + Z.to_nat N)%nat ->
            exists v, fst (retryTransaction (attempt_of g) N d s) = Return v)).
Proof.
  split.
  - assert (Hfail' : forall l, exists e' l', f l = (Throw e', l')).
    { intros l. destruct (Hfail l) as (l' & E). eauto. }
    destruct (retry_loop_all_fail f N d Hfail' (Z.to_nat N) 1 JsUndefined st)
      as (errs & st' & Hrun & Hlen & Hall & _ & Htr); [f_equal; lia|lia|].
    assert (Hsame : Forall (fun x => x = e) errs).
    { eapply Forall_impl; [|exact Hall]. intros x (l & l' & E).
      destruct (Hfail l) as (l'' & E'). congruence. }
    apply all_equal_repeat in Hsame. rewrite Hlen in Hsame.
    assert (Hlast : last errs JsUndefined = e).
    { rewrite Hsame. destruct (Z.to_nat N) as [|n] eqn:En; [lia|].
      clear. generalize JsUndefined.
      induction n as [|n IH]; intros d0; [reflexivity|].
      change (repeat e (S (S n))) with (e :: repeat e (S n)).
      rewrite last_cons_default. apply IH. }
    assert (Hclosing : closing_diagnostic N = [EvLog (AllAttemptsFailed N)]).
    { unfold closing_diagnostic.
      now replace (1 <? N) with true by (symmetry; apply Z.ltb_lt; lia). }
    exists st'. unfold retryTransaction. rewrite Hrun, Hlast, Htr.
    destruct (failed_attempts_trace_counts N d errs 1) as [Ha Hs].
    rewrite count_attempts_app, count_sleeps_app, Ha, Hs, Hlen.
    rewrite Hclosing, <- Hsame.
    repeat split; lia.
  - intros g s.
    destruct (retry_loop_profile g N d (Z.to_nat N) 1 JsUndefined s)
      as (evs & Htr & _ & _ & _ & _ & Hthrow & Hlast & _); [f_equal; lia|].
    unfold retryTransaction. split; [apply Hlast; lia|].
    intros Hfew.
    destruct (fst (retry_loop (attempt_of g) N d (Z.to_nat N) 1 JsUndefined s))
      as [v|e1] eqn:E; [eauto|].
    rewrite Htr, count_attempts_app, (Hthrow e1 eq_refl) in Hfew. lia.
Qed.

(** C10.  For [maxAttempts <= 0] the loop body is never entered:
    [retryTransaction] does not invoke the operation, leaves the state as
    it found it, and throws the unassigned [lastError], [undefined]. *)
Theorem retry_nonpositive_throws_undefined {T} (operation : M L T)
    (maxAttempts delayMs : Z) (st : St L)
    (Hmax : maxAttempts <= 0) :
  retryTransaction operation maxAttempts delayMs st = (Throw JsUndefined, st).
Proof.
  unfold retryTransaction.
  replace (Z.to_nat maxAttempts) with O by lia.
  reflexivity.
Qed.

End RetryClaims.

(** An operation that always times out, on the scripted ledger. *)
Lemma retry_exhausts_attempts_witness :
  exists errs st',
    retryTransaction
      (attempt_of (fun l : Scripted.Ledger => (@Throw Tx (JsError "timeout"), l)))
      3 2000 (Scripted.start Scripted.two_players Scripted.quiet)
    = (Throw (last errs JsUndefined), st')
    /\ Z.of_nat (List.length errs) = 3
    /\ Forall (fun x => exists l l' : Scripted.Ledger,
                 (@Throw Tx (JsError "timeout"), l) = (Throw x, l')) errs
    /\ trace st' = [] ++ failed_attempts_trace 2000 1 errs (closing_diagnostic 3)
    /\ count_attempts (trace st') = (0 + Z.to_nat 3)%nat
    /\ count_sleeps (trace st') = (0 + Z.to_nat (3 - 1))%nat.
Proof.
  apply (retry_exhausts_attempts
           (fun l : Scripted.Ledger => (@Throw Tx (JsError "timeout"), l))
           3 2000 (Scripted.start Scripted.two_players Scripted.quiet)).
  - lia.
  - intros l. exists (JsError "timeout"), l. reflexivity.
Defined.

Lemma retry_retries_every_error_witness :
  let e := JsError "Target protected" in
  let st := Scripted.start Scripted.two_players Scripted.quiet in
  (exists st',
      retryTransaction
        (attempt_of (fun l : Scripted.Ledger => (@Throw Tx e, l))) 2 2000 st
      = (Throw e, st')
      /\ trace st'
         = trace st ++
           failed_attempts_trace 2000 1 (repeat e (Z.to_nat 2))
             [EvLog (AllAttemptsFailed 2)]
      /\ count_attempts (trace st') = (count_attempts (trace st) + Z.to_nat 2)%nat
      /\ count_sleeps (trace st')
         = (count_sleeps (trace st) + Z.to_nat (2 - 1))%nat)
  /\ (forall (g : Scripted.Ledger -> Outcome Tx * Scripted.Ledger)
             (s : St Scripted.Ledger),
        (exists l,
            g l = (fst (retryTransaction (attempt_of g) 2 2000 s),
                   ledger (snd (retryTransaction (attempt_of g) 2 2000 s))))
        /\ ((count_attempts (trace (snd (retryTransaction (attempt_of g) 2 2000 s)))
             < count_attempts (trace s) + Z.to_nat 2)%nat ->
            exists v, fst (retryTransaction (attempt_of g) 2 2000 s) = Return v)).
Proof.
  apply (retry_retries_every_error
           (fun l : Scripted.Ledger => (@Throw Tx (JsError "Target protected"), l))
           2 2000 (Scripted.start Scripted.two_players Scripted.quiet)
           (JsError "Target protected")).
  - lia.
  - intros l. exists l. reflexivity.
Defined.

Lemma retry_nonpositive_throws_undefined_witness :
  retryTransaction
    (attempt_of (fun l : Scripted.Ledger => (Return Scripted.confirmed_tx, l)))
    0 2000 (Scripted.start Scripted.two_players Scripted.quiet)
  = (Throw JsUndefined, Scripted.start Scripted.two_players Scripted.quiet).
Proof.
  apply (retry_nonpositive_throws_undefined
           (attempt_of (fun l : Scripted.Ledger => (Return Scripted.confirmed_tx, l)))
           0 2000 (Scripted.start Scripted.two_players Scripted.quiet)).
  lia.
Defined.

(** C2, the claim as stated, fails: an operation that keeps failing with
    "Target protected", which the classifier of the design document maps to
    a sentinel, is invoked twice when [maxAttempts = 2], with a sleep in
    between, and the error is thrown. *)
Lemma retry_sentinel_counterexample :
  let e := JsError "Target protected" in
  let run :=
    retryTransaction
      (attempt_of (fun l : Scripted.Ledger => (@Throw Tx e, l)))
      2 2000 (Scripted.start Scripted.two_players Scripted.quiet) in
  classify e = Sentinel "target_protected"
  /\ fst run = Throw e
  /\ trace (snd run)
     = [EvAttempt (Some e); EvLog (AttemptFailed 1 2000); EvSleep 2000;
        EvAttempt (Some e); EvLog (AllAttemptsFailed 2)]
  /\ count_attempts (trace (snd run)) <> 1%nat
  /\ ~ ShortCircuitsOnNonTransient.
Proof.
  repeat split; try reflexivity.
  - vm_compute. discriminate.
  - intros Hclaim.
    specialize (Hclaim Scripted.Ledger Scripted.backend Tx
                  (fun l => (Throw (JsError "Target protected"), l))
                  2 2000 (Scripted.start Scripted.two_players Scripted.quiet)
                  (JsError "Target protected")).
    assert (Hone : 1 < 2) by lia.
    specialize (Hclaim Hone (fun l => ex_intro _ l eq_refl)).
    vm_compute in Hclaim.
    assert (Hs : Sentinel "target_protected" <> Transient) by discriminate.
    specialize (Hclaim Hs). discriminate.
Qed.

(** ** The methods *)

Ltac run :=
  unfold bind, try_catch, ret, throw, console_log, console_error, sleep,
    accounts_get, accounts_first, contract_connect, this_contract_address,
    CallData_compile, execute, waitForTransaction, get_game_state, record;
  cbn beta iota; cbn [this ledger trace fst snd];
  rewrite ?contract_address_connect, ?accounts_connect.

Section MethodFacts.
Context {L : Type} `{LedgerBackend L}.

Lemma retryTransaction_success {T} (op : M L T) (N d : Z) (st st' : St L)
    (v : T) :
  1 <= N ->
  op st = (Return v, st') ->
  retryTransaction op N d st = (Return v, st').
Proof.
  intros HN Hop. unfold retryTransaction.
  destruct (Z.to_nat N) as [|fuel] eqn:E; [lia|].
  simpl. apply Z.leb_le in HN. rewrite HN.
  unfold try_catch. now rewrite Hop.
Qed.

Lemma retryTransaction_single_failure {T} (op : M L T) (d : Z)
    (st st' : St L) (e : JsValue) :
  op st = (Throw e, st') ->
  retryTransaction op 1 d st = (Throw e, st').
Proof.
  intros Hop. unfold retryTransaction. simpl.
  unfold try_catch. now rewrite Hop.
Qed.

Lemma werewolfAction_execute_rejected (gameId : Z) (target killer : string)
    (st : St L) (acct : Account) (e : JsValue) (l1 : L) :
  map_get killer (accounts (this st)) = Some acct ->
  CallData_compile_throws (night_fields gameId target) = None ->
  message_includes e "Target protected" = true ->
  account_execute acct (night_call (this st) gameId target) V3 (ledger st)
    = (Throw e, l1) ->
  werewolfAction gameId target killer st
  = (Return protected_target_handled,
     mkSt (connect acct (this st)) l1
       (trace st ++
          [EvLog (Text "Sending night action transaction...");
           EvExecute acct (night_call (this st) gameId target) V3;
           EvLog TargetProtectedNotice])).
Proof.
  intros Hacct Hc Hmsg Hexec.
  unfold werewolfAction. run. rewrite Hacct. run.
  unfold night_fields in Hc. rewrite Hc.
  erewrite retryTransaction_success; [reflexivity|lia|].
  run. unfold night_call in Hexec. rewrite Hexec. run.
  unfold night_action_catch. rewrite Hmsg.
  destruct e; [discriminate| |]; run; now rewrite <- !app_assoc.
Qed.


Lemma werewolfAction_confirmed (gameId : Z) (target killer : string)
    (st : St L) (acct : Account) (tx : Tx) (l1 l2 : L) :
  map_get killer (accounts (this st)) = Some acct ->
  CallData_compile_throws (night_fields gameId target) = None ->
  account_execute acct (night_call (this st) gameId target) V3 (ledger st)
    = (Return tx, l1) ->
  provider_waitForTransaction (transaction_hash tx) l1 = (Return tt, l2) ->
  werewolfAction gameId target killer st
  = (Return tx,
     mkSt (connect acct (this st)) l2
       (trace st ++
          [EvLog (Text "Sending night action transaction...");
           EvExecute acct (night_call (this st) gameId target) V3;
           EvLog (Text "Transaction sent, waiting for confirmation...");
           EvWait (transaction_hash tx);
           EvLog (Text "Night action confirmed")])).
Proof.
  intros Hacct Hc Hexec Hwait.
  unfold werewolfAction. run. rewrite Hacct. run.
  unfold night_fields in Hc. rewrite Hc.
  erewrite retryTransaction_success; [reflexivity|lia|].
  run. unfold night_call in Hexec. rewrite Hexec. run. rewrite Hwait. run.
  now rewrite <- !app_assoc.
Qed.


Lemma werewolfAction_catch_protected (e : JsValue) (st : St L) :
  instanceof_Error e = true ->
  message_includes e "Target protected" = true ->
  werewolfAction_catch e st
  = (Return protected_target_handled, record (EvLog TargetProtectedNotice) st).
Proof.
  intros Hinst Hmsg. unfold werewolfAction_catch. rewrite Hinst, Hmsg.
  reflexivity.
Qed.



(** C9.  The sentinel returned by [werewolfAction] on a protected target is
    a value of the type of a confirmation, an object with the single field
    [transaction_hash], holding the literal ['protected_target_handled'];
    it differs from the result of a confirmed submission exactly when the
    hash of the confirmed transaction is not that literal. *)
Theorem werewolfAction_sentinel_shape (gameId : Z) (target killer : string)
    (st1 st2 : St L) (acct1 acct2 : Account) (e : JsValue) (tx : Tx)
    (l1 l1' l2' : L)
    (Hacct1 : map_get killer (accounts (this st1)) = Some acct1)
    (Hacct2 : map_get killer (accounts (this st2)) = Some acct2)
    (Hcompile : CallData_compile_throws (night_fields gameId target) = None)
    (Hmsg : message_includes e "Target protected" = true)
    (Hrej : account_execute acct1 (night_call (this st1) gameId target) V3
              (ledger st1) = (Throw e, l1))
    (Hexec : account_execute acct2 (night_call (this st2) gameId target) V3
               (ledger st2) = (Return tx, l1'))
    (Hwait : provider_waitForTransaction (transaction_hash tx) l1'
             = (Return tt, l2')) :
  fst (werewolfAction gameId target killer st1)
  = Return {| transaction_hash := "protected_target_handled" |}
  /\ fst (werewolfAction gameId target killer st2) = Return tx
  /\ (fst (werewolfAction gameId target killer st1)
      = fst (werewolfAction gameId target killer st2)
      <-> transaction_hash tx = "protected_target_handled").
Proof.
  rewrite (werewolfAction_execute_rejected _ _ _ _ _ _ _
             Hacct1 Hcompile Hmsg Hrej).
  rewrite (werewolfAction_confirmed _ _ _ _ _ _ _ _
             Hacct2 Hcompile Hexec Hwait).
  cbn [fst]. repeat split; auto.
  - intros E. inversion E. reflexivity.
  - intros E. destruct tx as [h]. simpl in E. subst h. reflexivity.
Qed.

(** *** What a method can do to the object *)

Lemma keeps_ret {T} (v : T) : keeps_this (L:=L) (ret v).
Proof. intros st. reflexivity. Qed.

Lemma keeps_throw {T} (e : JsValue) : keeps_this (@throw L T e).
Proof. intros st. reflexivity. Qed.

Lemma keeps_bind {A B} (c : M L A) (k : A -> M L B) :
  keeps_this c -> (forall v, keeps_this (L:=L) (k v)) -> keeps_this (L:=L) (bind c k).
Proof.
  intros Hc Hk st. unfold bind. specialize (Hc st).
  destruct (c st) as [[v|e] st1]; simpl in *; [|assumption].
  now rewrite Hk.
Qed.

Lemma keeps_try_catch {T} (c : M L T) (h : JsValue -> M L T) :
  keeps_this c -> (forall e, keeps_this (L:=L) (h e)) -> keeps_this (L:=L) (try_catch c h).
Proof.
  intros Hc Hh st. unfold try_catch. specialize (Hc st).
  destruct (c st) as [[v|e] st1]; simpl in *; [assumption|].
  now rewrite Hh.
Qed.

Lemma keeps_console_log (m : LogMsg) : keeps_this (L:=L) (console_log m).
Proof. intros st. reflexivity. Qed.

Lemma keeps_console_error (label : string) (e : JsValue) :
  keeps_this (L:=L) (console_error label e).
Proof. intros st. reflexivity. Qed.

Lemma keeps_sleep (ms : Z) : keeps_this (L:=L) (sleep ms).
Proof. intros st. reflexivity. Qed.

Lemma keeps_this_contract_address : keeps_this (L:=L) this_contract_address.
Proof. intros st. reflexivity. Qed.

Lemma keeps_CallData_compile (fields : Calldata) :
  keeps_this (L:=L) (CallData_compile fields).
Proof.
  intros st. unfold CallData_compile.
  now destruct (CallData_compile_throws fields).
Qed.

Lemma keeps_execute (a : Account) (c : Call) (v : TxVersion) :
  keeps_this (L:=L) (execute a c v).
Proof.
  intros st. unfold execute.
  now destruct (account_execute a c v (ledger st)).
Qed.

Lemma keeps_waitForTransaction (hash : string) :
  keeps_this (L:=L) (waitForTransaction hash).
Proof.
  intros st. unfold waitForTransaction.
  now destruct (provider_waitForTransaction hash (ledger st)).
Qed.

Lemma keeps_get_game_state (gameId : Z) : keeps_this (L:=L) (get_game_state gameId).
Proof.
  intros st. unfold get_game_state.
  now destruct (contract_get_game_state gameId (ledger st)).
Qed.

Lemma keeps_retry_loop {T} (op : M L T) (N d : Z) :
  keeps_this op ->
  forall fuel attempt e, keeps_this (L:=L) (retry_loop op N d fuel attempt e).
Proof.
  intros Hop. induction fuel as [|fuel IH]; intros attempt e; simpl.
  - apply keeps_throw.
  - destruct (attempt <=? N); [|apply keeps_throw].
    apply keeps_try_catch; [assumption|]. intros error.
    apply keeps_bind; [|intros _; apply IH].
    destruct (attempt <? N); [|destruct (1 <? N)].
    + apply keeps_bind; [apply keeps_console_log|intros _; apply keeps_sleep].
    + apply keeps_console_log.
    + apply keeps_ret.
Qed.

Lemma keeps_retryTransaction {T} (op : M L T) (N d : Z) :
  keeps_this op -> keeps_this (L:=L) (retryTransaction op N d).
Proof. intros Hop. now apply keeps_retry_loop. Qed.

Lemma keeps_night_action_catch (e : JsValue) : keeps_this (L:=L) (night_action_catch e).
Proof.
  unfold night_action_catch.
  destruct e; [apply keeps_throw| |];
    destruct (message_includes _ _);
    try apply keeps_throw;
    (apply keeps_bind; [apply keeps_console_log|intros _; apply keeps_ret]).
Qed.

Create HintDb keeps.
#[local] Hint Resolve keeps_ret keeps_throw keeps_bind keeps_try_catch
  keeps_console_log keeps_console_error keeps_sleep
  keeps_this_contract_address keeps_CallData_compile keeps_execute
  keeps_waitForTransaction keeps_get_game_state keeps_retryTransaction
  keeps_night_action_catch : keeps.

(** Every method but [endVoting] and [werewolfAction] has this shape: look
    the account up, connect it, run a body that does not touch the object,
    and log and rethrow whatever was thrown. *)
Lemma method_this {T} (lookup : M L (option Account))
    (found : Game -> option Account) (body : Account -> M L T)
    (missing : JsValue) (handler : JsValue -> M L T) :
  (forall st, lookup st = (Return (found (this st)), st)) ->
  (forall a, keeps_this (L:=L) (body a)) ->
  (forall e, keeps_this (L:=L) (handler e)) ->
  forall st,
    this (snd (try_catch
                 (account <- lookup ;;
                  match account with
                  | None => throw missing
                  | Some a => contract_connect a ;; body a
                  end)
                 handler st))
    = match found (this st) with
      | Some a => connect a (this st)
      | None => this st
      end.
Proof.
  intros Hlookup Hbody Hhandler st.
  unfold try_catch, bind at 1. rewrite Hlookup.
  destruct (found (this st)) as [a|].
  - unfold bind, contract_connect. cbn beta iota.
    pose proof (Hbody a (mkSt (connect a (this st)) (ledger st) (trace st))) as Hb.
    destruct (body a _) as [[v|e] st1]; simpl in *; [assumption|].
    now rewrite Hhandler.
  - unfold throw. now rewrite Hhandler.
Qed.

Lemma caller_or_first_eq (caller : option string) (st : St L) :
  caller_or_first caller st = (Return (caller_account caller (this st)), st).
Proof.
  unfold caller_or_first, caller_account.
  destruct caller as [a|]; [destruct (truthy a)|]; reflexivity.
Qed.

(** C5, as the code has it.  The object keeps no phase: its fields are the
    contract address, the registry and the connected signer.  [startGame],
    [passNight], [passDay] and [vote], whatever their outcome, leave the
    registry as it is and change nothing but the connected signer, which
    becomes the acting account when it is found. *)
Theorem methods_touch_only_signer (gameId : Z) (players : list string)
    (target actor : string) (caller : option string) (st : St L) :
  this (snd (startGame gameId players actor st))
  = match map_get actor (accounts (this st)) with
    | Some a => connect a (this st)
    | None => this st
    end
  /\ this (snd (passNight gameId caller st))
     = match caller_account caller (this st) with
       | Some a => connect a (this st)
       | None => this st
       end
  /\ this (snd (passDay gameId caller st))
     = match caller_account caller (this st) with
       | Some a => connect a (this st)
       | None => this st
       end
  /\ this (snd (vote gameId target actor st))
     = match map_get actor (accounts (this st)) with
       | Some a => connect a (this st)
       | None => this st
       end.
Proof.
  repeat split.
  - unfold startGame.
    apply (method_this (accounts_get actor)
             (fun g => map_get actor (accounts g))); auto 10 with keeps.
  - unfold passNight.
    apply (method_this (caller_or_first caller) (caller_account caller));
      auto 10 with keeps. apply caller_or_first_eq.
  - unfold passDay.
    apply (method_this (caller_or_first caller) (caller_account caller));
      auto 10 with keeps. apply caller_or_first_eq.
  - unfold vote.
    apply (method_this (accounts_get actor)
             (fun g => map_get actor (accounts g))); auto 10 with keeps.
Qed.

(** C7, as the code has it.  When [addAccount addr key] returns, the
    registry resolves [addr] to the account object that the library built
    from [addr] and [key]; what address that object holds is the library's
    business.  When the library refuses the key, [addAccount] throws what
    the library threw and registers nothing.  A method called with an actor
    address that is not in the registry throws its account-not-found error
    at once: the state it leaves differs from the one it found by the
    single [console.error] line, so nothing was submitted and nothing
    retried.  For [passNight] and [passDay] this holds of a caller address
    that is not empty: they read an empty string as no caller at all and
    act with the first account of the registry. *)
Theorem unregistered_actor_fails (st : St L) (actor : string)
    (addr key : string) (g : Game) (gameId : Z) (players : list string)
    (target lover1 lover2 : string) (save poison : bool)
    (Hmissing : map_get actor (accounts (this st)) = None) :
  match addAccount addr key g with
  | Return g' =>
      exists a, Account_new addr key = Return a
                /\ map_get addr (accounts g') = Some a
                /\ contract_address g' = contract_address g
                /\ connected g' = connected g
  | Throw e => Account_new addr key = Throw e
  end
  /\ startGame gameId players actor st
     = (Throw (JsError "Starter account not found"),
        record (EvConsoleError "Error starting game:"
                  (JsError "Starter account not found")) st)
  /\ vote gameId target actor st
     = (Throw (JsError "Voter account not found"),
        record (EvConsoleError "Error voting:"
                  (JsError "Voter account not found")) st)
  /\ werewolfAction gameId target actor st
     = (Throw (JsError "Killer account not found"),
        record (EvConsoleError "Error performing night action:"
                  (JsError "Killer account not found")) st)
  /\ cupidAction gameId lover1 lover2 actor st
     = (Throw (JsError "Cupid account not found"),
        record (EvConsoleError "Error pairing lovers:"
                  (JsError "Cupid account not found")) st)
  /\ witchAction gameId target save poison actor st
     = (Throw (JsError "Witch account not found"),
        record (EvConsoleError "Error performing witch action:"
                  (JsError "Witch account not found")) st)
  /\ hunterAction gameId target actor st
     = (Throw (JsError "Hunter account not found"),
        record (EvConsoleError "Error performing hunter action:"
                  (JsError "Hunter account not found")) st)
  /\ passNight gameId (Some actor) st
     = (if truthy actor then
          (Throw (JsError "No account available for this operation"),
           record (EvConsoleError "Error transitioning to day phase:"
                     (JsError "No account available for this operation")) st)
        else passNight gameId None st)
  /\ passDay gameId (Some actor) st
     = (if truthy actor then
          (Throw (JsError "No account available for this operation"),
           record (EvConsoleError "Error transitioning to night phase:"
                     (JsError "No account available for this operation")) st)
        else passDay gameId None st).
Proof.
  split.
  { unfold addAccount. destruct (Account_new addr key) as [a|e]; [|reflexivity].
    exists a. repeat split. simpl. apply map_get_set_same. }
  repeat split.
  - unfold startGame. run. now rewrite Hmissing.
  - unfold vote. run. now rewrite Hmissing.
  - unfold werewolfAction. run. now rewrite Hmissing.
  - unfold cupidAction. run. now rewrite Hmissing.
  - unfold witchAction. run. now rewrite Hmissing.
  - unfold hunterAction. run. now rewrite Hmissing.
  - unfold passNight, caller_or_first.
    destruct (truthy actor); [|reflexivity]. run. now rewrite Hmissing.
  - unfold passDay, caller_or_first.
    destruct (truthy actor); [|reflexivity]. run. now rewrite Hmissing.
Qed.

(** The call submitted by [endVoting]. *)
Lemma endVoting_nonempty (gameId : Z) (st : St L) (k0 : string)
    (first : Account) (rest : AccountMap) :
  accounts (this st) = (k0, first) :: rest ->
  exists r st' evs,
    endVoting gameId st = (r, st')
    /\ this st' = connect first (this st)
    /\ match CallData_compile_throws [("game_id", ArgNumber gameId)] with
       | None =>
           trace st'
           = trace st ++
             EvExecute first
               (mkCall (contract_address (this st)) "end_voting"
                  [("game_id", ArgNumber gameId)]) V3 :: evs
       | Some e =>
           r = Throw e
           /\ ledger st' = ledger st
           /\ trace st'
              = trace st ++ [EvConsoleError "Error ending voting phase:" e]
       end.
Proof.
  intros Hacc. unfold endVoting. run. rewrite Hacc. cbn [map_first]. run.
  destruct (CallData_compile_throws [("game_id", ArgNumber gameId)]) as [e|];
    run.
  { exists (Throw e). eexists. exists []. repeat split. }
  destruct (account_execute first _ V3 (ledger st)) as [[tx|e] l1]; run.
  - destruct (provider_waitForTransaction (transaction_hash tx) l1)
      as [[[]|e] l2]; run;
      do 3 eexists; repeat split; rewrite <- ?app_assoc; reflexivity.
  - do 3 eexists; repeat split; rewrite <- ?app_assoc; reflexivity.
Qed.

(** Whatever the ledger answers, [endVoting] calls [execute] at most once
    and never sleeps: it does not go through [retryTransaction]. *)
Lemma endVoting_single_attempt (gameId : Z) (st : St L) :
  (count_executes (trace (snd (endVoting gameId st)))
   <= count_executes (trace st) + 1)%nat
  /\ count_sleeps (trace (snd (endVoting gameId st))) = count_sleeps (trace st).
Proof.
  unfold endVoting. run.
  destruct (map_first (accounts (this st))) as [first|]; run.
  - destruct (CallData_compile_throws [("game_id", ArgNumber gameId)]) as [e|];
      run; [rewrite ?count_executes_app, ?count_sleeps_app; cbn; lia|].
    destruct (account_execute first _ V3 (ledger st)) as [[tx|e] l1]; run.
    + destruct (provider_waitForTransaction (transaction_hash tx) l1)
        as [[[]|e] l2]; run;
        rewrite ?count_executes_app, ?count_sleeps_app; cbn; lia.
    + rewrite ?count_executes_app, ?count_sleeps_app; cbn; lia.
  - rewrite ?count_executes_app, ?count_sleeps_app; cbn; lia.
Qed.

(** C8.  [endVoting] acts with the first entry of the registry: on a
    registry that is not empty it connects that account and, once
    [CallData.compile] has returned, submits [end_voting] signed by it (when
    [CallData.compile] throws, that error is thrown and nothing is
    submitted); on an empty registry it throws "No accounts available"
    without submitting anything.  The first entry is the one filed under
    the first address that was registered, whatever was registered after
    it: once the registration of [a] on a new object has returned, the
    first key of the [Map] is [a] and stays [a], and the account under it
    is one the library built for [a]. *)
Theorem endVoting_uses_first_account (gameId : Z) (st : St L)
    (a k contractAddr : string) (regs : list (string * string)) :
  match accounts (this st) with
  | [] =>
      endVoting gameId st
      = (Throw (JsError "No accounts available"),
         record (EvConsoleError "Error ending voting phase:"
                   (JsError "No accounts available")) st)
  | (_, first) :: _ =>
      exists r st' evs,
        endVoting gameId st = (r, st')
        /\ this st' = connect first (this st)
        /\ match CallData_compile_throws [("game_id", ArgNumber gameId)] with
           | None =>
               trace st'
               = trace st ++
                 EvExecute first
                   (mkCall (contract_address (this st)) "end_voting"
                      [("game_id", ArgNumber gameId)]) V3 :: evs
           | Some e =>
               r = Throw e
               /\ ledger st' = ledger st
               /\ trace st'
                  = trace st ++ [EvConsoleError "Error ending voting phase:" e]
           end
  end
  /\ match addAccount a k (new_game contractAddr) with
     | Return g1 =>
         exists first rest,
           accounts (snd (register_all regs g1)) = (a, first) :: rest
           /\ map_first (accounts (snd (register_all regs g1))) = Some first
           /\ map_get a (accounts (snd (register_all regs g1))) = Some first
           /\ exists key, Account_new a key = Return first
     | Throw e => Account_new a k = Throw e
     end.
Proof.
  split.
  - destruct (accounts (this st)) as [|[k0 first] rest] eqn:Hacc.
    + unfold endVoting. run. now rewrite Hacc.
    + now apply (endVoting_nonempty gameId st k0 first rest).
  - destruct (addAccount a k (new_game contractAddr)) as [g1|e] eqn:E;
      [|now apply addAccount_throws in E].
    destruct (addAccount_returns _ _ _ _ E) as (acct & Hnew & ->).
    destruct (register_all_first_key regs
                (accounts_set a acct (new_game contractAddr)) a acct [])
      as (v1 & rest1 & E1); [reflexivity|].
    assert (Hb : built_by_library
                   (accounts (snd (register_all regs
                      (accounts_set a acct (new_game contractAddr)))))).
    { apply register_all_built. simpl. constructor; [|constructor]. simpl. eauto. }
    rewrite E1 in Hb |- *. inversion Hb as [|? ? Hhd ?]; subst.
    exists v1, rest1. repeat split; auto.
    simpl. now rewrite String.eqb_refl.
Qed.

End MethodFacts.

(** ** Runs on the scripted ledger *)

Section StartGameFacts.
Context {L : Type} `{LedgerBackend L}.

(** The error thrown when [get_game_state] answers is caught by the [catch]
    of the very [try] it is thrown in: with or without an existing game,
    [startGame] goes on to [CallData.compile] and [retryTransaction]. *)
Lemma startGame_query_answer_swallowed (gameId : Z) (players : list string)
    (starter : string) (st : St L) (acct : Account) (gs : GameState) (l1 : L) :
  map_get starter (accounts (this st)) = Some acct ->
  contract_get_game_state gameId (ledger st) = (Return gs, l1) ->
  startGame gameId players starter st
  = try_catch
      (calldata <- CallData_compile
         [("game_id", ArgNumber gameId); ("players", ArgAddresses players)] ;;
       retryTransaction
         (console_log (Text "Using transaction version: 0x3") ;;
          addr <- this_contract_address ;;
          tx <- execute acct (mkCall addr "start_game" calldata) V3 ;;
          waitForTransaction (transaction_hash tx) ;;
          ret tx)
         default_maxAttempts default_delayMs)
      (fun error => console_error "Error starting game:" error ;; throw error)
      (mkSt (connect acct (this st)) l1
         (trace st ++
            [EvQuery gameId; EvLog (ExistingGameState gs);
             EvLog (Text "No existing game found, creating new game...")])).
Proof.
  intros Hacct Hquery.
  unfold startGame. run. rewrite Hacct. run. rewrite Hquery. run.
  rewrite <- !app_assoc. reflexivity.
Qed.

End StartGameFacts.

(** C1, on the code.  With game 42 already on the ledger, [startGame]
    logs the state it was given, swallows its own "Game already exists"
    error, and submits [start_game]: the transaction is sent and
    confirmed, and the confirmation is what the method returns. *)
Theorem startGame_existing_game_still_submits :
  startGame 42 [Scripted.alice; Scripted.bob] Scripted.alice
    (Scripted.start Scripted.two_players (Scripted.mk [] [] [(42, [1; 2])]))
  = (Return Scripted.confirmed_tx,
     mkSt (connect (Scripted.alice_account) Scripted.two_players)
       (Scripted.mk [] [] [(42, [1; 2])])
       [EvQuery 42; EvLog (ExistingGameState [1; 2]);
        EvLog (Text "No existing game found, creating new game...");
        EvLog (Text "Using transaction version: 0x3");
        EvExecute (Scripted.alice_account)
          (mkCall Scripted.contract "start_game"
             [("game_id", ArgNumber 42);
              ("players", ArgAddresses [Scripted.alice; Scripted.bob])]) V3;
        EvWait "0x7e57"]).
Proof. vm_compute. reflexivity. Qed.

(** C6, on the code.  On a ledger whose first [execute] times out and whose
    second one would go through, [endVoting] submits once, does not sleep
    and throws the timeout; [passDay], like every other method, goes
    through [retryTransaction], sleeps, submits again and returns the
    confirmed transaction. *)
Theorem endVoting_bypasses_retry :
  let st := Scripted.start Scripted.two_players
              (Scripted.mk [Throw (JsError "timeout")] [] []) in
  fst (endVoting 1 st) = Throw (JsError "timeout")
  /\ trace (snd (endVoting 1 st))
     = [EvExecute (Scripted.alice_account)
          (mkCall Scripted.contract "end_voting" [("game_id", ArgNumber 1)]) V3;
        EvConsoleError "Error ending voting phase:" (JsError "timeout")]
  /\ fst (passDay 1 None st) = Return Scripted.confirmed_tx
  /\ trace (snd (passDay 1 None st))
     = [EvLog (Text "Transitioning from day to night phase...");
        EvExecute (Scripted.alice_account)
          (mkCall Scripted.contract "pass_day" [("game_id", ArgNumber 1)]) V3;
        EvLog (AttemptFailed 1 2000); EvSleep 2000;
        EvLog (Text "Transitioning from day to night phase...");
        EvExecute (Scripted.alice_account)
          (mkCall Scripted.contract "pass_day" [("game_id", ArgNumber 1)]) V3;
        EvLog (Text "Transaction sent, waiting for confirmation...");
        EvWait "0x7e57";
        EvLog (Text "Day phase ended, night phase started")].
Proof. vm_compute. repeat split. Qed.

(** C5, the claim as stated, fails: no function of the fields of the
    object behaves as the phase of the design document.  After a confirmed
    [startGame] by an account, a confirmed [passNight] by the same account
    leaves the object exactly as it was, so the phase could not have gone
    from [Night] to [Day]. *)
Lemma phase_not_tracked : ~ PhaseTracked.
Proof.
  intros (phase_of & Hinit & Hadd & Hstart & Hnight & _ & _).
  pose (g1 := accounts_set Scripted.alice Scripted.alice_account
                (new_game Scripted.contract)).
  pose (st0 := Scripted.start g1 Scripted.quiet).
  assert (Hlobby : phase_of (this st0) 1 = Lobby).
  { unfold st0, Scripted.start. cbn [this].
    rewrite (Hadd Scripted.library (new_game Scripted.contract)
               Scripted.alice "0x1" g1 1 eq_refl).
    apply Hinit. }
  pose (st1 := snd (startGame 1 [Scripted.alice] Scripted.alice st0)).
  assert (H1 : phase_of (this st1) 1 = Night).
  { apply (Hstart Scripted.Ledger Scripted.backend st0 st1 1
             [Scripted.alice] Scripted.alice Scripted.confirmed_tx Hlobby).
    vm_compute. reflexivity. }
  pose (st2 := snd (passNight 1 (Some Scripted.alice) st1)).
  assert (H2 : phase_of (this st2) 1 = Day).
  { apply (Hnight Scripted.Ledger Scripted.backend st1 st2 1
             (Some Scripted.alice) Scripted.confirmed_tx H1).
    vm_compute. reflexivity. }
  assert (Hsame : this st2 = this st1) by (vm_compute; reflexivity).
  rewrite Hsame, H1 in H2. discriminate.
Qed.

(** C7, the claim as stated, fails in both halves.  An account registered
    under an address written with capital letters is found under that
    address, and the address it holds, lower-cased by the library, is
    another string.  And [passNight] and [passDay], called with the empty
    string for the caller, an address that is not in the registry, do not
    fail: they act with the first account of the registry and submit. *)
Lemma unregistered_actor_counterexample :
  let st := Scripted.start Scripted.two_players Scripted.quiet in
  (exists g a,
      @addAccount Scripted.library "0xA11CE" "0x1" (new_game Scripted.contract)
      = Return g
      /\ map_get "0xA11CE" (accounts g) = Some a
      /\ address a <> "0xA11CE")
  /\ map_get "" (accounts (this st)) = None
  /\ fst (passNight 1 (Some "") st) = Return Scripted.confirmed_tx
  /\ trace (snd (passNight 1 (Some "") st))
     = [EvLog (Text "Transitioning from night to day phase...");
        EvExecute Scripted.alice_account
          (mkCall Scripted.contract "pass_night" [("game_id", ArgNumber 1)]) V3;
        EvLog (Text "Transaction sent, waiting for confirmation...");
        EvWait "0x7e57";
        EvLog (Text "Night phase ended, day phase started")]
  /\ fst (passDay 1 (Some "") st) = Return Scripted.confirmed_tx
  /\ count_executes (trace (snd (passDay 1 (Some "") st))) = 1%nat.
Proof.
  split.
  { eexists. exists (mkAccount "0xa11ce" "0x1").
    split; [reflexivity|]. split; [reflexivity|]. discriminate. }
  vm_compute. repeat split.
Qed.

(** An error of [CallData.compile] that happens to contain
    "Target protected": [vote] throws it, [werewolfAction] takes it for a
    protected target in the [catch] around its body, having submitted
    nothing. *)
Example werewolfAction_classifies_compile_error :
  let target := "Target protected ✓" in
  let e := JsError "Target protected ✓ is not an ASCII string" in
  let st := Scripted.start Scripted.two_players Scripted.quiet in
  werewolfAction 7 target Scripted.alice st
  = (Return protected_target_handled,
     mkSt (connect Scripted.alice_account Scripted.two_players) Scripted.quiet
       [EvLog TargetProtectedNotice])
  /\ vote 7 target Scripted.alice st
     = (Throw e,
        mkSt (connect Scripted.alice_account Scripted.two_players) Scripted.quiet
          [EvConsoleError "Error voting:" e]).
Proof. vm_compute. split; reflexivity. Qed.


Lemma werewolfAction_sentinel_shape_witness :
  let st1 := Scripted.start Scripted.two_players
               (Scripted.mk [Throw (JsError "Target protected")] [] []) in
  let st2 := Scripted.start Scripted.two_players Scripted.quiet in
  fst (werewolfAction 7 Scripted.bob Scripted.alice st1)
  = Return {| transaction_hash := "protected_target_handled" |}
  /\ fst (werewolfAction 7 Scripted.bob Scripted.alice st2)
     = Return Scripted.confirmed_tx
  /\ (fst (werewolfAction 7 Scripted.bob Scripted.alice st1)
      = fst (werewolfAction 7 Scripted.bob Scripted.alice st2)
      <-> transaction_hash Scripted.confirmed_tx = "protected_target_handled").
Proof.
  apply (werewolfAction_sentinel_shape 7 Scripted.bob Scripted.alice
           (Scripted.start Scripted.two_players
              (Scripted.mk [Throw (JsError "Target protected")] [] []))
           (Scripted.start Scripted.two_players Scripted.quiet)
           (Scripted.alice_account) (Scripted.alice_account)
           (JsError "Target protected") Scripted.confirmed_tx
           (Scripted.mk [] [] []) Scripted.quiet Scripted.quiet);
    reflexivity.
Defined.

Lemma unregistered_actor_fails_witness :
  let st := Scripted.start Scripted.two_players Scripted.quiet in
  match @addAccount Scripted.library "0xCAFE" "0x3" Scripted.two_players with
  | Return g' =>
      exists a, @Account_new Scripted.library "0xCAFE" "0x3" = Return a
                /\ map_get "0xCAFE" (accounts g') = Some a
                /\ contract_address g' = contract_address Scripted.two_players
                /\ connected g' = connected Scripted.two_players
  | Throw e => @Account_new Scripted.library "0xCAFE" "0x3" = Throw e
  end
  /\ fst (startGame 1 [Scripted.alice; Scripted.bob] "0xdead" st)
     = Throw (JsError "Starter account not found")
  /\ fst (passNight 1 (Some "0xdead") st)
     = Throw (JsError "No account available for this operation")
  /\ trace (snd (vote 1 Scripted.bob "0xdead" st))
     = [EvConsoleError "Error voting:" (JsError "Voter account not found")].
Proof.
  pose proof (unregistered_actor_fails
                (Scripted.start Scripted.two_players Scripted.quiet)
                "0xdead" "0xCAFE" "0x3" Scripted.two_players 1
                [Scripted.alice; Scripted.bob] Scripted.bob
                Scripted.alice Scripted.bob true false eq_refl)
    as (Hreg & Hstart & Hvote & _ & _ & _ & _ & Hnight & _).
  cbv zeta. rewrite Hstart, Hvote, Hnight.
  split; [exact Hreg|]. repeat split; auto.
Defined.

(** * Further properties of the code *)

(** ** [retryTransaction] *)

Section RetryMore.
Context {L : Type} `{LedgerBackend L}.

Lemma retry_once {T} (operation : M L T) (delayMs : Z) (st : St L) :
  retryTransaction operation 1 delayMs st = operation st.
Proof.
  unfold retryTransaction. simpl. unfold try_catch.
  destruct (operation st) as [[v|e] st']; reflexivity.
Qed.

(** X1.  With a single attempt the executor is transparent: no message, no
    sleep, the outcome and the state of the operation itself. *)
Theorem retryTransaction_single_attempt {T} (operation : M L T) (delayMs : Z)
    (st : St L) :
  retryTransaction operation 1 delayMs st = operation st.
Proof. apply retry_once. Qed.

(** X2.  However the operation behaves, [retryTransaction] invokes it at most
    [maxAttempts] times, and not at all only when [maxAttempts <= 0]; it
    sleeps exactly once between two consecutive invocations, always for
    [delayMs]; and it leaves the object alone. *)
Theorem retryTransaction_attempt_bounds {T} (f : L -> Outcome T * L)
    (maxAttempts delayMs : Z) (st : St L) :
  exists evs,
    trace (snd (retryTransaction (attempt_of f) maxAttempts delayMs st))
    = trace st ++ evs
    /\ (count_attempts evs <= Z.to_nat maxAttempts)%nat
    /\ (count_attempts evs = O <-> maxAttempts <= 0)
    /\ count_sleeps evs = Nat.pred (count_attempts evs)
    /\ Forall (sleeps_last delayMs) evs
    /\ this (snd (retryTransaction (attempt_of f) maxAttempts delayMs st))
       = this st.
Proof.
  destruct (retry_loop_profile f maxAttempts delayMs (Z.to_nat maxAttempts) 1
              JsUndefined st)
    as (evs & Htr & Hle & Hpos & Hsl & Hall & _ & _ & Hthis); [f_equal; lia|].
  exists evs. unfold retryTransaction. repeat split; auto.
  - intros Hzero. destruct (Z.to_nat maxAttempts) eqn:E; [lia|].
    exfalso. apply Hpos; [discriminate|assumption].
  - intros Hneg. replace (Z.to_nat maxAttempts) with O in Hle by lia. lia.
Qed.

(** X3.  With at least one attempt allowed, what [retryTransaction] hands back
    is what its last invocation of the operation produced, value or error,
    together with the ledger that invocation left; and it throws only after
    all [maxAttempts] invocations. *)
Theorem retryTransaction_outcome_is_last_invocation {T}
    (f : L -> Outcome T * L) (maxAttempts delayMs : Z) (st : St L)
    (Hmax : 1 <= maxAttempts) :
  (exists l,
      f l = (fst (retryTransaction (attempt_of f) maxAttempts delayMs st),
             ledger (snd (retryTransaction (attempt_of f) maxAttempts delayMs st))))
  /\ (forall e,
        fst (retryTransaction (attempt_of f) maxAttempts delayMs st) = Throw e ->
        count_attempts
          (trace (snd (retryTransaction (attempt_of f) maxAttempts delayMs st)))
        = (count_attempts (trace st) + Z.to_nat maxAttempts)%nat).
Proof.
  destruct (retry_loop_profile f maxAttempts delayMs (Z.to_nat maxAttempts) 1
              JsUndefined st)
    as (evs & Htr & _ & _ & _ & _ & Hthrow & Hlast & _); [f_equal; lia|].
  unfold retryTransaction. split.
  - apply Hlast. lia.
  - intros e He. rewrite Htr, count_attempts_app. f_equal. eauto.
Qed.

Lemma retry_loop_recovers {T} (f : L -> Outcome T * L) (N d : Z) (v : T)
    (l' : L) :
  forall (k fuel : nat) (attempt : Z) (e0 : JsValue) (st : St L),
    fuel = Z.to_nat (N + 1 - attempt) ->
    (k < fuel)%nat ->
    recovers_after f k (ledger st) v l' ->
    exists evs,
      retry_loop (attempt_of f) N d fuel attempt e0 st
      = (Return v, mkSt (this st) l' (trace st ++ evs))
      /\ count_attempts evs = S k
      /\ count_sleeps evs = k.
Proof.
  induction k as [|k IH]; intros fuel attempt e0 st Hfuel Hk Hrec;
    (destruct fuel as [|fuel]; [lia|]);
    assert (Hle : (attempt <=? N) = true) by (apply Z.leb_le; lia);
    simpl retry_loop; rewrite Hle; unfold try_catch.
  - simpl in Hrec. rewrite (attempt_of_eq f st _ _ Hrec).
    exists [EvAttempt None]. repeat split.
  - destruct Hrec as (e & l1 & Hf & Hrec).
    rewrite (attempt_of_eq f st _ _ Hf).
    assert (Hlt : (attempt <? N) = true) by (apply Z.ltb_lt; lia).
    rewrite Hlt. unfold bind, console_log, sleep, record. cbn beta iota.
    cbn [this ledger trace failure_of]. rewrite <- !app_assoc. cbn [app].
    match goal with
    | |- context [retry_loop _ _ _ fuel ?a ?e ?s] => set (st2 := s)
    end.
    destruct (IH fuel (attempt + 1) e st2) as (evs & Hrun & Ha & Hs);
      [lia|lia|exact Hrec|].
    exists (EvAttempt (Some e) :: EvLog (AttemptFailed attempt d)
              :: EvSleep d :: evs).
    rewrite Hrun. subst st2. cbn [this trace]. rewrite <- app_assoc.
    repeat split.
    + change (S (count_attempts evs) = S (S k)). now rewrite Ha.
    + change (S (count_sleeps evs) = S k). now rewrite Hs.
Qed.

(** X4.  Failures are absorbed: an operation that fails [k] times in a row and
    then succeeds, with [k] smaller than [maxAttempts], makes
    [retryTransaction] return its value after [k + 1] invocations and [k]
    sleeps, whatever the errors were. *)
Theorem retryTransaction_recovers {T} (f : L -> Outcome T * L)
    (maxAttempts delayMs : Z) (st : St L) (k : nat) (v : T) (l' : L)
    (Hk : Z.of_nat k < maxAttempts)
    (Hrec : recovers_after f k (ledger st) v l') :
  exists evs,
    retryTransaction (attempt_of f) maxAttempts delayMs st
    = (Return v, mkSt (this st) l' (trace st ++ evs))
    /\ count_attempts evs = S k
    /\ count_sleeps evs = k.
Proof.
  unfold retryTransaction.
  apply (retry_loop_recovers f maxAttempts delayMs v l' k); auto; [f_equal|]; lia.
Qed.

End RetryMore.

Lemma retryTransaction_outcome_is_last_invocation_witness :
  let f := Scripted.exec (Scripted.alice_account)
             (mkCall Scripted.contract "vote" []) V3 in
  let st := Scripted.start Scripted.two_players
              (Scripted.mk [Throw (JsError "a"); Throw (JsError "b")] [] []) in
  (exists l,
      f l = (fst (retryTransaction (attempt_of f) 2 2000 st),
             ledger (snd (retryTransaction (attempt_of f) 2 2000 st))))
  /\ (forall e,
        fst (retryTransaction (attempt_of f) 2 2000 st) = Throw e ->
        count_attempts (trace (snd (retryTransaction (attempt_of f) 2 2000 st)))
        = (count_attempts (trace st) + Z.to_nat 2)%nat).
Proof.
  apply (retryTransaction_outcome_is_last_invocation
           (Scripted.exec (Scripted.alice_account)
              (mkCall Scripted.contract "vote" []) V3)
           2 2000
           (Scripted.start Scripted.two_players
              (Scripted.mk [Throw (JsError "a"); Throw (JsError "b")] [] []))).
  lia.
Defined.

Lemma retryTransaction_recovers_witness :
  let f := Scripted.exec (Scripted.alice_account)
             (mkCall Scripted.contract "vote" []) V3 in
  let st := Scripted.start Scripted.two_players
              (Scripted.mk [Throw (JsError "a"); Throw JsUndefined] [] []) in
  exists evs,
    retryTransaction (attempt_of f) 5 2000 st
    = (Return Scripted.confirmed_tx,
       mkSt (this st) Scripted.quiet (trace st ++ evs))
    /\ count_attempts evs = 3%nat
    /\ count_sleeps evs = 2%nat.
Proof.
  apply (retryTransaction_recovers
           (Scripted.exec (Scripted.alice_account)
              (mkCall Scripted.contract "vote" []) V3)
           5 2000
           (Scripted.start Scripted.two_players
              (Scripted.mk [Throw (JsError "a"); Throw JsUndefined] [] []))
           2 Scripted.confirmed_tx Scripted.quiet).
  - lia.
  - simpl. do 2 eexists. split; [reflexivity|].
    do 2 eexists. split; reflexivity.
Defined.

(** ** The registry *)

Lemma map_get_set (a b : string) (v : Account) (m : AccountMap) :
  map_get b (map_set a v m) = if String.eqb b a then Some v else map_get b m.
Proof.
  induction m as [|[k' v'] m IH]; simpl.
  - reflexivity.
  - destruct (String.eqb a k') eqn:Eak; simpl.
    + apply String.eqb_eq in Eak. subst k'.
      destruct (String.eqb b a); reflexivity.
    + destruct (String.eqb b k') eqn:Ebk.
      * apply String.eqb_eq in Ebk. subst k'.
        rewrite String.eqb_sym in Eak. now rewrite Eak.
      * exact IH.
Qed.

Section RegistryMore.
Context `{StarknetJs}.

(** X5.  Lookup after a registration.  When [addAccount a k] returns, the
    address as it was given resolves to the account object the library
    built from [a] and [k], also when the address was there before, and
    every other address resolves as it did.  When the library throws,
    [addAccount] throws the same value and there is no new registry. *)
Theorem addAccount_lookup (a k b : string) (g : Game) :
  match addAccount a k g with
  | Return g' =>
      exists acct,
        Account_new a k = Return acct
        /\ map_get b (accounts g')
           = if String.eqb b a then Some acct else map_get b (accounts g)
  | Throw e => Account_new a k = Throw e
  end.
Proof.
  unfold addAccount. destruct (Account_new a k) as [acct|e]; [|reflexivity].
  exists acct. split; [reflexivity|]. apply map_get_set.
Qed.

Lemma map_get_none_keys (a : string) (m : AccountMap) :
  map_get a m = None <-> ~ In a (map fst m).
Proof.
  induction m as [|[k v] m IH]; simpl.
  - tauto.
  - destruct (String.eqb a k) eqn:E.
    + apply String.eqb_eq in E. subst. split; [discriminate|tauto].
    + apply String.eqb_neq in E. rewrite IH. split.
      * intros Hn [Hk|Hin]; [congruence|tauto].
      * tauto.
Qed.

Lemma map_set_keys (a : string) (v : Account) (m : AccountMap) :
  map fst (map_set a v m)
  = match map_get a m with
    | Some _ => map fst m
    | None => map fst m ++ [a]
    end.
Proof.
  induction m as [|[k' v'] m IH]; simpl.
  - reflexivity.
  - destruct (String.eqb a k') eqn:E; simpl; [reflexivity|].
    rewrite IH. now destruct (map_get a m).
Qed.

Lemma map_set_nodup (a : string) (v : Account) (m : AccountMap) :
  NoDup (map fst m) -> NoDup (map fst (map_set a v m)).
Proof.
  intros Hnd. rewrite map_set_keys.
  destruct (map_get a m) eqn:E; [assumption|].
  apply map_get_none_keys in E.
  apply NoDup_app; [assumption|repeat constructor; simpl; tauto|].
  intros x Hx [Hy|[]]. subst. contradiction.
Qed.

(** X6.  A registration that returns keeps the addresses of the registry
    distinct and in the order of their first registration: an address
    already there keeps its place, a new one goes to the end. *)
Theorem addAccount_keys (a k : string) (g : Game) :
  match addAccount a k g with
  | Return g' =>
      map fst (accounts g')
      = match map_get a (accounts g) with
        | Some _ => map fst (accounts g)
        | None => map fst (accounts g) ++ [a]
        end
      /\ (NoDup (map fst (accounts g)) -> NoDup (map fst (accounts g')))
  | Throw e => Account_new a k = Throw e
  end.
Proof.
  unfold addAccount. destruct (Account_new a k) as [acct|e]; [|reflexivity].
  split; [apply map_set_keys|apply map_set_nodup].
Qed.

End RegistryMore.

(** ** A small program logic for the methods *)

Section SpecRules.
Context {L : Type} `{LedgerBackend L}.
Variable I : Game -> Prop.
Variable P : Event -> Prop.

Lemma spec_ret {T} (v : T) (Q : T -> Prop) :
  Q v -> spec (L:=L) I P (ret v) Q.
Proof.
  intros HQ st HI. cbn. repeat split; auto.
  - exists []. now rewrite app_nil_r.
  - intros v' E. inversion E; subst; assumption.
Qed.

Lemma spec_throw {T} (e : JsValue) (Q : T -> Prop) :
  spec (L:=L) I P (throw e) Q.
Proof.
  intros st HI. cbn. repeat split; auto.
  - exists []. now rewrite app_nil_r.
  - discriminate.
Qed.

Lemma spec_bind {A B} (c : M L A) (k : A -> M L B) (Q1 : A -> Prop)
    (Q : B -> Prop) :
  spec I P c Q1 -> (forall v, Q1 v -> spec I P (k v) Q) -> spec I P (bind c k) Q.
Proof.
  intros Hc Hk st HI. unfold bind.
  destruct (Hc st HI) as (HI1 & (evs1 & Htr1 & HP1) & HQ1).
  destruct (c st) as [[v|e] st1]; cbn [fst snd] in *.
  - destruct (Hk v (HQ1 v eq_refl) st1 HI1) as (HI2 & (evs2 & Htr2 & HP2) & HQ2).
    repeat split; auto.
    exists (evs1 ++ evs2). rewrite Htr2, Htr1, app_assoc. split; auto.
    apply Forall_app; auto.
  - repeat split; eauto. discriminate.
Qed.

Lemma spec_try_catch {T} (c : M L T) (h : JsValue -> M L T) (Q : T -> Prop) :
  spec I P c Q -> (forall e, spec I P (h e) Q) -> spec I P (try_catch c h) Q.
Proof.
  intros Hc Hh st HI. unfold try_catch.
  destruct (Hc st HI) as (HI1 & (evs1 & Htr1 & HP1) & HQ1).
  destruct (c st) as [[v|e] st1]; cbn [fst snd] in *.
  - repeat split; eauto.
  - destruct (Hh e st1 HI1) as (HI2 & (evs2 & Htr2 & HP2) & HQ2).
    repeat split; auto.
    exists (evs1 ++ evs2). rewrite Htr2, Htr1, app_assoc. split; auto.
    apply Forall_app; auto.
Qed.

Lemma spec_post {T} (c : M L T) (Q Q' : T -> Prop) :
  spec I P c Q -> (forall v, Q v -> Q' v) -> spec I P c Q'.
Proof.
  intros Hc HQ st HI. destruct (Hc st HI) as (HI1 & Htr & HQ1).
  repeat split; auto.
Qed.

Lemma spec_event {T} (v : T) (ev : Event) (l' : L) (st : St L) (Q : T -> Prop) :
  I (this st) -> P ev -> Q v ->
  I (this (snd (Return v, mkSt (this st) l' (trace st ++ [ev]))))
  /\ (exists evs,
        trace (snd (Return v, mkSt (this st) l' (trace st ++ [ev])))
        = trace st ++ evs /\ Forall P evs)
  /\ (forall v', fst (Return v, mkSt (this st) l' (trace st ++ [ev])) = Return v'
                 -> Q v').
Proof.
  intros HI HP HQ. cbn. repeat split; auto.
  - exists [ev]. split; auto.
  - intros v' E. inversion E; subst; assumption.
Qed.

Lemma spec_console_log (m : LogMsg) :
  P (EvLog m) -> spec (L:=L) I P (console_log m) (fun _ => True).
Proof. intros HP st HI. now apply spec_event. Qed.

Lemma spec_console_error (label : string) (e : JsValue) :
  P (EvConsoleError label e) ->
  spec (L:=L) I P (console_error label e) (fun _ => True).
Proof. intros HP st HI. now apply spec_event. Qed.

Lemma spec_sleep (ms : Z) :
  P (EvSleep ms) -> spec (L:=L) I P (sleep ms) (fun _ => True).
Proof. intros HP st HI. now apply spec_event. Qed.

Lemma spec_accounts_get (addr : string) :
  spec (L:=L) I P (accounts_get addr)
    (fun o => exists g, I g /\ o = map_get addr (accounts g)).
Proof.
  intros st HI. cbn. repeat split; auto.
  - exists []. now rewrite app_nil_r.
  - intros v E. inversion E; subst; eauto.
Qed.

Lemma spec_accounts_first :
  spec (L:=L) I P accounts_first
    (fun o => exists g, I g /\ o = map_first (accounts g)).
Proof.
  intros st HI. cbn. repeat split; auto.
  - exists []. now rewrite app_nil_r.
  - intros v E. inversion E; subst; eauto.
Qed.

Lemma spec_caller_or_first (caller : option string) :
  spec (L:=L) I P (caller_or_first caller)
    (fun o => exists g, I g /\ o = caller_account caller g).
Proof.
  intros st HI. rewrite caller_or_first_eq. cbn. repeat split; auto.
  - exists []. now rewrite app_nil_r.
  - intros v E. inversion E; subst; eauto.
Qed.

Lemma spec_this_contract_address :
  spec (L:=L) I P this_contract_address
    (fun v => exists g, I g /\ v = contract_address g).
Proof.
  intros st HI. cbn. repeat split; auto.
  - exists []. now rewrite app_nil_r.
  - intros v E. inversion E; subst; eauto.
Qed.

Lemma spec_CallData_compile (fields : Calldata) :
  spec (L:=L) I P (CallData_compile fields) (fun v => v = fields).
Proof.
  intros st HI. unfold CallData_compile.
  destruct (CallData_compile_throws fields) as [e|]; cbn; repeat split; auto;
    try (exists []; now rewrite app_nil_r); try discriminate.
  intros v E. now inversion E.
Qed.

Lemma spec_contract_connect (a : Account) :
  (forall g, I g -> I (connect a g)) ->
  spec (L:=L) I P (contract_connect a) (fun _ => True).
Proof.
  intros Hconn st HI. cbn. repeat split; auto.
  exists []. now rewrite app_nil_r.
Qed.

Lemma spec_execute (a : Account) (c : Call) (v : TxVersion) :
  P (EvExecute a c v) -> spec I P (execute a c v) (fun _ => True).
Proof.
  intros HP st HI. unfold execute.
  destruct (account_execute a c v (ledger st)) as [[tx|e] l']; cbn;
    repeat split; auto; exists [EvExecute a c v]; auto.
Qed.

Lemma spec_waitForTransaction (hash : string) :
  P (EvWait hash) -> spec I P (waitForTransaction hash) (fun _ => True).
Proof.
  intros HP st HI. unfold waitForTransaction.
  destruct (provider_waitForTransaction hash (ledger st)) as [[u|e] l']; cbn;
    repeat split; auto; exists [EvWait hash]; auto.
Qed.

Lemma spec_get_game_state (gameId : Z) :
  P (EvQuery gameId) -> spec I P (get_game_state gameId) (fun _ => True).
Proof.
  intros HP st HI. unfold get_game_state.
  destruct (contract_get_game_state gameId (ledger st)) as [[gs|e] l']; cbn;
    repeat split; auto; exists [EvQuery gameId]; auto.
Qed.

Lemma spec_retry_loop {T} (op : M L T) (N d : Z) (Q : T -> Prop) :
  spec I P op Q ->
  (forall k, P (EvLog (AttemptFailed k d))) ->
  P (EvLog (AllAttemptsFailed N)) ->
  P (EvSleep d) ->
  forall fuel attempt e, spec I P (retry_loop op N d fuel attempt e) Q.
Proof.
  intros Hop Hlog Hall Hsleep.
  induction fuel as [|fuel IH]; intros attempt e; simpl.
  - apply spec_throw.
  - destruct (attempt <=? N); [|apply spec_throw].
    apply spec_try_catch; [assumption|]. intros error.
    apply spec_bind with (Q1 := fun _ => True); [|intros _ _; apply IH].
    destruct (attempt <? N); [|destruct (1 <? N)].
    + apply spec_bind with (Q1 := fun _ => True).
      * now apply spec_console_log.
      * intros _ _. now apply spec_sleep.
    + now apply spec_console_log.
    + now apply spec_ret.
Qed.

Lemma spec_retryTransaction {T} (op : M L T) (N d : Z) (Q : T -> Prop) :
  spec I P op Q ->
  (forall k, P (EvLog (AttemptFailed k d))) ->
  P (EvLog (AllAttemptsFailed N)) ->
  P (EvSleep d) ->
  spec I P (retryTransaction op N d) Q.
Proof. intros. now apply spec_retry_loop. Qed.

End SpecRules.

Lemma caller_account_same_registry (caller : option string) (g0 g : Game) :
  same_registry g0 g -> caller_account caller g = caller_account caller g0.
Proof. intros [Ha _]. unfold caller_account. now rewrite Ha. Qed.

Ltac spec_side :=
  cbn [method_event];
  repeat match goal with
         | H : exists _, _ |- _ => destruct H
         | Hs : same_registry ?g0 ?g, Hc : context [caller_account ?c ?g] |- _ =>
             rewrite (caller_account_same_registry c g0 g Hs) in Hc
         | H : _ /\ _ |- _ => destruct H
         | H : same_registry _ _ |- _ => destruct H
         end;
  unfold same_registry; cbn [contract_address accounts connect];
  try solve [intuition congruence | cbn; exact I | cbn; intuition congruence].

Ltac spec_go :=
  cbv zeta;
  lazymatch goal with
  | |- spec _ _ (bind _ _) _ =>
      eapply spec_bind;
      [ spec_go
      | let v := fresh "v" in
        let Hv := fresh "Hv" in
        intros v Hv; cbv beta in Hv; spec_go ]
  | |- spec _ _ (try_catch _ _) _ =>
      apply spec_try_catch; [ spec_go | intros ?; spec_go ]
  | |- spec _ _ (retryTransaction _ _ _) _ =>
      apply spec_retryTransaction;
      [ spec_go | intros ?; spec_side | spec_side | spec_side ]
  | |- spec _ _ (ret _) _ => apply spec_ret; spec_side
  | |- spec _ _ (throw _) _ => apply spec_throw
  | |- spec _ _ (console_log _) _ => apply spec_console_log; spec_side
  | |- spec _ _ (console_error _ _) _ => apply spec_console_error; spec_side
  | |- spec _ _ (sleep _) _ => apply spec_sleep; spec_side
  | |- spec _ _ (accounts_get _) _ => apply spec_accounts_get
  | |- spec _ _ accounts_first _ => apply spec_accounts_first
  | |- spec _ _ (caller_or_first _) _ => apply spec_caller_or_first
  | |- spec _ _ this_contract_address _ => apply spec_this_contract_address
  | |- spec _ _ (CallData_compile _) _ => apply spec_CallData_compile
  | |- spec _ _ (contract_connect _) _ => apply spec_contract_connect; spec_side
  | |- spec _ _ (execute _ _ _) _ => apply spec_execute; spec_side
  | |- spec _ _ (waitForTransaction _) _ =>
      apply spec_waitForTransaction; spec_side
  | |- spec _ _ (get_game_state _) _ => apply spec_get_game_state; spec_side
  | |- spec _ _ (night_action_catch ?e) _ =>
      unfold night_action_catch; destruct e; spec_go
  | |- spec _ _ (werewolfAction_catch _) _ =>
      unfold werewolfAction_catch; spec_go
  | |- spec _ _ (match ?o with Some _ => _ | None => _ end) _ =>
      destruct o; spec_go
  | |- spec _ _ (if ?b then _ else _) _ => destruct b; spec_go
  end.

Section MethodSpecs.
Context {L : Type} `{LedgerBackend L}.

Lemma vote_spec (gameId : Z) (target actor : string) (g0 : Game) :
  spec (L:=L) (same_registry g0)
    (method_event (map_get actor (accounts g0))
       (mkCall (contract_address g0) "vote"
          [("game_id", ArgNumber gameId); ("target", ArgAddress target)])
       "Error voting:")
    (vote gameId target actor) (fun _ => True).
Proof. unfold vote. spec_go. Qed.

Lemma startGame_spec (gameId : Z) (players : list string) (actor : string)
    (g0 : Game) :
  spec (L:=L) (same_registry g0)
    (method_event (map_get actor (accounts g0))
       (mkCall (contract_address g0) "start_game"
          [("game_id", ArgNumber gameId); ("players", ArgAddresses players)])
       "Error starting game:")
    (startGame gameId players actor) (fun _ => True).
Proof. unfold startGame. spec_go. Qed.

Lemma werewolfAction_spec (gameId : Z) (target actor : string) (g0 : Game) :
  spec (L:=L) (same_registry g0)
    (method_event (map_get actor (accounts g0))
       (night_call g0 gameId target) "Error performing night action:")
    (werewolfAction gameId target actor) (fun _ => True).
Proof. unfold werewolfAction, night_call. spec_go. Qed.

Lemma cupidAction_spec (gameId : Z) (lover1 lover2 actor : string) (g0 : Game) :
  spec (L:=L) (same_registry g0)
    (method_event (map_get actor (accounts g0))
       (mkCall (contract_address g0) "cupid_action"
          [("game_id", ArgNumber gameId); ("lover1", ArgAddress lover1);
           ("lover2", ArgAddress lover2)])
       "Error pairing lovers:")
    (cupidAction gameId lover1 lover2 actor) (fun _ => True).
Proof. unfold cupidAction. spec_go. Qed.

Lemma endVoting_spec (gameId : Z) (g0 : Game) :
  spec (L:=L) (same_registry g0)
    (method_event (map_first (accounts g0))
       (mkCall (contract_address g0) "end_voting" [("game_id", ArgNumber gameId)])
       "Error ending voting phase:")
    (endVoting gameId) (fun _ => True).
Proof. unfold endVoting. spec_go. Qed.

Lemma passNight_spec (gameId : Z) (caller : option string) (g0 : Game) :
  spec (L:=L) (same_registry g0)
    (method_event (caller_account caller g0)
       (mkCall (contract_address g0) "pass_night" [("game_id", ArgNumber gameId)])
       "Error transitioning to day phase:")
    (passNight gameId caller) (fun _ => True).
Proof. unfold passNight. spec_go. Qed.

Lemma passDay_spec (gameId : Z) (caller : option string) (g0 : Game) :
  spec (L:=L) (same_registry g0)
    (method_event (caller_account caller g0)
       (mkCall (contract_address g0) "pass_day" [("game_id", ArgNumber gameId)])
       "Error transitioning to night phase:")
    (passDay gameId caller) (fun _ => True).
Proof. unfold passDay. spec_go. Qed.

Lemma witchAction_spec (gameId : Z) (target : string) (save poison : bool)
    (actor : string) (g0 : Game) :
  spec (L:=L) (same_registry g0)
    (method_event (map_get actor (accounts g0))
       (mkCall (contract_address g0) "witch_action"
          [("game_id", ArgNumber gameId); ("target", ArgAddress target);
           ("save", ArgNumber (if save then 1 else 0));
           ("poison", ArgNumber (if poison then 1 else 0))])
       "Error performing witch action:")
    (witchAction gameId target save poison actor) (fun _ => True).
Proof. unfold witchAction. spec_go. Qed.

Lemma hunterAction_spec (gameId : Z) (target actor : string) (g0 : Game) :
  spec (L:=L) (same_registry g0)
    (method_event (map_get actor (accounts g0))
       (mkCall (contract_address g0) "hunter_action"
          [("game_id", ArgNumber gameId); ("target", ArgAddress target)])
       "Error performing hunter action:")
    (hunterAction gameId target actor) (fun _ => True).
Proof. unfold hunterAction. spec_go. Qed.

Lemma spec_at {T} (g0 : Game) (P : Event -> Prop) (c : M L T) (st : St L) :
  this st = g0 ->
  spec (same_registry g0) P c (fun _ => True) ->
  same_registry g0 (this (snd (c st))) /\ run_adds c st P.
Proof.
  intros Hg Hc. destruct (Hc st) as (HI & Hev & _).
  - subst. split; reflexivity.
  - split; assumption.
Qed.

(** X8.  No method ever adds, removes or replaces an entry of the registry, or
    changes the contract address, whatever the ledger answers and whether
    the method returns or throws. *)
Theorem methods_keep_registry (gameId : Z) (players : list string)
    (target lover1 lover2 actor : string) (save poison : bool)
    (caller : option string) (st : St L) :
  same_registry (this st) (this (snd (startGame gameId players actor st)))
  /\ same_registry (this st) (this (snd (vote gameId target actor st)))
  /\ same_registry (this st) (this (snd (werewolfAction gameId target actor st)))
  /\ same_registry (this st)
       (this (snd (cupidAction gameId lover1 lover2 actor st)))
  /\ same_registry (this st) (this (snd (endVoting gameId st)))
  /\ same_registry (this st) (this (snd (passNight gameId caller st)))
  /\ same_registry (this st) (this (snd (passDay gameId caller st)))
  /\ same_registry (this st)
       (this (snd (witchAction gameId target save poison actor st)))
  /\ same_registry (this st) (this (snd (hunterAction gameId target actor st))).
Proof.
  pose proof (fun T P (c : M L T) Hc =>
                proj1 (spec_at (this st) P c st eq_refl Hc)) as keep.
  split; [exact (keep _ _ _ (startGame_spec gameId players actor (this st)))|].
  split; [exact (keep _ _ _ (vote_spec gameId target actor (this st)))|].
  split; [exact (keep _ _ _ (werewolfAction_spec gameId target actor (this st)))|].
  split; [exact (keep _ _ _ (cupidAction_spec gameId lover1 lover2 actor (this st)))|].
  split; [exact (keep _ _ _ (endVoting_spec gameId (this st)))|].
  split; [exact (keep _ _ _ (passNight_spec gameId caller (this st)))|].
  split; [exact (keep _ _ _ (passDay_spec gameId caller (this st)))|].
  split; [exact (keep _ _ _ (witchAction_spec gameId target save poison actor (this st)))|].
  exact (keep _ _ _ (hunterAction_spec gameId target actor (this st))).
Qed.

(** X9.  Whatever the ledger answers, the only transactions a method submits
    are its own call (its entry point of the configured contract, with the
    calldata built from its arguments), signed by the account it resolved
    and sent as version 3; when no account resolves, nothing is submitted.
    It sleeps only for the default delay of 2000 ms and writes
    [console.error] only under its own label. *)
Theorem methods_submit_only_their_call (gameId : Z) (players : list string)
    (target lover1 lover2 actor : string) (save poison : bool)
    (caller : option string) (st : St L) :
  run_adds (startGame gameId players actor) st
    (method_event (map_get actor (accounts (this st)))
       (mkCall (contract_address (this st)) "start_game"
          [("game_id", ArgNumber gameId); ("players", ArgAddresses players)])
       "Error starting game:")
  /\ run_adds (vote gameId target actor) st
       (method_event (map_get actor (accounts (this st)))
          (mkCall (contract_address (this st)) "vote"
             [("game_id", ArgNumber gameId); ("target", ArgAddress target)])
          "Error voting:")
  /\ run_adds (werewolfAction gameId target actor) st
       (method_event (map_get actor (accounts (this st)))
          (mkCall (contract_address (this st)) "night_action"
             [("game_id", ArgNumber gameId); ("target", ArgAddress target)])
          "Error performing night action:")
  /\ run_adds (cupidAction gameId lover1 lover2 actor) st
       (method_event (map_get actor (accounts (this st)))
          (mkCall (contract_address (this st)) "cupid_action"
             [("game_id", ArgNumber gameId); ("lover1", ArgAddress lover1);
              ("lover2", ArgAddress lover2)])
          "Error pairing lovers:")
  /\ run_adds (endVoting gameId) st
       (method_event (map_first (accounts (this st)))
          (mkCall (contract_address (this st)) "end_voting"
             [("game_id", ArgNumber gameId)])
          "Error ending voting phase:")
  /\ run_adds (passNight gameId caller) st
       (method_event (caller_account caller (this st))
          (mkCall (contract_address (this st)) "pass_night"
             [("game_id", ArgNumber gameId)])
          "Error transitioning to day phase:")
  /\ run_adds (passDay gameId caller) st
       (method_event (caller_account caller (this st))
          (mkCall (contract_address (this st)) "pass_day"
             [("game_id", ArgNumber gameId)])
          "Error transitioning to night phase:")
  /\ run_adds (witchAction gameId target save poison actor) st
       (method_event (map_get actor (accounts (this st)))
          (mkCall (contract_address (this st)) "witch_action"
             [("game_id", ArgNumber gameId); ("target", ArgAddress target);
              ("save", ArgNumber (if save then 1 else 0));
              ("poison", ArgNumber (if poison then 1 else 0))])
          "Error performing witch action:")
  /\ run_adds (hunterAction gameId target actor) st
       (method_event (map_get actor (accounts (this st)))
          (mkCall (contract_address (this st)) "hunter_action"
             [("game_id", ArgNumber gameId); ("target", ArgAddress target)])
          "Error performing hunter action:").
Proof.
  pose proof (fun T P (c : M L T) Hc =>
                proj2 (spec_at (this st) P c st eq_refl Hc)) as adds.
  split; [exact (adds _ _ _ (startGame_spec gameId players actor (this st)))|].
  split; [exact (adds _ _ _ (vote_spec gameId target actor (this st)))|].
  split; [exact (adds _ _ _ (werewolfAction_spec gameId target actor (this st)))|].
  split; [exact (adds _ _ _ (cupidAction_spec gameId lover1 lover2 actor (this st)))|].
  split; [exact (adds _ _ _ (endVoting_spec gameId (this st)))|].
  split; [exact (adds _ _ _ (passNight_spec gameId caller (this st)))|].
  split; [exact (adds _ _ _ (passDay_spec gameId caller (this st)))|].
  split; [exact (adds _ _ _ (witchAction_spec gameId target save poison actor (this st)))|].
  exact (adds _ _ _ (hunterAction_spec gameId target actor (this st))).
Qed.

End MethodSpecs.

(** ** Counting submissions and sleeps *)

Section Counting.
Context {L : Type} `{LedgerBackend L}.

Lemma adds_silent {T} (c : M L T) :
  (forall st, trace (snd (c st)) = trace st
              \/ exists ev, trace (snd (c st)) = trace st ++ [ev]
                            /\ is_execute ev = false /\ is_sleep ev = false) ->
  adds_at_most 0 0 c.
Proof.
  intros Hc st. destruct (Hc st) as [E|(ev & E & Hx & Hs)]; rewrite E.
  - split; lia.
  - rewrite count_executes_app, count_sleeps_app.
    unfold count_executes, count_sleeps. simpl. rewrite Hx, Hs. simpl. lia.
Qed.

Lemma adds_ret {T} (v : T) : adds_at_most (L:=L) 0 0 (ret v).
Proof. apply adds_silent. intros st. now left. Qed.

Lemma adds_throw {T} (e : JsValue) : adds_at_most 0 0 (@throw L T e).
Proof. apply adds_silent. intros st. now left. Qed.

Lemma adds_console_log (m : LogMsg) : adds_at_most (L:=L) 0 0 (console_log m).
Proof. apply adds_silent. intros st. right. eexists. repeat split. Qed.

Lemma adds_console_error (label : string) (e : JsValue) :
  adds_at_most (L:=L) 0 0 (console_error label e).
Proof. apply adds_silent. intros st. right. eexists. repeat split. Qed.

Lemma adds_accounts_get (a : string) : adds_at_most (L:=L) 0 0 (accounts_get a).
Proof. apply adds_silent. intros st. now left. Qed.

Lemma adds_accounts_first : adds_at_most (L:=L) 0 0 accounts_first.
Proof. apply adds_silent. intros st. now left. Qed.

Lemma adds_caller_or_first (caller : option string) :
  adds_at_most (L:=L) 0 0 (caller_or_first caller).
Proof. apply adds_silent. intros st. rewrite caller_or_first_eq. now left. Qed.

Lemma adds_this_contract_address : adds_at_most (L:=L) 0 0 this_contract_address.
Proof. apply adds_silent. intros st. now left. Qed.

Lemma adds_contract_connect (a : Account) :
  adds_at_most (L:=L) 0 0 (contract_connect a).
Proof. apply adds_silent. intros st. now left. Qed.

Lemma adds_CallData_compile (fields : Calldata) :
  adds_at_most (L:=L) 0 0 (CallData_compile fields).
Proof.
  apply adds_silent. intros st. unfold CallData_compile.
  destruct (CallData_compile_throws fields); now left.
Qed.

Lemma adds_waitForTransaction (hash : string) :
  adds_at_most 0 0 (waitForTransaction hash).
Proof.
  apply adds_silent. intros st. right. unfold waitForTransaction.
  destruct (provider_waitForTransaction hash (ledger st)); eexists; repeat split.
Qed.

Lemma adds_get_game_state (gameId : Z) :
  adds_at_most 0 0 (get_game_state gameId).
Proof.
  apply adds_silent. intros st. right. unfold get_game_state.
  destruct (contract_get_game_state gameId (ledger st)); eexists; repeat split.
Qed.

Lemma adds_execute (a : Account) (c : Call) (v : TxVersion) :
  adds_at_most 1 0 (execute a c v).
Proof.
  intros st. unfold execute.
  destruct (account_execute a c v (ledger st)); cbn [snd trace];
    rewrite count_executes_app, count_sleeps_app; cbn; lia.
Qed.

Lemma adds_sleep (ms : Z) : adds_at_most (L:=L) 0 1 (sleep ms).
Proof.
  intros st. cbn [sleep record snd trace].
  rewrite count_executes_app, count_sleeps_app. cbn. lia.
Qed.

Lemma adds_weaken {T} (c : M L T) (x s x' s' : nat) :
  adds_at_most x s c -> (x <= x')%nat -> (s <= s')%nat -> adds_at_most x' s' c.
Proof. intros Hc Hx Hs st. destruct (Hc st). split; lia. Qed.

Lemma adds_bind {A B} (c : M L A) (k : A -> M L B) (x1 s1 x2 s2 : nat) :
  adds_at_most x1 s1 c -> (forall v, adds_at_most x2 s2 (k v)) ->
  adds_at_most (x1 + x2) (s1 + s2) (bind c k).
Proof.
  intros Hc Hk st. unfold bind. destruct (Hc st) as [Hx Hs].
  destruct (c st) as [[v|e] st1]; cbn [snd] in *.
  - destruct (Hk v st1). split; lia.
  - split; lia.
Qed.

Lemma adds_try_catch {T} (c : M L T) (h : JsValue -> M L T)
    (x1 s1 x2 s2 : nat) :
  adds_at_most x1 s1 c -> (forall e, adds_at_most x2 s2 (h e)) ->
  adds_at_most (x1 + x2) (s1 + s2) (try_catch c h).
Proof.
  intros Hc Hh st. unfold try_catch. destruct (Hc st) as [Hx Hs].
  destruct (c st) as [[v|e] st1]; cbn [snd] in *.
  - split; lia.
  - destruct (Hh e st1). split; lia.
Qed.

Lemma adds_option {A T} (o : option A) (some : A -> M L T) (none : M L T)
    (x1 s1 x2 s2 : nat) :
  (forall a, adds_at_most x1 s1 (some a)) -> adds_at_most x2 s2 none ->
  adds_at_most (Nat.max x1 x2) (Nat.max s1 s2)
    (match o with Some a => some a | None => none end).
Proof.
  intros Hs Hn. destruct o as [a|].
  - eapply adds_weaken; [apply Hs| |]; lia.
  - eapply adds_weaken; [apply Hn| |]; lia.
Qed.

Lemma adds_retry_loop {T} (op : M L T) (N d : Z) (x : nat) :
  adds_at_most x 0 op ->
  forall fuel attempt e,
    fuel = Z.to_nat (N + 1 - attempt) ->
    adds_at_most (fuel * x) (Nat.pred fuel) (retry_loop op N d fuel attempt e).
Proof.
  intros Hop. induction fuel as [|fuel IH]; intros attempt e Hfuel.
  - apply adds_throw.
  - simpl retry_loop.
    assert (Hle : (attempt <=? N) = true) by (apply Z.leb_le; lia).
    rewrite Hle.
    destruct (Z.ltb_spec attempt N) as [Hlt|Hge].
    + eapply adds_weaken.
      * apply adds_try_catch; [exact Hop|]. intros error.
        apply adds_bind.
        -- apply adds_bind; [apply adds_console_log|intros _; apply adds_sleep].
        -- intros _. apply (IH (attempt + 1) error). lia.
      * simpl. lia.
      * simpl. lia.
    + assert (fuel = O) by lia. subst fuel.
      eapply adds_weaken.
      * apply adds_try_catch; [exact Hop|]. intros error.
        apply adds_bind with (x1 := O) (s1 := O).
        -- destruct (1 <? N); [apply adds_console_log|apply adds_ret].
        -- intros _. apply adds_throw.
      * simpl. lia.
      * simpl. lia.
Qed.

Lemma adds_retryTransaction {T} (op : M L T) (N d : Z) (x : nat) :
  adds_at_most x 0 op ->
  adds_at_most (Z.to_nat N * x) (Nat.pred (Z.to_nat N)) (retryTransaction op N d).
Proof. intros Hop. apply adds_retry_loop; [assumption|f_equal; lia]. Qed.

Lemma adds_night_action_catch (e : JsValue) :
  adds_at_most (L:=L) 0 0 (night_action_catch e).
Proof.
  unfold night_action_catch.
  destruct e; [apply adds_throw| |];
    (destruct (message_includes _ _); [|apply adds_throw];
     apply (adds_bind _ _ 0 0 0 0); [apply adds_console_log|intros _; apply adds_ret]).
Qed.

Lemma adds_werewolfAction_catch (e : JsValue) :
  adds_at_most (L:=L) 0 0 (werewolfAction_catch e).
Proof.
  unfold werewolfAction_catch.
  destruct (_ && _).
  - apply (adds_bind _ _ 0 0 0 0); [apply adds_console_log|intros _; apply adds_ret].
  - apply (adds_bind _ _ 0 0 0 0); [apply adds_console_error|intros _; apply adds_throw].
Qed.

End Counting.

Ltac adds_go :=
  cbv zeta;
  lazymatch goal with
  | |- adds_at_most _ _ (bind _ _) =>
      eapply adds_bind; [ adds_go | intros ?; adds_go ]
  | |- adds_at_most _ _ (try_catch _ _) =>
      eapply adds_try_catch; [ adds_go | intros ?; adds_go ]
  | |- adds_at_most _ _ (retryTransaction _ _ _) =>
      eapply adds_retryTransaction;
      eapply adds_weaken; [ adds_go | cbn; reflexivity | cbn; lia ]
  | |- adds_at_most _ _ (ret _) => apply adds_ret
  | |- adds_at_most _ _ (throw _) => apply adds_throw
  | |- adds_at_most _ _ (console_log _) => apply adds_console_log
  | |- adds_at_most _ _ (console_error _ _) => apply adds_console_error
  | |- adds_at_most _ _ (sleep _) => apply adds_sleep
  | |- adds_at_most _ _ (accounts_get _) => apply adds_accounts_get
  | |- adds_at_most _ _ accounts_first => apply adds_accounts_first
  | |- adds_at_most _ _ (caller_or_first _) => apply adds_caller_or_first
  | |- adds_at_most _ _ this_contract_address => apply adds_this_contract_address
  | |- adds_at_most _ _ (contract_connect _) => apply adds_contract_connect
  | |- adds_at_most _ _ (CallData_compile _) => apply adds_CallData_compile
  | |- adds_at_most _ _ (execute _ _ _) => apply adds_execute
  | |- adds_at_most _ _ (waitForTransaction _) => apply adds_waitForTransaction
  | |- adds_at_most _ _ (get_game_state _) => apply adds_get_game_state
  | |- adds_at_most _ _ (night_action_catch _) => apply adds_night_action_catch
  | |- adds_at_most _ _ (werewolfAction_catch _) => apply adds_werewolfAction_catch
  | |- adds_at_most _ _ (match ?o with Some a => @?some a | None => ?none end) =>
      eapply (adds_option o some none); [ intros ?; adds_go | adds_go ]
  end.

Ltac adds_method := eapply adds_weaken; [ adds_go | cbn; lia | cbn; lia ].

Section MethodCounts.
Context {L : Type} `{LedgerBackend L}.

(** X10.  Whatever the ledger answers, a method submits at most five
    transactions and sleeps at most four times; [werewolfAction] and
    [endVoting] submit at most one and never sleep. *)
Theorem methods_bounded_submissions (gameId : Z) (players : list string)
    (target lover1 lover2 actor : string) (save poison : bool)
    (caller : option string) :
  adds_at_most (L:=L) 5 4 (startGame gameId players actor)
  /\ adds_at_most (L:=L) 5 4 (vote gameId target actor)
  /\ adds_at_most (L:=L) 1 0 (werewolfAction gameId target actor)
  /\ adds_at_most (L:=L) 5 4 (cupidAction gameId lover1 lover2 actor)
  /\ adds_at_most (L:=L) 1 0 (endVoting gameId)
  /\ adds_at_most (L:=L) 5 4 (passNight gameId caller)
  /\ adds_at_most (L:=L) 5 4 (passDay gameId caller)
  /\ adds_at_most (L:=L) 5 4 (witchAction gameId target save poison actor)
  /\ adds_at_most (L:=L) 5 4 (hunterAction gameId target actor).
Proof.
  split; [unfold startGame; adds_method|].
  split; [unfold vote; adds_method|].
  split; [unfold werewolfAction; adds_method|].
  split; [unfold cupidAction; adds_method|].
  split; [unfold endVoting; adds_method|].
  split; [unfold passNight; adds_method|].
  split; [unfold passDay; adds_method|].
  split; [unfold witchAction; adds_method|].
  unfold hunterAction; adds_method.
Qed.

End MethodCounts.

(** ** What a returned transaction means *)

Section ReturnRules.
Context {L : Type} `{LedgerBackend L}.

Lemma returns_throw {T} (Q : T -> L -> Prop) (e : JsValue) :
  returns_only Q (throw e).
Proof. intros st v st' E. discriminate. Qed.

Lemma returns_bind {A B} (Q : B -> L -> Prop) (c : M L A) (k : A -> M L B) :
  (forall v, returns_only Q (k v)) -> returns_only Q (bind c k).
Proof.
  intros Hk st v st' E. unfold bind in E.
  destruct (c st) as [[x|e] st1]; [|discriminate].
  eapply Hk; eauto.
Qed.

Lemma returns_try_catch {T} (Q : T -> L -> Prop) (c : M L T)
    (h : JsValue -> M L T) :
  returns_only Q c -> (forall e, returns_only Q (h e)) ->
  returns_only Q (try_catch c h).
Proof.
  intros Hc Hh st v st' E. unfold try_catch in E.
  destruct (c st) as [[x|e] st1] eqn:Ec.
  - inversion E; subst. eapply Hc; eauto.
  - eapply Hh; eauto.
Qed.

Lemma returns_retry_loop {T} (Q : T -> L -> Prop) (op : M L T) (N d : Z) :
  returns_only Q op ->
  forall fuel attempt e, returns_only Q (retry_loop op N d fuel attempt e).
Proof.
  intros Hop. induction fuel as [|fuel IH]; intros attempt e; simpl.
  - apply returns_throw.
  - destruct (attempt <=? N); [|apply returns_throw].
    apply returns_try_catch; [assumption|]. intros error.
    apply returns_bind. intros _. apply IH.
Qed.

Lemma returns_retryTransaction {T} (Q : T -> L -> Prop) (op : M L T) (N d : Z) :
  returns_only Q op -> returns_only Q (retryTransaction op N d).
Proof. intros Hop. now apply returns_retry_loop. Qed.

Lemma returns_at {T} (Q : T -> L -> Prop) (c : M L T) (st : St L) (v : T) :
  returns_only Q c -> fst (c st) = Return v -> Q v (ledger (snd (c st))).
Proof.
  intros Hc E. destruct (c st) as [r st'] eqn:Ec. cbn [fst snd] in *. subst r.
  eapply Hc; eauto.
Qed.

End ReturnRules.

(** Inversion of a closure that submits and waits: the two calls to the
    ledger are the only places where it can fail. *)
Ltac closure_inv :=
  let st := fresh "st" in
  let v := fresh "v" in
  let st' := fresh "st'" in
  intros st v st'; run;
  repeat match goal with
         | |- context [account_execute ?a ?c ?w ?l] =>
             let E := fresh "Eexec" in
             destruct (account_execute a c w l) as [[?|?] ?] eqn:E; run
         | |- context [provider_waitForTransaction ?h ?l] =>
             let E := fresh "Ewait" in
             destruct (provider_waitForTransaction h l) as [[[]|?] ?] eqn:E; run
         end;
  let Hrun := fresh "Hrun" in
  intros Hrun; inversion Hrun; subst; cbn [ledger];
  unfold confirmed_by_ledger; eauto 10.

Ltac returns_go :=
  cbv zeta;
  lazymatch goal with
  | |- returns_only _ (try_catch _ (fun error => console_error _ error ;; throw error)) =>
      apply returns_try_catch;
      [ returns_go | intros ?; apply returns_bind; intros ?; apply returns_throw ]
  | |- returns_only _ (retryTransaction _ _ _) =>
      apply returns_retryTransaction; closure_inv
  | |- returns_only _ (bind _ _) => apply returns_bind; intros ?; returns_go
  | |- returns_only _ (throw _) => apply returns_throw
  | |- returns_only _ (match ?o with Some _ => _ | None => _ end) =>
      destruct o; returns_go
  end.

Section ReturnFacts.
Context {L : Type} `{LedgerBackend L}.

Lemma startGame_returns (gameId : Z) (players : list string) (actor : string) :
  returns_only (L:=L) confirmed_by_ledger (startGame gameId players actor).
Proof. unfold startGame. returns_go. Qed.

Lemma vote_returns (gameId : Z) (target actor : string) :
  returns_only (L:=L) confirmed_by_ledger (vote gameId target actor).
Proof. unfold vote. returns_go. Qed.

Lemma cupidAction_returns (gameId : Z) (lover1 lover2 actor : string) :
  returns_only (L:=L) confirmed_by_ledger (cupidAction gameId lover1 lover2 actor).
Proof. unfold cupidAction. returns_go. Qed.

Lemma passNight_returns (gameId : Z) (caller : option string) :
  returns_only (L:=L) confirmed_by_ledger (passNight gameId caller).
Proof. unfold passNight. returns_go. Qed.

Lemma passDay_returns (gameId : Z) (caller : option string) :
  returns_only (L:=L) confirmed_by_ledger (passDay gameId caller).
Proof. unfold passDay. returns_go. Qed.

Lemma witchAction_returns (gameId : Z) (target : string) (save poison : bool)
    (actor : string) :
  returns_only (L:=L) confirmed_by_ledger
    (witchAction gameId target save poison actor).
Proof. unfold witchAction. returns_go. Qed.

Lemma hunterAction_returns (gameId : Z) (target actor : string) :
  returns_only (L:=L) confirmed_by_ledger (hunterAction gameId target actor).
Proof. unfold hunterAction. returns_go. Qed.

Lemma endVoting_returns (gameId : Z) :
  returns_only (L:=L) confirmed_by_ledger (endVoting gameId).
Proof.
  unfold endVoting. apply returns_try_catch.
  - apply returns_bind. intros [a|]; [|apply returns_throw].
    apply returns_bind. intros _. apply returns_bind. intros calldata.
    closure_inv.
  - intros e. apply returns_bind. intros _. apply returns_throw.
Qed.

Lemma werewolfAction_returns (gameId : Z) (target actor : string) :
  returns_only (L:=L)
    (fun tx l => confirmed_by_ledger tx l \/ tx = protected_target_handled)
    (werewolfAction gameId target actor).
Proof.
  unfold werewolfAction. apply returns_try_catch.
  - apply returns_bind. intros [a|]; [|apply returns_throw].
    apply returns_bind. intros _. apply returns_bind. intros calldata.
    apply returns_retryTransaction.
    apply returns_bind. intros _. apply returns_try_catch.
    + intros st v st'. generalize st v st'. closure_inv.
    + intros e st v st'. unfold night_action_catch.
      destruct e; [discriminate| |];
        (destruct (message_includes _ _); [|discriminate]);
        intros E; inversion E; auto.
  - intros e st v st'. unfold werewolfAction_catch.
    destruct (_ && _); intros E; [inversion E; auto|discriminate].
Qed.

(** X11.  A method returns a transaction only when the ledger accepted that very
    transaction and then confirmed it, and the ledger it leaves is the one
    right after that confirmation.  [werewolfAction] alone can also return
    the object it makes up for a protected target. *)
Theorem returned_transaction_was_confirmed (gameId : Z) (players : list string)
    (target lover1 lover2 actor : string) (save poison : bool)
    (caller : option string) (st : St L) (tx : Tx) :
  (fst (startGame gameId players actor st) = Return tx ->
   confirmed_by_ledger tx (ledger (snd (startGame gameId players actor st))))
  /\ (fst (vote gameId target actor st) = Return tx ->
      confirmed_by_ledger tx (ledger (snd (vote gameId target actor st))))
  /\ (fst (werewolfAction gameId target actor st) = Return tx ->
      confirmed_by_ledger tx (ledger (snd (werewolfAction gameId target actor st)))
      \/ tx = protected_target_handled)
  /\ (fst (cupidAction gameId lover1 lover2 actor st) = Return tx ->
      confirmed_by_ledger tx
        (ledger (snd (cupidAction gameId lover1 lover2 actor st))))
  /\ (fst (endVoting gameId st) = Return tx ->
      confirmed_by_ledger tx (ledger (snd (endVoting gameId st))))
  /\ (fst (passNight gameId caller st) = Return tx ->
      confirmed_by_ledger tx (ledger (snd (passNight gameId caller st))))
  /\ (fst (passDay gameId caller st) = Return tx ->
      confirmed_by_ledger tx (ledger (snd (passDay gameId caller st))))
  /\ (fst (witchAction gameId target save poison actor st) = Return tx ->
      confirmed_by_ledger tx
        (ledger (snd (witchAction gameId target save poison actor st))))
  /\ (fst (hunterAction gameId target actor st) = Return tx ->
      confirmed_by_ledger tx (ledger (snd (hunterAction gameId target actor st)))).
Proof.
  split; [apply returns_at, startGame_returns|].
  split; [apply returns_at, vote_returns|].
  split; [apply (returns_at _ _ _ _ (werewolfAction_returns gameId target actor))|].
  split; [apply returns_at, cupidAction_returns|].
  split; [apply returns_at, endVoting_returns|].
  split; [apply returns_at, passNight_returns|].
  split; [apply returns_at, passDay_returns|].
  split; [apply returns_at, witchAction_returns|].
  apply returns_at, hunterAction_returns.
Qed.

End ReturnFacts.

(** ** The two [catch] clauses of [werewolfAction] *)

Section NightAction.
Context {L : Type} `{LedgerBackend L}.

Lemma werewolfAction_unfold (gameId : Z) (target killer : string) :
  werewolfAction (L:=L) gameId target killer
  = try_catch (werewolfAction_try gameId target killer) werewolfAction_catch.
Proof. reflexivity. Qed.

Lemma night_action_catch_throws (e0 e : JsValue) (s s' : St L) :
  night_action_catch e0 s = (Throw e, s') ->
  instanceof_Error e && message_includes e "Target protected" = false.
Proof.
  unfold night_action_catch. destruct e0 as [|m|m].
  - intros E. inversion E. reflexivity.
  - destruct (message_includes (JsError m) _) eqn:Hm; run; intros E;
      inversion E; subst. rewrite Hm. apply andb_false_r.
  - destruct (message_includes (JsObject m) _) eqn:Hm; run; intros E;
      inversion E; subst. reflexivity.
Qed.

Lemma werewolfAction_try_throws (gameId : Z) (target killer : string)
    (st st' : St L) (e : JsValue) :
  werewolfAction_try gameId target killer st = (Throw e, st') ->
  instanceof_Error e && message_includes e "Target protected" = false
  \/ (CallData_compile_throws (night_fields gameId target) = Some e
      /\ ledger st' = ledger st /\ trace st' = trace st).
Proof.
  unfold werewolfAction_try. run.
  destruct (map_get killer (accounts (this st))) as [a|]; run.
  - unfold night_fields.
    destruct (CallData_compile_throws _) as [e0|] eqn:Ec.
    { intros E. inversion E; subst. right. auto. }
    rewrite retry_once. run.
    destruct (account_execute a _ V3 (ledger st)) as [[tx|e0] l1]; run.
    + destruct (provider_waitForTransaction (transaction_hash tx) l1)
        as [[[]|e0] l2]; run.
      * discriminate.
      * intros E. left. now apply night_action_catch_throws in E.
    + intros E. left. now apply night_action_catch_throws in E.
  - intros E. inversion E. left. reflexivity.
Qed.

(** X13.  The test for "Target protected" in the [catch] around the body of
    [werewolfAction] never succeeds on what the ledger threw: whatever
    leaves the closure has already failed that test.  It succeeds only on
    an error thrown by [CallData.compile], before anything was submitted,
    and the method then returns the sentinel; every other error of the
    [try] block is logged and thrown again. *)
Theorem werewolfAction_outer_test_only_for_compile (gameId : Z)
    (target killer : string) (st : St L) :
  match werewolfAction_try gameId target killer st with
  | (Return tx, st') => werewolfAction gameId target killer st = (Return tx, st')
  | (Throw e, st') =>
      if instanceof_Error e && message_includes e "Target protected"
      then CallData_compile_throws (night_fields gameId target) = Some e
           /\ ledger st' = ledger st
           /\ trace st' = trace st
           /\ werewolfAction gameId target killer st
              = (Return protected_target_handled,
                 record (EvLog TargetProtectedNotice) st')
      else werewolfAction gameId target killer st
           = (Throw e,
              record (EvConsoleError "Error performing night action:" e) st')
  end.
Proof.
  rewrite werewolfAction_unfold. unfold try_catch.
  destruct (werewolfAction_try gameId target killer st) as [[tx|e] st'] eqn:E;
    [reflexivity|].
  unfold werewolfAction_catch.
  destruct (instanceof_Error e && message_includes e "Target protected") eqn:Ht.
  - destruct (werewolfAction_try_throws _ _ _ _ _ _ E) as [Hf|(Hc & Hl & Htr)];
      [congruence|]. repeat split; auto.
  - reflexivity.
Qed.

(** X14.  A night action that the ledger rejects for any reason other than a
    protected target reaches the caller as thrown by the ledger, after a
    single submission and one [console.error] line; a rejection with
    [undefined] reaches it as the [TypeError] raised by reading its
    [message]. *)
Theorem werewolfAction_other_rejection_rethrown (gameId : Z)
    (target killer : string) (st : St L) (acct : Account) (e : JsValue) (l1 : L)
    (Hacct : map_get killer (accounts (this st)) = Some acct)
    (Hcompile : CallData_compile_throws (night_fields gameId target) = None)
    (Hmsg : message_includes e "Target protected" = false)
    (Hexec : account_execute acct (night_call (this st) gameId target) V3
               (ledger st) = (Throw e, l1)) :
  let thrown :=
    match e with
    | JsUndefined =>
        JsError "Cannot read properties of undefined (reading 'message')"
    | _ => e
    end in
  werewolfAction gameId target killer st
  = (Throw thrown,
     mkSt (connect acct (this st)) l1
       (trace st ++
          [EvLog (Text "Sending night action transaction...");
           EvExecute acct (night_call (this st) gameId target) V3;
           EvConsoleError "Error performing night action:" thrown])).
Proof.
  intros thrown.
  assert (Htry :
    werewolfAction_try gameId target killer st
    = (Throw thrown,
       mkSt (connect acct (this st)) l1
         (trace st ++
            [EvLog (Text "Sending night action transaction...");
             EvExecute acct (night_call (this st) gameId target) V3]))).
  { unfold werewolfAction_try. run. rewrite Hacct. run.
    unfold night_fields in Hcompile. rewrite Hcompile.
    rewrite retry_once. run. unfold night_call in Hexec. rewrite Hexec. run.
    unfold night_action_catch, thrown. rewrite Hmsg.
    destruct e; run; now rewrite <- !app_assoc. }
  assert (Htest :
    instanceof_Error thrown && message_includes thrown "Target protected"
    = false).
  { unfold thrown. destruct e; [reflexivity| |]; rewrite Hmsg;
      apply andb_false_r. }
  rewrite werewolfAction_unfold. unfold try_catch. rewrite Htry.
  unfold werewolfAction_catch. rewrite Htest. run.
  now rewrite <- app_assoc.
Qed.

End NightAction.

(** ** Where thrown errors come from *)

Section ThrowRules.
Context {L : Type} `{LedgerBackend L}.

Lemma throws_never {T} (Q : JsValue -> Prop) (c : M L T) :
  (forall st, exists v st', c st = (Return v, st')) -> throws_only Q c.
Proof.
  intros Hc st e st' E. destruct (Hc st) as (v & s1 & E'). congruence.
Qed.

Lemma throws_throw {T} (Q : JsValue -> Prop) (e : JsValue) :
  Q e -> throws_only Q (@throw L T e).
Proof. intros HQ st e' st' E. inversion E; subst. assumption. Qed.

Lemma throws_bind {A B} (Q : JsValue -> Prop) (c : M L A) (k : A -> M L B) :
  throws_only Q c -> (forall v, throws_only Q (k v)) -> throws_only Q (bind c k).
Proof.
  intros Hc Hk st e st' E. unfold bind in E.
  destruct (c st) as [[x|e0] st1] eqn:Ec.
  - eapply Hk; eauto.
  - inversion E; subst. eapply Hc; eauto.
Qed.

Lemma throws_weaken {T} (Q Q' : JsValue -> Prop) (c : M L T) :
  throws_only Q c -> (forall e, Q e -> Q' e) -> throws_only Q' c.
Proof. intros Hc HQ st e st' E. eapply HQ, Hc; eauto. Qed.

Lemma throws_try_catch {T} (Qc Q : JsValue -> Prop) (c : M L T)
    (h : JsValue -> M L T) :
  throws_only Qc c -> (forall e, Qc e -> throws_only Q (h e)) ->
  throws_only Q (try_catch c h).
Proof.
  intros Hc Hh st e st' E. unfold try_catch in E.
  destruct (c st) as [[x|e0] st1] eqn:Ec; [discriminate|].
  eapply Hh; eauto.
Qed.

Lemma throws_rethrow {T} (Q : JsValue -> Prop) (c : M L T) (label : string) :
  throws_only Q c ->
  throws_only Q (try_catch c (fun error => console_error label error ;; throw error)).
Proof.
  intros Hc. apply throws_try_catch with (Qc := Q); [assumption|].
  intros e HQ. apply throws_bind.
  - apply throws_never. intros st. do 2 eexists. reflexivity.
  - intros _. now apply throws_throw.
Qed.

Lemma throws_console_log (Q : JsValue -> Prop) (m : LogMsg) :
  throws_only (L:=L) Q (console_log m).
Proof. apply throws_never. intros st. do 2 eexists. reflexivity. Qed.

Lemma throws_sleep (Q : JsValue -> Prop) (ms : Z) :
  throws_only (L:=L) Q (sleep ms).
Proof. apply throws_never. intros st. do 2 eexists. reflexivity. Qed.

Lemma throws_ret {T} (Q : JsValue -> Prop) (v : T) :
  throws_only (L:=L) Q (ret v).
Proof. apply throws_never. intros st. do 2 eexists. reflexivity. Qed.

Lemma throws_retry_loop {T} (Q : JsValue -> Prop) (op : M L T) (N d : Z) :
  throws_only Q op ->
  forall fuel attempt e0,
    throws_only (fun e => e = e0 \/ Q e) (retry_loop op N d fuel attempt e0).
Proof.
  intros Hop. induction fuel as [|fuel IH]; intros attempt e0; simpl.
  - apply throws_throw. now left.
  - destruct (attempt <=? N); [|apply throws_throw; now left].
    apply throws_try_catch with (Qc := Q); [assumption|].
    intros error HQ. apply throws_bind.
    + destruct (attempt <? N); [|destruct (1 <? N)].
      * apply throws_bind; [apply throws_console_log|intros _; apply throws_sleep].
      * apply throws_console_log.
      * apply throws_ret.
    + intros _. eapply throws_weaken; [apply IH|].
      intros e [->|HQe]; right; assumption.
Qed.

(** With at least one attempt allowed, what [retryTransaction] throws was
    thrown by the operation. *)
Lemma throws_retryTransaction {T} (Q : JsValue -> Prop) (op : M L T) (N d : Z) :
  1 <= N -> throws_only Q op -> throws_only Q (retryTransaction op N d).
Proof.
  intros HN Hop. unfold retryTransaction.
  destruct (Z.to_nat N) as [|fuel] eqn:E; [lia|]. simpl.
  apply Z.leb_le in HN. rewrite HN.
  apply throws_try_catch with (Qc := Q); [assumption|].
  intros error HQ. apply throws_bind.
  - destruct (1 <? N).
    + apply throws_bind; [apply throws_console_log|intros _; apply throws_sleep].
    + apply throws_ret.
  - intros _. eapply throws_weaken; [apply throws_retry_loop; exact Hop|].
    intros e [->|HQe]; assumption.
Qed.

Lemma throws_accounts_get (Q : JsValue -> Prop) (a : string) :
  throws_only (L:=L) Q (accounts_get a).
Proof. apply throws_never. intros st. do 2 eexists. reflexivity. Qed.

Lemma throws_accounts_first (Q : JsValue -> Prop) :
  throws_only (L:=L) Q accounts_first.
Proof. apply throws_never. intros st. do 2 eexists. reflexivity. Qed.

Lemma throws_caller_or_first (Q : JsValue -> Prop) (caller : option string) :
  throws_only (L:=L) Q (caller_or_first caller).
Proof.
  apply throws_never. intros st. rewrite caller_or_first_eq.
  do 2 eexists. reflexivity.
Qed.

Lemma throws_contract_connect (Q : JsValue -> Prop) (a : Account) :
  throws_only (L:=L) Q (contract_connect a).
Proof. apply throws_never. intros st. do 2 eexists. reflexivity. Qed.

Lemma throws_CallData_compile (fields : Calldata) :
  throws_only (L:=L) (compile_threw fields) (CallData_compile fields).
Proof.
  intros st e st'. unfold CallData_compile, compile_threw.
  destruct (CallData_compile_throws fields) as [e0|]; intros E;
    inversion E; subst; reflexivity.
Qed.

Lemma throws_at {T} (Q : JsValue -> Prop) (c : M L T) (st : St L) (e : JsValue) :
  throws_only Q c -> fst (c st) = Throw e -> Q e.
Proof.
  intros Hc E. destruct (c st) as [r st'] eqn:Ec. cbn [fst] in E. subst r.
  eapply Hc; eauto.
Qed.

End ThrowRules.

(** Inversion of a closure that submits and waits, for what it throws. *)
Ltac closure_throw_inv :=
  let st := fresh "st" in
  let e := fresh "e" in
  let st' := fresh "st'" in
  intros st e st'; run;
  repeat match goal with
         | |- context [account_execute ?a ?c ?w ?l] =>
             let E := fresh "Eexec" in
             destruct (account_execute a c w l) as [[?|?] ?] eqn:E; run
         | |- context [provider_waitForTransaction ?h ?l] =>
             let E := fresh "Ewait" in
             destruct (provider_waitForTransaction h l) as [[[]|?] ?] eqn:E; run
         end;
  let Hrun := fresh "Hrun" in
  intros Hrun; inversion Hrun; subst;
  first [ left; do 5 eexists; eassumption | right; do 3 eexists; eassumption ].

Ltac throws_go :=
  cbv zeta;
  lazymatch goal with
  | |- throws_only _ (try_catch _ (fun error => console_error _ error ;; throw error)) =>
      apply throws_rethrow; throws_go
  | |- throws_only _ (try_catch _ (fun _ => console_log _)) =>
      apply throws_try_catch with (Qc := fun _ => True);
      [ intros ? ? ? ?; exact I | intros ? ?; apply throws_console_log ]
  | |- throws_only _ (retryTransaction _ _ _) =>
      apply throws_retryTransaction;
      [ unfold default_maxAttempts; lia
      | eapply throws_weaken;
        [ instantiate (1 := ledger_threw); closure_throw_inv
        | intros ? ?; right; right; assumption ] ]
  | |- throws_only _ (CallData_compile _) =>
      eapply throws_weaken;
      [ apply throws_CallData_compile | intros ? ?; right; left; assumption ]
  | |- throws_only _ (bind _ _) =>
      apply throws_bind; [ throws_go | intros ?; throws_go ]
  | |- throws_only _ (throw _) => apply throws_throw; left; reflexivity
  | |- throws_only _ (accounts_get _) => apply throws_accounts_get
  | |- throws_only _ accounts_first => apply throws_accounts_first
  | |- throws_only _ (caller_or_first _) => apply throws_caller_or_first
  | |- throws_only _ (contract_connect _) => apply throws_contract_connect
  | |- throws_only _ (match ?o with Some _ => _ | None => _ end) =>
      destruct o; throws_go
  end.

Section ThrowFacts.
Context {L : Type} `{LedgerBackend L}.

Lemma startGame_throws (gameId : Z) (players : list string) (actor : string) :
  throws_only (L:=L)
    (method_threw "Starter account not found"
       [("game_id", ArgNumber gameId); ("players", ArgAddresses players)])
    (startGame gameId players actor).
Proof. unfold startGame, method_threw. throws_go. Qed.

Lemma vote_throws (gameId : Z) (target actor : string) :
  throws_only (L:=L)
    (method_threw "Voter account not found"
       [("game_id", ArgNumber gameId); ("target", ArgAddress target)])
    (vote gameId target actor).
Proof. unfold vote, method_threw. throws_go. Qed.

Lemma cupidAction_throws (gameId : Z) (lover1 lover2 actor : string) :
  throws_only (L:=L)
    (method_threw "Cupid account not found"
       [("game_id", ArgNumber gameId); ("lover1", ArgAddress lover1);
        ("lover2", ArgAddress lover2)])
    (cupidAction gameId lover1 lover2 actor).
Proof. unfold cupidAction, method_threw. throws_go. Qed.

Lemma passNight_throws (gameId : Z) (caller : option string) :
  throws_only (L:=L)
    (method_threw "No account available for this operation"
       [("game_id", ArgNumber gameId)])
    (passNight gameId caller).
Proof. unfold passNight, method_threw. throws_go. Qed.

Lemma passDay_throws (gameId : Z) (caller : option string) :
  throws_only (L:=L)
    (method_threw "No account available for this operation"
       [("game_id", ArgNumber gameId)])
    (passDay gameId caller).
Proof. unfold passDay, method_threw. throws_go. Qed.

Lemma witchAction_throws (gameId : Z) (target : string) (save poison : bool)
    (actor : string) :
  throws_only (L:=L)
    (method_threw "Witch account not found"
       [("game_id", ArgNumber gameId); ("target", ArgAddress target);
        ("save", ArgNumber (if save then 1 else 0));
        ("poison", ArgNumber (if poison then 1 else 0))])
    (witchAction gameId target save poison actor).
Proof. unfold witchAction, method_threw. throws_go. Qed.

Lemma hunterAction_throws (gameId : Z) (target actor : string) :
  throws_only (L:=L)
    (method_threw "Hunter account not found"
       [("game_id", ArgNumber gameId); ("target", ArgAddress target)])
    (hunterAction gameId target actor).
Proof. unfold hunterAction, method_threw. throws_go. Qed.

Lemma endVoting_throws (gameId : Z) :
  throws_only (L:=L)
    (method_threw "No accounts available" [("game_id", ArgNumber gameId)])
    (endVoting gameId).
Proof.
  unfold endVoting, method_threw. apply throws_rethrow. apply throws_bind.
  - apply throws_accounts_first.
  - intros [a|]; [|apply throws_throw; now left].
    apply throws_bind; [apply throws_contract_connect|]. intros _.
    apply throws_bind.
    + eapply throws_weaken; [apply throws_CallData_compile|].
      intros ? ?; right; left; assumption.
    + intros calldata. eapply throws_weaken;
        [instantiate (1 := ledger_threw); closure_throw_inv
        |intros ? ?; right; right; assumption].
Qed.

(** X12.  A method throws only one of three things: its own
    account-not-found error; what [CallData.compile] threw on the fields
    built from its arguments, before anything was submitted; or what the
    ledger threw at it when a submission or the wait for a confirmation
    was rejected (after the last attempt).  Errors are passed on as they
    are, and the answer of [get_game_state] in [startGame], error or not,
    never reaches the caller. *)
Theorem thrown_errors_come_from_compile_or_ledger (gameId : Z)
    (players : list string) (target lover1 lover2 actor : string)
    (save poison : bool) (caller : option string) (st : St L) (e : JsValue) :
  (fst (startGame gameId players actor st) = Throw e ->
   e = JsError "Starter account not found"
   \/ compile_threw
        [("game_id", ArgNumber gameId); ("players", ArgAddresses players)] e
   \/ ledger_threw e)
  /\ (fst (vote gameId target actor st) = Throw e ->
      e = JsError "Voter account not found"
      \/ compile_threw
           [("game_id", ArgNumber gameId); ("target", ArgAddress target)] e
      \/ ledger_threw e)
  /\ (fst (cupidAction gameId lover1 lover2 actor st) = Throw e ->
      e = JsError "Cupid account not found"
      \/ compile_threw
           [("game_id", ArgNumber gameId); ("lover1", ArgAddress lover1);
            ("lover2", ArgAddress lover2)] e
      \/ ledger_threw e)
  /\ (fst (endVoting gameId st) = Throw e ->
      e = JsError "No accounts available"
      \/ compile_threw [("game_id", ArgNumber gameId)] e
      \/ ledger_threw e)
  /\ (fst (passNight gameId caller st) = Throw e ->
      e = JsError "No account available for this operation"
      \/ compile_threw [("game_id", ArgNumber gameId)] e
      \/ ledger_threw e)
  /\ (fst (passDay gameId caller st) = Throw e ->
      e = JsError "No account available for this operation"
      \/ compile_threw [("game_id", ArgNumber gameId)] e
      \/ ledger_threw e)
  /\ (fst (witchAction gameId target save poison actor st) = Throw e ->
      e = JsError "Witch account not found"
      \/ compile_threw
           [("game_id", ArgNumber gameId); ("target", ArgAddress target);
            ("save", ArgNumber (if save then 1 else 0));
            ("poison", ArgNumber (if poison then 1 else 0))] e
      \/ ledger_threw e)
  /\ (fst (hunterAction gameId target actor st) = Throw e ->
      e = JsError "Hunter account not found"
      \/ compile_threw
           [("game_id", ArgNumber gameId); ("target", ArgAddress target)] e
      \/ ledger_threw e).
Proof.
  split; [apply (throws_at _ _ _ _ (startGame_throws gameId players actor))|].
  split; [apply (throws_at _ _ _ _ (vote_throws gameId target actor))|].
  split; [apply (throws_at _ _ _ _ (cupidAction_throws gameId lover1 lover2 actor))|].
  split; [apply (throws_at _ _ _ _ (endVoting_throws gameId))|].
  split; [apply (throws_at _ _ _ _ (passNight_throws gameId caller))|].
  split; [apply (throws_at _ _ _ _ (passDay_throws gameId caller))|].
  split; [apply (throws_at _ _ _ _ (witchAction_throws gameId target save poison actor))|].
  apply (throws_at _ _ _ _ (hunterAction_throws gameId target actor)).
Qed.

End ThrowFacts.

(** ** The scenario driver *)

Section DriverFacts.
Context {L : Type} `{LedgerBackend L}.

Lemma read_players_missing (env : Env) :
  forall (count i j : nat),
    (i <= j < i + count)%nat ->
    (forall m, (i <= m < j)%nat -> player_set env m = true) ->
    player_set env j = false ->
    read_players env i count = Throw (missing_player j).
Proof.
  induction count as [|count IH]; intros i j Hj Hbefore Hmissing; [lia|].
  simpl. destruct (Nat.eq_dec i j) as [->|Hne].
  - unfold player_set in Hmissing.
    destruct (player_address env j) as [a|]; [|reflexivity].
    destruct (player_private_key env j) as [k|]; [|reflexivity].
    destruct (truthy a), (truthy k); simpl in *; congruence.
  - assert (Hi : player_set env i = true) by (apply Hbefore; lia).
    unfold player_set in Hi.
    destruct (player_address env i) as [a|]; [|discriminate].
    destruct (player_private_key env i) as [k|]; [|discriminate].
    apply andb_true_iff in Hi. destruct Hi as [Ha Hk]. rewrite Ha, Hk. simpl.
    rewrite (IH (S i) j); auto; [lia|]. intros m Hm. apply Hbefore. lia.
Qed.

(** X15.  When a variable of one of the eight players is unset or empty, [main]
    reports the first such player and stops: it has created the game
    object but registered no account, not even those of the players read
    before, and it has not touched the ledger. *)
Theorem main_missing_environment (env : Env) (st : St L) (j : nat)
    (Habi : abi_failure env = None)
    (Hj : (j < 8)%nat)
    (Hbefore : forall m, (m < j)%nat -> player_set env m = true)
    (Hmissing : player_set env j = false) :
  main env st
  = (Return tt,
     mkSt (new_game main_contract_address) (ledger st)
       (trace st ++
          [EvLog (Text (String.append "Contract address: " main_contract_address));
           EvConsoleError "Failed to initialize game:" (missing_player j)])).
Proof.
  unfold main, construct, lift_outcome. rewrite Habi.
  rewrite (read_players_missing env 8 0 j); [|lia|intros m Hm; apply Hbefore; lia|assumption].
  run. now rewrite <- app_assoc.
Qed.

(** *** Stopping at the first error *)

Lemma stops_bind {A B} (c : M L A) (k : A -> M L B) :
  stops_on_error c -> (forall v, stops_on_error (k v)) -> stops_on_error (bind c k).
Proof.
  intros Hc Hk st. unfold bind.
  destruct (Hc st) as (evs1 & Htr1 & Hsh1).
  destruct (c st) as [[v|e] st1]; cbn [fst snd] in *.
  - destruct (Hk v st1) as (evs2 & Htr2 & Hsh2).
    exists (evs1 ++ evs2). split; [now rewrite Htr2, Htr1, app_assoc|].
    destruct (fst (k v st1)) as [w|e].
    + now apply Forall_app.
    + destruct Hsh2 as (pre & label & -> & Hlabel & Hpre).
      exists (evs1 ++ pre), label. rewrite app_assoc.
      repeat split; auto. now apply Forall_app.
  - exists evs1. split; assumption.
Qed.

Lemma stops_step {T} (v : T) (ev : Event) :
  no_error_line ev ->
  stops_on_error (fun st : St L => (Return v, record ev st)).
Proof. intros Hev st. exists [ev]. split; [reflexivity|]. cbn. auto. Qed.

Lemma stops_console_log (m : LogMsg) : stops_on_error (L:=L) (console_log m).
Proof. apply (stops_step tt (EvLog m)). exact I. Qed.

Lemma stops_sleep (ms : Z) : stops_on_error (L:=L) (sleep ms).
Proof. apply (stops_step tt (EvSleep ms)). exact I. Qed.

Lemma stops_ret {T} (v : T) : stops_on_error (L:=L) (ret v).
Proof. intros st. exists []. cbn. rewrite app_nil_r. auto. Qed.

Lemma stops_method {T} (body : M L T) (label : string) :
  (forall e, is_main_error (EvConsoleError label e) = false) ->
  spec (fun _ => True) no_error_line body (fun _ => True) ->
  stops_on_error
    (try_catch body (fun error => console_error label error ;; throw error)).
Proof.
  intros Hlabel Hbody st. unfold try_catch.
  destruct (Hbody st I) as (_ & (evs & Htr & Hclean) & _).
  destruct (body st) as [[v|e] st1]; cbn [fst snd] in *.
  - exists evs. auto.
  - exists (evs ++ [EvConsoleError label e]). cbn.
    rewrite Htr, app_assoc. split; [reflexivity|].
    exists evs, label. repeat split; auto. apply (Hlabel e).
Qed.

Lemma stops_vote (gameId : Z) (target actor : string) :
  stops_on_error (L:=L) (vote gameId target actor).
Proof. unfold vote. apply stops_method; [reflexivity|spec_go]. Qed.

Lemma stops_cupidAction (gameId : Z) (lover1 lover2 actor : string) :
  stops_on_error (L:=L) (cupidAction gameId lover1 lover2 actor).
Proof. unfold cupidAction. apply stops_method; [reflexivity|spec_go]. Qed.

Lemma stops_endVoting (gameId : Z) : stops_on_error (L:=L) (endVoting gameId).
Proof. unfold endVoting. apply stops_method; [reflexivity|spec_go]. Qed.

Lemma stops_passNight (gameId : Z) (caller : option string) :
  stops_on_error (L:=L) (passNight gameId caller).
Proof. unfold passNight. apply stops_method; [reflexivity|spec_go]. Qed.

Lemma stops_passDay (gameId : Z) (caller : option string) :
  stops_on_error (L:=L) (passDay gameId caller).
Proof. unfold passDay. apply stops_method; [reflexivity|spec_go]. Qed.

Lemma stops_witchAction (gameId : Z) (target : string) (save poison : bool)
    (actor : string) :
  stops_on_error (L:=L) (witchAction gameId target save poison actor).
Proof. unfold witchAction. apply stops_method; [reflexivity|spec_go]. Qed.

Lemma stops_hunterAction (gameId : Z) (target actor : string) :
  stops_on_error (L:=L) (hunterAction gameId target actor).
Proof. unfold hunterAction. apply stops_method; [reflexivity|spec_go]. Qed.

Lemma werewolfAction_try_quiet (gameId : Z) (target actor : string) :
  spec (L:=L) (fun _ => True) no_error_line
    (werewolfAction_try gameId target actor) (fun _ => True).
Proof. unfold werewolfAction_try. spec_go. Qed.

Lemma stops_werewolfAction (gameId : Z) (target actor : string) :
  stops_on_error (L:=L) (werewolfAction gameId target actor).
Proof.
  intros st.
  destruct (werewolfAction_try_quiet gameId target actor st I)
    as (_ & (evs & Htr & Hclean) & _).
  destruct (werewolfAction_try gameId target actor st) as [[tx|e] st1] eqn:E.
  - exists evs. rewrite werewolfAction_unfold. unfold try_catch. rewrite E. auto.
  - rewrite werewolfAction_unfold. unfold try_catch. rewrite E.
    unfold werewolfAction_catch.
    destruct (instanceof_Error e && message_includes e "Target protected").
    + exists (evs ++ [EvLog TargetProtectedNotice]).
      cbn in *. rewrite Htr, app_assoc. split; [reflexivity|].
      apply Forall_app. split; [assumption|]. repeat constructor.
    + exists (evs ++ [EvConsoleError "Error performing night action:" e]).
      cbn in *. rewrite Htr, app_assoc. split; [reflexivity|].
      exists evs, "Error performing night action:". auto.
Qed.

Lemma scenario_play_stops (gameId : Z) (players : list string) :
  stops_on_error (L:=L) (scenario_play gameId players).
Proof.
  unfold scenario_play. cbv zeta.
  repeat lazymatch goal with
         | |- stops_on_error (bind _ _) => apply stops_bind; [|intros _]
         | |- stops_on_error (console_log _) => apply stops_console_log
         | |- stops_on_error (sleep _) => apply stops_sleep
         | |- stops_on_error (vote _ _ _) => apply stops_vote
         | |- stops_on_error (cupidAction _ _ _ _) => apply stops_cupidAction
         | |- stops_on_error (werewolfAction _ _ _) => apply stops_werewolfAction
         | |- stops_on_error (endVoting _) => apply stops_endVoting
         | |- stops_on_error (passNight _ _) => apply stops_passNight
         | |- stops_on_error (passDay _ _) => apply stops_passDay
         | |- stops_on_error (witchAction _ _ _ _ _) => apply stops_witchAction
         | |- stops_on_error (hunterAction _ _ _) => apply stops_hunterAction
         | |- stops_on_error (ret _) => apply stops_ret
         end.
Qed.

(** X17.  Once the game is started, the scenario stops at the first action that
    fails: when [scenario_play] throws, the last thing it did was to write
    the [console.error] line of the method that failed, with the error it
    throws, and no other such line was written before; when it returns,
    no action has failed. *)
Theorem scenario_play_stops_at_first_error (gameId : Z)
    (players : list string) :
  stops_on_error (L:=L) (scenario_play gameId players).
Proof. apply scenario_play_stops. Qed.

(** *** The two [catch] clauses of [main] *)

Lemma stops_quiet {T} (c : M L T) :
  stops_on_error c ->
  spec (fun _ => True) (fun ev => is_main_error ev = false) c (fun _ => True).
Proof.
  intros Hc st _. destruct (Hc st) as (evs & Htr & Hsh).
  repeat split; auto. exists evs. split; [assumption|].
  assert (Hweak : forall l, Forall no_error_line l ->
                            Forall (fun ev => is_main_error ev = false) l).
  { intros l Hl. eapply Forall_impl; [|exact Hl]. intros [] Hev; auto.
    contradiction. }
  destruct (fst (c st)) as [v|e]; [now apply Hweak|].
  destruct Hsh as (pre & label & -> & Hlabel & Hpre).
  apply Forall_app. split; [now apply Hweak|]. repeat constructor. assumption.
Qed.

Lemma spec_forget {T} (P : Game -> Event -> Prop) (P' : Event -> Prop)
    (c : M L T) :
  (forall g0, spec (same_registry g0) (P g0) c (fun _ => True)) ->
  (forall g0 ev, P g0 ev -> P' ev) ->
  spec (fun _ => True) P' c (fun _ => True).
Proof.
  intros Hc HP st _.
  destruct (Hc (this st) st (conj eq_refl eq_refl)) as (_ & (evs & Htr & Hev) & _).
  repeat split; auto. exists evs. split; [assumption|].
  eapply Forall_impl; [|exact Hev]. apply HP.
Qed.

Lemma startGame_quiet (gameId : Z) (players : list string) (actor : string) :
  spec (L:=L) (fun _ => True) (fun ev => is_main_error ev = false)
    (startGame gameId players actor) (fun _ => True).
Proof.
  eapply spec_forget; [intros g0; apply startGame_spec|].
  intros g0 [] Hev; cbn in *; auto. now subst.
Qed.

Lemma start_catch_quiet (e : JsValue) :
  spec (L:=L) (fun _ => True) (fun ev => is_main_error ev = false)
    (start_catch e) (fun _ => True).
Proof.
  unfold start_catch.
  destruct e; [apply spec_throw| |];
    (destruct (message_includes _ _);
     [apply spec_console_log; reflexivity|apply spec_throw]).
Qed.

Lemma scenario_quiet (gameId : Z) (players : list string) :
  spec (L:=L) (fun _ => True) (fun ev => is_main_error ev = false)
    (scenario_start gameId players ;; scenario_play gameId players)
    (fun _ => True).
Proof.
  eapply spec_bind.
  - unfold scenario_start. cbv zeta. eapply spec_bind.
    + apply spec_console_log. reflexivity.
    + intros _ _. apply spec_try_catch.
      * eapply spec_bind; [apply startGame_quiet|].
        intros _ _. apply spec_console_log. reflexivity.
      * apply start_catch_quiet.
  - intros _ _. apply stops_quiet, scenario_play_stops.
Qed.

Lemma reports_quiet {T} (c : M L T) (Q : T -> Prop) :
  spec (fun _ => True) (fun ev => is_main_error ev = false) c Q -> reports c.
Proof.
  intros Hc st. destruct (Hc st I) as (_ & (evs & Htr & Hev) & _).
  exists evs. split; [assumption|].
  destruct (fst (c st)); [now left|assumption].
Qed.

Lemma reports_bind {A B} (c : M L A) (k : A -> M L B) (Q : A -> Prop) :
  spec (fun _ => True) (fun ev => is_main_error ev = false) c Q ->
  (forall v, reports (k v)) -> reports (bind c k).
Proof.
  intros Hc Hk st. unfold bind.
  destruct (Hc st I) as (_ & (evs1 & Htr1 & Hev1) & _).
  destruct (c st) as [[v|e] st1]; cbn [fst snd] in *.
  - destruct (Hk v st1) as (evs2 & Htr2 & Hsh2).
    exists (evs1 ++ evs2). split; [now rewrite Htr2, Htr1, app_assoc|].
    destruct (fst (k v st1)).
    + destruct Hsh2 as [Hq|(pre & ev & -> & Hev & Hpre)].
      * left. now apply Forall_app.
      * right. exists (evs1 ++ pre), ev. rewrite app_assoc.
        repeat split; auto. now apply Forall_app.
    + now apply Forall_app.
  - exists evs1. split; assumption.
Qed.

Lemma reports_catch (c : M L unit) (label : string) :
  (forall e, is_main_error (EvConsoleError label e) = true) ->
  reports c ->
  reports (try_catch c (fun error => console_error label error)).
Proof.
  intros Hlabel Hc st. unfold try_catch.
  destruct (Hc st) as (evs & Htr & Hsh).
  destruct (c st) as [[v|e] st1]; cbn [fst snd] in *.
  - exists evs. split; assumption.
  - exists (evs ++ [EvConsoleError label e]). cbn.
    rewrite Htr, app_assoc. split; [reflexivity|].
    right. exists evs, (EvConsoleError label e). repeat split; auto.
Qed.

Lemma main_reports (env : Env) : reports (L:=L) (main env).
Proof.
  unfold main. apply reports_catch; [reflexivity|].
  eapply reports_bind; [apply spec_console_log; reflexivity|]. intros _.
  eapply reports_bind with (Q := fun _ => True).
  { intros st _. unfold construct.
    destruct (abi_failure env); cbn; repeat split; auto;
      exists []; now rewrite app_nil_r. }
  intros _. eapply reports_bind with (Q := fun _ => True).
  { intros st _. unfold lift_outcome. cbn. repeat split; auto.
    exists []. now rewrite app_nil_r. }
  intros accounts. eapply reports_bind with (Q := fun _ => True).
  { intros st _. unfold add_accounts.
    destruct (register_all accounts (this st)) as [r g]. cbn.
    repeat split; auto. exists []. now rewrite app_nil_r. }
  intros _. cbv zeta.
  eapply reports_bind; [apply spec_console_log; reflexivity|]. intros _.
  apply reports_catch; [reflexivity|].
  eapply reports_quiet. apply scenario_quiet.
Qed.

(** X16.  [main] never throws: whatever the environment and the ledger, it
    returns; and it writes at most one line of its own two [catch]
    clauses, as the last thing it does, so nothing is submitted once a
    failure has been reported. *)
Theorem main_swallows_every_error (env : Env) (st : St L) :
  fst (main env st) = Return tt
  /\ exists evs,
       trace (snd (main env st)) = trace st ++ evs /\ failure_line_last evs.
Proof.
  assert (Hret : fst (main env st) = Return tt).
  { unfold main. unfold try_catch at 1.
    match goal with
    | |- fst (let (o, s) := ?b in _) = _ => destruct b as [[[]|e] st1]
    end; reflexivity. }
  split; [assumption|].
  destruct (main_reports env st) as (evs & Htr & Hsh).
  exists evs. split; [assumption|]. now rewrite Hret in Hsh.
Qed.

End DriverFacts.

(** ** The whole scenario, when nothing fails *)

Lemma submissions_app (a b : list Event) :
  submissions (a ++ b) = submissions a ++ submissions b.
Proof.
  induction a as [|ev a IH]; [reflexivity|].
  destruct ev; simpl; rewrite IH; reflexivity.
Qed.

Section SubmitRules.
Context {L : Type} `{LedgerBackend L}.
Variable g0 : Game.

Ltac submitted Hsame :=
  do 2 eexists; exists []; split; [reflexivity|];
  split; [split; apply Hsame|];
  split;
  [ unfold record; cbn [this trace]; rewrite ?submissions_app;
    cbn [submissions]; rewrite ?app_nil_r; reflexivity
  | split; [constructor|try exact I] ].

Lemma submits_ret {T} (v : T) (Q : T -> Prop) :
  Q v -> submits (L:=L) g0 [] (ret v) Q.
Proof. intros HQ st Hsame. submitted Hsame. assumption. Qed.

Lemma submits_console_log (m : LogMsg) :
  submits (L:=L) g0 [] (console_log m) (fun _ => True).
Proof. intros st Hsame. submitted Hsame. Qed.

Lemma submits_sleep (ms : Z) : submits (L:=L) g0 [] (sleep ms) (fun _ => True).
Proof. intros st Hsame. submitted Hsame. Qed.

Lemma submits_bind {A B} (c : M L A) (k : A -> M L B) (l1 l2 : list (string * Call))
    (Q1 : A -> Prop) (Q : B -> Prop) :
  submits g0 l1 c Q1 -> (forall v, Q1 v -> submits g0 l2 (k v) Q) ->
  submits g0 (l1 ++ l2) (bind c k) Q.
Proof.
  intros Hc Hk st Hsame. unfold bind.
  destruct (Hc st Hsame) as (v & st1 & s1 & E1 & Hsame1 & Hsub1 & Hin1 & HQ1).
  rewrite E1.
  destruct (Hk v HQ1 st1 Hsame1)
    as (w & st2 & s2 & E2 & Hsame2 & Hsub2 & Hin2 & HQ2).
  exists w, st2, (s1 ++ s2). split; [assumption|]. split; [assumption|].
  split; [now rewrite Hsub2, Hsub1, app_assoc|].
  split; [|assumption]. now apply Forall2_app.
Qed.

Lemma submits_try_catch {T} (c : M L T) (h : JsValue -> M L T)
    (l : list (string * Call)) (Q : T -> Prop) :
  submits g0 l c Q -> submits g0 l (try_catch c h) Q.
Proof.
  intros Hc st Hsame. unfold try_catch.
  destruct (Hc st Hsame) as (v & st1 & s1 & E1 & Hrest). rewrite E1. eauto.
Qed.

Lemma submits_retryTransaction {T} (op : M L T) (N d : Z)
    (l : list (string * Call)) (Q : T -> Prop) :
  1 <= N -> submits g0 l op Q -> submits g0 l (retryTransaction op N d) Q.
Proof.
  intros HN Hop st Hsame.
  destruct (Hop st Hsame) as (v & st1 & s1 & E1 & Hrest).
  exists v, st1, s1. split; [|assumption].
  now apply retryTransaction_success.
Qed.

Lemma submits_accounts_get (a : string) :
  submits (L:=L) g0 [] (accounts_get a) (fun o => o = map_get a (accounts g0)).
Proof.
  intros st Hsame. submitted Hsame. destruct Hsame as [Ha _]. now rewrite Ha.
Qed.

Lemma submits_caller_or_first (caller : option string) :
  submits (L:=L) g0 [] (caller_or_first caller)
    (fun o => o = caller_account caller g0).
Proof.
  intros st Hsame. rewrite caller_or_first_eq. submitted Hsame.
  now apply caller_account_same_registry.
Qed.

Lemma submits_accounts_first :
  submits (L:=L) g0 [] accounts_first (fun o => o = map_first (accounts g0)).
Proof.
  intros st Hsame. submitted Hsame. destruct Hsame as [Ha _]. now rewrite Ha.
Qed.

Lemma submits_this_contract_address :
  submits (L:=L) g0 [] this_contract_address (fun v => v = contract_address g0).
Proof. intros st Hsame. submitted Hsame. apply Hsame. Qed.

Lemma submits_contract_connect (a : Account) :
  submits (L:=L) g0 [] (contract_connect a) (fun _ => True).
Proof. intros st Hsame. submitted Hsame. Qed.

Lemma submits_CallData_compile (fields : Calldata) :
  CallData_compile_throws fields = None ->
  submits (L:=L) g0 [] (CallData_compile fields) (fun v => v = fields).
Proof.
  intros Hc st Hsame. unfold CallData_compile. rewrite Hc.
  submitted Hsame. reflexivity.
Qed.

Hypothesis Hconf : always_confirms (L:=L).

Lemma submits_execute (k : string) (a : Account) (c : Call) (v : TxVersion) :
  map_get k (accounts g0) = Some a ->
  submits g0 [(k, c)] (execute a c v) (fun _ => True).
Proof.
  intros Hk st Hsame. unfold execute.
  destruct (proj1 Hconf a c v (ledger st)) as (tx & l' & E). rewrite E.
  exists tx. eexists. exists [(a, c)]. split; [reflexivity|].
  split; [split; apply Hsame|].
  split; [cbn [trace]; rewrite submissions_app; reflexivity|].
  split; [|exact I]. constructor; [|constructor]. cbn. auto.
Qed.

Lemma submits_waitForTransaction (hash : string) :
  submits g0 [] (waitForTransaction hash) (fun _ => True).
Proof.
  intros st Hsame. unfold waitForTransaction.
  destruct (proj2 Hconf hash (ledger st)) as (l' & E). rewrite E.
  submitted Hsame.
Qed.

Lemma submits_existence_check (gameId : Z) (m : LogMsg) (e : JsValue) :
  submits g0 []
    (try_catch
       (gameState <- get_game_state gameId ;;
        console_log (ExistingGameState gameState) ;;
        throw e)
       (fun _ => console_log m))
    (fun _ => True).
Proof.
  intros st Hsame. unfold try_catch, bind, get_game_state.
  destruct (contract_get_game_state gameId (ledger st)) as [[gs|e0] l'];
    cbn [console_log throw record this ledger trace]; submitted Hsame.
Qed.

End SubmitRules.

Ltac submits_go :=
  cbv zeta;
  lazymatch goal with
  | |- submits _ _ (bind (try_catch (bind (get_game_state _) _) _) _) _ =>
      eapply submits_bind;
      [ apply submits_existence_check; assumption
      | let v := fresh "v" in
        let Hv := fresh "Hv" in
        intros v Hv; submits_go ]
  | |- submits _ _ (bind _ _) _ =>
      eapply submits_bind;
      [ submits_go
      | let v := fresh "v" in
        let Hv := fresh "Hv" in
        intros v Hv; cbv beta in Hv; try subst v; submits_go ]
  | |- submits _ _ (try_catch _ _) _ => apply submits_try_catch; submits_go
  | |- submits _ _ (retryTransaction _ _ _) _ =>
      apply submits_retryTransaction;
      [ unfold default_maxAttempts; lia | submits_go ]
  | |- submits _ _ (ret _) _ => apply submits_ret; exact I
  | |- submits _ _ (console_log _) _ => apply submits_console_log
  | |- submits _ _ (sleep _) _ => apply submits_sleep
  | |- submits _ _ (accounts_get _) _ => apply submits_accounts_get
  | |- submits _ _ accounts_first _ => apply submits_accounts_first
  | |- submits _ _ (caller_or_first _) _ => apply submits_caller_or_first
  | |- submits _ _ this_contract_address _ => apply submits_this_contract_address
  | |- submits _ _ (contract_connect _) _ => apply submits_contract_connect
  | |- submits _ _ (CallData_compile _) _ =>
      apply submits_CallData_compile; assumption
  | |- submits _ _ (execute _ _ _) _ =>
      eapply submits_execute; [assumption|eassumption]
  | |- submits _ _ (waitForTransaction _) _ =>
      apply submits_waitForTransaction; assumption
  | |- submits _ _ (match ?o with Some _ => _ | None => _ end) _ =>
      match goal with
      | Hget : o = Some _ |- _ => rewrite Hget; submits_go
      end
  end.

Section MethodSubmits.
Context {L : Type} `{LedgerBackend L}.
Variable g0 : Game.
Hypothesis Hconf : always_confirms (L:=L).

Lemma submits_weaken {T} (c : M L T) (l l' : list (string * Call))
    (Q : T -> Prop) :
  submits g0 l c Q -> l = l' -> submits g0 l' c (fun _ => True).
Proof.
  intros Hc <- st Hsame.
  destruct (Hc st Hsame) as (v & st' & s & E & Hs & Hsub & Hin & _).
  exists v, st', s. auto.
Qed.

Lemma startGame_submits (gameId : Z) (players : list string) (actor : string)
    (acct : Account) :
  map_get actor (accounts g0) = Some acct ->
  CallData_compile_throws
    [("game_id", ArgNumber gameId); ("players", ArgAddresses players)] = None ->
  submits g0
    [(actor,
      mkCall (contract_address g0) "start_game"
        [("game_id", ArgNumber gameId); ("players", ArgAddresses players)])]
    (startGame gameId players actor) (fun _ => True).
Proof.
  intros Hget Hc. unfold startGame.
  eapply submits_weaken; [submits_go|reflexivity].
Qed.

Lemma vote_submits (gameId : Z) (target actor : string) (acct : Account) :
  map_get actor (accounts g0) = Some acct ->
  CallData_compile_throws
    [("game_id", ArgNumber gameId); ("target", ArgAddress target)] = None ->
  submits g0
    [(actor,
      mkCall (contract_address g0) "vote"
        [("game_id", ArgNumber gameId); ("target", ArgAddress target)])]
    (vote gameId target actor) (fun _ => True).
Proof.
  intros Hget Hc. unfold vote.
  eapply submits_weaken; [submits_go|reflexivity].
Qed.

Lemma werewolfAction_submits (gameId : Z) (target actor : string)
    (acct : Account) :
  map_get actor (accounts g0) = Some acct ->
  CallData_compile_throws
    [("game_id", ArgNumber gameId); ("target", ArgAddress target)] = None ->
  submits g0
    [(actor,
      mkCall (contract_address g0) "night_action"
        [("game_id", ArgNumber gameId); ("target", ArgAddress target)])]
    (werewolfAction gameId target actor) (fun _ => True).
Proof.
  intros Hget Hc. unfold werewolfAction.
  eapply submits_weaken; [submits_go|reflexivity].
Qed.

Lemma cupidAction_submits (gameId : Z) (lover1 lover2 actor : string)
    (acct : Account) :
  map_get actor (accounts g0) = Some acct ->
  CallData_compile_throws
    [("game_id", ArgNumber gameId); ("lover1", ArgAddress lover1);
     ("lover2", ArgAddress lover2)] = None ->
  submits g0
    [(actor,
      mkCall (contract_address g0) "cupid_action"
        [("game_id", ArgNumber gameId); ("lover1", ArgAddress lover1);
         ("lover2", ArgAddress lover2)])]
    (cupidAction gameId lover1 lover2 actor) (fun _ => True).
Proof.
  intros Hget Hc. unfold cupidAction.
  eapply submits_weaken; [submits_go|reflexivity].
Qed.

Lemma endVoting_submits (gameId : Z) (k : string) (acct : Account) :
  map_first (accounts g0) = Some acct ->
  map_get k (accounts g0) = Some acct ->
  CallData_compile_throws [("game_id", ArgNumber gameId)] = None ->
  submits g0
    [(k,
      mkCall (contract_address g0) "end_voting" [("game_id", ArgNumber gameId)])]
    (endVoting gameId) (fun _ => True).
Proof.
  intros Hget Hkey Hc. unfold endVoting.
  eapply submits_weaken; [submits_go|reflexivity].
Qed.

Lemma passNight_submits (gameId : Z) (caller : option string) (k : string)
    (acct : Account) :
  caller_account caller g0 = Some acct ->
  map_get k (accounts g0) = Some acct ->
  CallData_compile_throws [("game_id", ArgNumber gameId)] = None ->
  submits g0
    [(k,
      mkCall (contract_address g0) "pass_night" [("game_id", ArgNumber gameId)])]
    (passNight gameId caller) (fun _ => True).
Proof.
  intros Hget Hkey Hc. unfold passNight.
  eapply submits_weaken; [submits_go|reflexivity].
Qed.

Lemma passDay_submits (gameId : Z) (caller : option string) (k : string)
    (acct : Account) :
  caller_account caller g0 = Some acct ->
  map_get k (accounts g0) = Some acct ->
  CallData_compile_throws [("game_id", ArgNumber gameId)] = None ->
  submits g0
    [(k,
      mkCall (contract_address g0) "pass_day" [("game_id", ArgNumber gameId)])]
    (passDay gameId caller) (fun _ => True).
Proof.
  intros Hget Hkey Hc. unfold passDay.
  eapply submits_weaken; [submits_go|reflexivity].
Qed.

Lemma witchAction_submits (gameId : Z) (target : string) (save poison : bool)
    (actor : string) (acct : Account) :
  map_get actor (accounts g0) = Some acct ->
  CallData_compile_throws
    [("game_id", ArgNumber gameId); ("target", ArgAddress target);
     ("save", ArgNumber (if save then 1 else 0));
     ("poison", ArgNumber (if poison then 1 else 0))] = None ->
  submits g0
    [(actor,
      mkCall (contract_address g0) "witch_action"
        [("game_id", ArgNumber gameId); ("target", ArgAddress target);
         ("save", ArgNumber (if save then 1 else 0));
         ("poison", ArgNumber (if poison then 1 else 0))])]
    (witchAction gameId target save poison actor) (fun _ => True).
Proof.
  intros Hget Hc. unfold witchAction.
  eapply submits_weaken; [submits_go|reflexivity].
Qed.

Lemma hunterAction_submits (gameId : Z) (target actor : string)
    (acct : Account) :
  map_get actor (accounts g0) = Some acct ->
  CallData_compile_throws
    [("game_id", ArgNumber gameId); ("target", ArgAddress target)] = None ->
  submits g0
    [(actor,
      mkCall (contract_address g0) "hunter_action"
        [("game_id", ArgNumber gameId); ("target", ArgAddress target)])]
    (hunterAction gameId target actor) (fun _ => True).
Proof.
  intros Hget Hc. unfold hunterAction.
  eapply submits_weaken; [submits_go|reflexivity].
Qed.

End MethodSubmits.

(** *** The registry after any sequence of registrations *)

Section RegistrationRuns.
Context `{StarknetJs}.

Lemma register_all_cons (a k : string) (regs : list (string * string))
    (g : Game) :
  register_all ((a, k) :: regs) g
  = match Account_new a k with
    | Return acct => register_all regs (accounts_set a acct g)
    | Throw e => (Throw e, g)
    end.
Proof. simpl. unfold addAccount. now destruct (Account_new a k). Qed.

Lemma register_all_nodup (regs : list (string * string)) (g : Game) :
  NoDup (map fst (accounts g)) ->
  NoDup (map fst (accounts (snd (register_all regs g)))).
Proof.
  revert g. induction regs as [|[a k] regs IH]; intros g Hnd; [assumption|].
  rewrite register_all_cons. destruct (Account_new a k) as [acct|e]; [|assumption].
  apply IH. simpl. now apply map_set_nodup.
Qed.

Lemma register_all_keys_from (regs : list (string * string)) (g : Game)
    (a : string) :
  In a (map fst (accounts (snd (register_all regs g)))) ->
  In a (map fst (accounts g)) \/ In a (map fst regs).
Proof.
  revert g. induction regs as [|[a' k'] regs IH]; intros g Hin; [now left|].
  rewrite register_all_cons in Hin. simpl.
  destruct (Account_new a' k') as [acct|e]; [|now left].
  destruct (IH _ Hin) as [Hg|Hr]; [|tauto].
  simpl in Hg. rewrite map_set_keys in Hg.
  destruct (map_get a' (accounts g)); [now left|].
  apply in_app_or in Hg. destruct Hg as [Hg|[->|[]]]; tauto.
Qed.

Lemma register_all_keys_grow (regs : list (string * string)) (g : Game)
    (a : string) :
  In a (map fst (accounts g)) ->
  In a (map fst (accounts (snd (register_all regs g)))).
Proof.
  revert g. induction regs as [|[a' k'] regs IH]; intros g Hin; [assumption|].
  rewrite register_all_cons. destruct (Account_new a' k') as [acct|e]; [|assumption].
  apply IH. simpl. rewrite map_set_keys.
  destruct (map_get a' (accounts g)); [assumption|].
  apply in_or_app. now left.
Qed.

Lemma map_set_has_key (a : string) (v : Account) (m : AccountMap) :
  In a (map fst (map_set a v m)).
Proof.
  rewrite map_set_keys. destruct (map_get a m) eqn:E.
  - destruct (in_dec string_dec a (map fst m)) as [Hi|Hni]; [assumption|].
    apply map_get_none_keys in Hni. congruence.
  - apply in_or_app. right. now left.
Qed.

(** When every registration returned, every registered address is in the
    registry. *)
Lemma register_all_keys_in (regs : list (string * string)) (g g' : Game)
    (a : string) :
  register_all regs g = (Return tt, g') ->
  In a (map fst regs) ->
  In a (map fst (accounts g')).
Proof.
  revert g. induction regs as [|[a' k'] regs IH]; intros g Hrun Hin;
    [contradiction|].
  rewrite register_all_cons in Hrun.
  destruct (Account_new a' k') as [acct|e]; [|discriminate].
  simpl in Hin. destruct Hin as [->|Hin]; [|now apply (IH _ Hrun)].
  replace g' with (snd (register_all regs (accounts_set a acct g)))
    by now rewrite Hrun.
  apply register_all_keys_grow. simpl. apply map_set_has_key.
Qed.

Lemma register_all_get_other (regs : list (string * string)) (g : Game)
    (a : string) :
  ~ In a (map fst regs) ->
  map_get a (accounts (snd (register_all regs g))) = map_get a (accounts g).
Proof.
  revert g. induction regs as [|[a' k'] regs IH]; intros g Hni; [reflexivity|].
  rewrite register_all_cons. simpl in Hni.
  destruct (Account_new a' k') as [acct|e]; [|reflexivity].
  rewrite IH by tauto. simpl. rewrite map_get_set.
  destruct (String.eqb a a') eqn:E; [|reflexivity].
  apply String.eqb_eq in E. subst. tauto.
Qed.

(** A registration after which its address is not registered again
    decides what the address resolves to. *)
Lemma register_all_last (pre post : list (string * string)) (a k : string)
    (g g' : Game) :
  register_all (pre ++ (a, k) :: post) g = (Return tt, g') ->
  ~ In a (map fst post) ->
  exists acct, Account_new a k = Return acct /\ map_get a (accounts g') = Some acct.
Proof.
  revert g. induction pre as [|[a' k'] pre IH]; intros g Hrun Hni.
  - simpl app in Hrun. rewrite register_all_cons in Hrun.
    destruct (Account_new a k) as [acct|e]; [|discriminate].
    exists acct. split; [reflexivity|].
    replace g' with (snd (register_all post (accounts_set a acct g)))
      by now rewrite Hrun.
    rewrite register_all_get_other by assumption.
    simpl. apply map_get_set_same.
  - simpl app in Hrun. rewrite register_all_cons in Hrun.
    destruct (Account_new a' k') as [acct'|e]; [|discriminate].
    now apply (IH _ Hrun).
Qed.

(** [forEach] stops at the first registration that throws. *)
Lemma register_all_stops (regs : list (string * string)) (g g' : Game)
    (e : JsValue) :
  register_all regs g = (Throw e, g') ->
  exists pre a k post,
    regs = pre ++ (a, k) :: post
    /\ Account_new a k = Throw e
    /\ register_all pre g = (Return tt, g').
Proof.
  revert g. induction regs as [|[a k] regs IH]; intros g Hrun; [discriminate|].
  rewrite register_all_cons in Hrun.
  destruct (Account_new a k) as [acct|e0] eqn:Enew.
  - destruct (IH _ Hrun) as (pre & a1 & k1 & post & -> & Hthrow & Hpre).
    exists ((a, k) :: pre), a1, k1, post. split; [reflexivity|].
    split; [assumption|]. rewrite register_all_cons, Enew. exact Hpre.
  - inversion Hrun; subst. exists [], a, k, regs. auto.
Qed.

Lemma register_all_contract_address (regs : list (string * string)) (g : Game) :
  contract_address (snd (register_all regs g)) = contract_address g.
Proof.
  revert g. induction regs as [|[a k] regs IH]; intros g; [reflexivity|].
  rewrite register_all_cons. destruct (Account_new a k) as [acct|e]; [|reflexivity].
  now rewrite IH.
Qed.

(** X7.  However many times and in whatever order addresses are registered
    on a new object, the registry holds each address once, holds only
    addresses that were registered, and files under each an account that
    the library built for it.  When every registration returns, every
    registered address is there, with the account built at its last
    registration.  When one throws, the registrations stop there: what is
    thrown is what the library threw for that one, and the registry is the
    one the registrations before it made. *)
Theorem registry_after_registrations (regs : list (string * string))
    (c : string) :
  NoDup (map fst (accounts (snd (register_all regs (new_game c)))))
  /\ built_by_library (accounts (snd (register_all regs (new_game c))))
  /\ (forall a,
        In a (map fst (accounts (snd (register_all regs (new_game c))))) ->
        In a (map fst regs))
  /\ match fst (register_all regs (new_game c)) with
     | Return _ =>
         (forall a,
             In a (map fst regs) ->
             In a (map fst (accounts (snd (register_all regs (new_game c))))))
         /\ (forall pre a k post,
                regs = pre ++ (a, k) :: post ->
                ~ In a (map fst post) ->
                exists acct,
                  Account_new a k = Return acct
                  /\ map_get a (accounts (snd (register_all regs (new_game c))))
                     = Some acct)
     | Throw e =>
         exists pre a k post,
           regs = pre ++ (a, k) :: post
           /\ Account_new a k = Throw e
           /\ register_all pre (new_game c)
              = (Return tt, snd (register_all regs (new_game c)))
     end.
Proof.
  split; [apply register_all_nodup; constructor|].
  split; [apply register_all_built; constructor|].
  split.
  { intros a Hin. destruct (register_all_keys_from _ _ _ Hin) as [[]|Hr].
    assumption. }
  destruct (register_all regs (new_game c)) as [[[]|e] g'] eqn:Hrun; cbn [fst snd].
  - split.
    + intros a. now apply (register_all_keys_in regs (new_game c)).
    + intros pre a k post -> Hni.
      now apply (register_all_last pre post a k (new_game c)).
  - now apply register_all_stops.
Qed.

End RegistrationRuns.

(** The eight registrations of [main], as it reads them when every
    variable is set. *)
Lemma read_players_complete (env : Env) :
  forall (count i : nat),
    (forall m, (i <= m < i + count)%nat -> player_set env m = true) ->
    read_players env i count
    = Return (map (fun i => (match player_address env i with
                             | Some a => a
                             | None => ""
                             end,
                             match player_private_key env i with
                             | Some k => k
                             | None => ""
                             end)) (seq i count)).
Proof.
  induction count as [|count IH]; intros i Hset; [reflexivity|].
  assert (Hi : player_set env i = true) by (apply Hset; lia).
  assert (Hread := IH (S i) (fun m Hm => Hset m ltac:(lia))).
  unfold player_set in Hi. simpl.
  destruct (player_address env i) as [a|]; [|discriminate].
  destruct (player_private_key env i) as [k|]; [|discriminate].
  apply andb_true_iff in Hi. destruct Hi as [Ha Hk]. rewrite Ha, Hk, Hread.
  reflexivity.
Qed.

Lemma env_players_registrations (env : Env) :
  map fst (env_registrations env) = env_players env.
Proof.
  unfold env_registrations, env_players. rewrite map_map. reflexivity.
Qed.

Lemma bind_returns {L A B} (c : M L A) (k : A -> M L B) (st st1 : St L) (v : A) :
  c st = (Return v, st1) -> bind c k st = k v st1.
Proof. intros E. unfold bind. now rewrite E. Qed.

Lemma try_catch_returns {L T} (c : M L T) (h : JsValue -> M L T)
    (st st1 : St L) (v : T) :
  c st = (Return v, st1) -> try_catch c h st = (Return v, st1).
Proof. intros E. unfold try_catch. now rewrite E. Qed.

Section WholeScenario.
Context {L : Type} `{LedgerBackend L}.
Variable g0 : Game.
Variable gameId : Z.
Variable players : list string.
Hypothesis Hconf : always_confirms (L:=L).
Hypothesis Haddr : contract_address g0 = main_contract_address.
Hypothesis Hroles :
  forall i, (i < 8)%nat ->
    exists acct, map_get (nth i players "") (accounts g0) = Some acct.
Hypothesis Hfirst :
  exists acct,
    map_first (accounts g0) = Some acct
    /\ map_get (nth 0 players "") (accounts g0) = Some acct.
Hypothesis Hcompile : compiles_all (scenario_calls gameId players).

Lemma scenario_submits :
  submits g0 (scenario_calls gameId players)
    (scenario_start gameId players ;; scenario_play gameId players)
    (fun _ => True).
Proof.
  destruct (Hroles 1) as (a1 & Hg1); [lia|].
  destruct (Hroles 2) as (a2 & Hg2); [lia|].
  destruct (Hroles 3) as (a3 & Hg3); [lia|].
  destruct (Hroles 4) as (a4 & Hg4); [lia|].
  destruct (Hroles 5) as (a5 & Hg5); [lia|].
  destruct (Hroles 6) as (a6 & Hg6); [lia|].
  destruct (Hroles 7) as (a7 & Hg7); [lia|].
  destruct Hfirst as (af & Hgf & Hg0).
  assert (Hcaller : caller_account None g0 = Some af) by exact Hgf.
  pose proof Hcompile as Hc.
  unfold compiles_all, scenario_calls in Hc. cbv beta zeta in Hc.
  repeat match type of Hc with
         | Forall _ (_ :: _) =>
             let Hhd := fresh "Hhd" in
             apply Forall_cons_iff in Hc; destruct Hc as [Hhd Hc];
             cbn [snd calldata] in Hhd
         end.
  eapply submits_weaken.
  - unfold scenario_start, scenario_play. cbv zeta.
    repeat lazymatch goal with
           | |- submits _ _ (bind _ _) _ => eapply submits_bind; [|intros ? _]
           | |- submits _ _ (try_catch _ start_catch) _ => apply submits_try_catch
           | |- submits _ _ (console_log _) _ => apply submits_console_log
           | |- submits _ _ (sleep _) _ => apply submits_sleep
           | |- submits _ _ (ret _) _ =>
               apply submits_ret with (Q := fun _ => True); exact I
           | |- submits _ _ (startGame _ _ _) _ =>
               eapply startGame_submits; eassumption
           | |- submits _ _ (vote _ _ _) _ => eapply vote_submits; eassumption
           | |- submits _ _ (cupidAction _ _ _ _) _ =>
               eapply cupidAction_submits; eassumption
           | |- submits _ _ (werewolfAction _ _ _) _ =>
               eapply werewolfAction_submits; eassumption
           | |- submits _ _ (endVoting _) _ =>
               eapply (endVoting_submits g0 Hconf _ (nth 0 players ""));
               eassumption
           | |- submits _ _ (passNight _ _) _ =>
               eapply (passNight_submits g0 Hconf _ _ (nth 0 players ""));
               eassumption
           | |- submits _ _ (passDay _ _) _ =>
               eapply (passDay_submits g0 Hconf _ _ (nth 0 players ""));
               eassumption
           | |- submits _ _ (witchAction _ _ _ _ _) _ =>
               eapply witchAction_submits; eassumption
           | |- submits _ _ (hunterAction _ _ _) _ =>
               eapply hunterAction_submits; eassumption
           end.
  - cbn [app]. rewrite Haddr. reflexivity.
Qed.

End WholeScenario.

Section WholeRun.
Context {L : Type} `{LedgerBackend L}.

(** X18.  On a ledger that accepts every submission and confirms every
    transaction, with the ABI loaded, the variables of the eight players
    set, a library that makes an account of each of the eight keys and
    compiles the calldata of each call of the scenario, [main] returns
    after submitting exactly the thirty calls of the scenario, in order,
    each signed by the account registered for its role; [end_voting],
    [pass_night] and [pass_day] are signed by the account of the first
    player, the werewolf. *)
Theorem main_plays_the_whole_scenario (env : Env) (st : St L) (g0 : Game)
    (Hconf : always_confirms (L:=L))
    (Habi : abi_failure env = None)
    (Henv : forall i, (i < 8)%nat -> player_set env i = true)
    (Hkeys : register_all (env_registrations env) (new_game main_contract_address)
             = (Return tt, g0))
    (Hcompile : compiles_all
                  (scenario_calls (random_gameId env) (env_players env))) :
  fst (main env st) = Return tt
  /\ exists signed,
       submissions (trace (snd (main env st))) = submissions (trace st) ++ signed
       /\ signed_in g0 (scenario_calls (random_gameId env) (env_players env))
            signed.
Proof.
  assert (Hread : read_players env 0 8 = Return (env_registrations env)).
  { apply read_players_complete. intros m Hm. apply Henv. lia. }
  assert (Hg0 : g0 = snd (register_all (env_registrations env)
                            (new_game main_contract_address)))
    by now rewrite Hkeys.
  assert (Hlen : List.length (env_players env) = 8%nat).
  { unfold env_players. now rewrite length_map, length_seq. }
  assert (Hroles : forall i, (i < 8)%nat ->
            exists acct,
              map_get (nth i (env_players env) "") (accounts g0) = Some acct).
  { intros i Hi.
    destruct (map_get (nth i (env_players env) "") (accounts g0)) as [acct|] eqn:E;
      [eauto|].
    apply map_get_none_keys in E. exfalso. apply E.
    apply (register_all_keys_in _ _ _ _ Hkeys).
    rewrite env_players_registrations. apply nth_In. lia. }
  assert (Hfirst : exists acct,
            map_first (accounts g0) = Some acct
            /\ map_get (nth 0 (env_players env) "") (accounts g0) = Some acct).
  { rewrite <- env_players_registrations. rewrite <- env_players_registrations in Hlen.
    destruct (env_registrations env) as [|[a0 k0] accs']; [discriminate|].
    rewrite register_all_cons in Hkeys.
    destruct (Account_new a0 k0) as [acct0|e]; [|discriminate].
    destruct (register_all_first_key accs'
                (accounts_set a0 acct0 (new_game main_contract_address))
                a0 acct0 []) as (v1 & rest1 & E); [reflexivity|].
    rewrite Hkeys in E. cbn [snd] in E.
    exists v1. rewrite E. cbn. now rewrite String.eqb_refl. }
  assert (Haddr : contract_address g0 = main_contract_address).
  { rewrite Hg0. now rewrite register_all_contract_address. }
  set (st1 :=
         record
           (EvLog (Text (String.append "Starting game with ID: "
                           (string_of_number (random_gameId env)))))
           (mkSt g0 (ledger st)
              (trace
                 (record
                    (EvLog (Text (String.append "Contract address: "
                                    main_contract_address))) st)))).
  destruct (scenario_submits g0 (random_gameId env) (env_players env)
              Hconf Haddr Hroles Hfirst Hcompile st1)
    as ([] & st' & signed & E & _ & Hsub & Hsigned & _); [split; reflexivity|].
  assert (Hmain : main env st = (Return tt, st')).
  { unfold main. apply try_catch_returns.
    erewrite bind_returns; [|reflexivity].
    erewrite bind_returns; [|unfold construct; rewrite Habi; reflexivity].
    erewrite bind_returns; [|unfold lift_outcome; rewrite Hread; reflexivity].
    erewrite bind_returns;
      [|unfold add_accounts; cbn [this]; rewrite Hkeys; reflexivity].
    cbv zeta. erewrite bind_returns; [|reflexivity].
    apply try_catch_returns. rewrite env_players_registrations. exact E. }
  rewrite Hmain. cbn [fst snd]. split; [reflexivity|].
  exists signed. split; [|assumption].
  rewrite Hsub. unfold st1, record. cbn [trace].
  rewrite !submissions_app. cbn [submissions]. now rewrite !app_nil_r.
Qed.

End WholeRun.

Lemma main_plays_the_whole_scenario_witness :
  let g0 := snd (@register_all Scripted.library
                   (env_registrations Accepting.env)
                   (new_game main_contract_address)) in
  fst (main Accepting.env Accepting.start) = Return tt
  /\ exists signed,
       submissions (trace (snd (main Accepting.env Accepting.start)))
       = submissions (trace Accepting.start) ++ signed
       /\ signed_in g0
            (scenario_calls (random_gameId Accepting.env)
               (env_players Accepting.env))
            signed.
Proof.
  apply (main_plays_the_whole_scenario Accepting.env Accepting.start).
  - split.
    + intros a c v l. exists Accepting.tx, l. reflexivity.
    + intros h l. exists l. reflexivity.
  - reflexivity.
  - intros i _. reflexivity.
  - vm_compute. reflexivity.
  - unfold compiles_all. repeat (constructor; [reflexivity|]). constructor.
Defined.

(** Player 3 has no address. *)
Lemma main_missing_environment_witness :
  let env :=
    {| player_address :=
         fun i => if Nat.eqb i 3 then None
                  else Some (String.append "0xa" (string_of_index i));
       player_private_key := fun i => Some "0x1";
       abi_failure := None;
       random_gameId := 7 |} in
  main env (Scripted.start Scripted.two_players Scripted.quiet)
  = (Return tt,
     mkSt (new_game main_contract_address) Scripted.quiet
       ([] ++
          [EvLog (Text (String.append "Contract address: " main_contract_address));
           EvConsoleError "Failed to initialize game:" (missing_player 3)])).
Proof.
  apply (main_missing_environment
           {| player_address :=
                fun i => if Nat.eqb i 3 then None
                         else Some (String.append "0xa" (string_of_index i));
              player_private_key := fun i => Some "0x1";
              abi_failure := None;
              random_gameId := 7 |}
           (Scripted.start Scripted.two_players Scripted.quiet) 3).
  - reflexivity.
  - lia.
  - intros m Hm.
    destruct m as [|[|[|m]]]; [reflexivity|reflexivity|reflexivity|lia].
  - reflexivity.
Defined.

Lemma werewolfAction_other_rejection_rethrown_witness :
  let st := Scripted.start Scripted.two_players
              (Scripted.mk [Throw (JsError "Not night phase")] [] []) in
  werewolfAction 7 Scripted.bob Scripted.alice st
  = (Throw (JsError "Not night phase"),
     mkSt (connect (Scripted.alice_account) (this st)) Scripted.quiet
       (trace st ++
          [EvLog (Text "Sending night action transaction...");
           EvExecute (Scripted.alice_account)
             (night_call (this st) 7 Scripted.bob) V3;
           EvConsoleError "Error performing night action:"
             (JsError "Not night phase")])).
Proof.
  apply (werewolfAction_other_rejection_rethrown 7 Scripted.bob Scripted.alice
           (Scripted.start Scripted.two_players
              (Scripted.mk [Throw (JsError "Not night phase")] [] []))
           (Scripted.alice_account) (JsError "Not night phase")
           Scripted.quiet);
    reflexivity.
Defined.

(** The run on the accepting ledger, computed. *)
Example main_on_accepting_ledger :
  List.length (submissions (trace (snd (main Accepting.env Accepting.start))))
  = 30%nat
  /\ map (fun s => entrypoint (snd s))
       (firstn 4 (submissions (trace (snd (main Accepting.env Accepting.start)))))
     = ["start_game"; "cupid_action"; "night_action"; "pass_night"]
  /\ count_sleeps (trace (snd (main Accepting.env Accepting.start))) = 29%nat.
Proof. vm_compute. repeat split. Qed.

(** A key that is no number stops [main] before the game starts: the
    error of the library is reported by the outer [catch] and nothing is
    submitted. *)
Example main_key_refused :
  let env :=
    {| player_address := fun i => Some (String.append "0xa" (string_of_index i));
       player_private_key :=
         fun i => if Nat.eqb i 2 then Some "key-2" else Some "0x1";
       abi_failure := None;
       random_gameId := 7 |} in
  fst (main env Accepting.start) = Return tt
  /\ trace (snd (main env Accepting.start))
     = [EvLog (Text (String.append "Contract address: " main_contract_address));
        EvConsoleError "Failed to initialize game:"
          (JsError "Cannot convert key-2 to a BigInt")]
  /\ map fst (accounts (this (snd (main env Accepting.start)))) = ["0xa0"; "0xa1"].
Proof. vm_compute. repeat split. Qed.
